(** * Workflow service: reference closure, publishing and draft bookkeeping

    A shallow embedding of the workflow domain service
    (package [service], type [impl]) and of the question/answer test
    scenarios of the execution engine, with the properties the design
    document states about them. *)

From Stdlib Require Import ZArith String Ascii List Lia Bool Permutation.
From Stdlib Require Import DecimalString.
From stdpp Require Import base option list gmap sets strings.

Set Warnings "-register-all,-clear-no-such-hyp".

Open Scope string_scope.
Open Scope list_scope.
Open Scope Z_scope.

(** ** Outcomes of a Go call

    A call returns a value, returns a non-nil [error], or panics (a nil
    pointer dereference, an index out of range or a failed type
    assertion). *)

Inductive error : Type :=
  | ErrRecordNotFound
  | ErrSerializationDeserializationFail
  | ErrSchemaConversionFail
  | ErrSyntax (s : string)
  | ErrStorage (msg : string)
  | ErrMsg (msg : string).

#[global] Instance error_eq_dec : EqDecision error.
Proof. solve_decision. Defined.

Inductive result (A : Type) : Type :=
  | Ok (a : A)
  | Err (e : error)
  | Panic.

Arguments Ok {A} a.
Arguments Err {A} e.
Arguments Panic {A}.

Definition rbind {A B} (r : result A) (k : A -> result B) : result B :=
  match r with
  | Ok a => k a
  | Err e => Err e
  | Panic => Panic
  end.

Definition is_ok {A} (r : result A) : bool :=
  match r with Ok _ => true | _ => false end.

Definition is_err {A} (r : result A) : bool :=
  match r with Err _ => true | _ => false end.

(** for _, x := range l { acc, err = f(x, acc); if err != nil { return err } } *)
Section FoldR.
Context {A S : Type}.
Variable f : A -> S -> result S.

Fixpoint foldR (l : list A) (s : S) : result S :=
  match l with
  | [] => Ok s
  | x :: l' => rbind (f x s) (foldR l')
  end.
End FoldR.

(** ** strconv.ParseInt(s, 10, 64) and strconv.FormatInt(z, 10) *)

Definition digit_of (c : ascii) : option Z :=
  let n := Z.of_nat (nat_of_ascii c) in
  if (48 <=? n) && (n <=? 57) then Some (n - 48) else None.

Fixpoint digits_val (acc : Z) (s : string) : option Z :=
  match s with
  | EmptyString => Some acc
  | String c r =>
      match digit_of c with
      | Some d => digits_val (10 * acc + d) r
      | None => None
      end
  end.

Definition minInt64 : Z := - 2 ^ 63.
Definition maxInt64 : Z := 2 ^ 63 - 1.

Definition ParseInt (s : string) : option Z :=
  let '(neg, body) :=
    match s with
    | String "+"%char r => (false, r)
    | String "-"%char r => (true, r)
    | _ => (false, s)
    end in
  match body with
  | EmptyString => None
  | _ =>
      match digits_val 0 body with
      | None => None
      | Some n =>
          let v := if neg then - n else n in
          if (minInt64 <=? v) && (v <=? maxInt64) then Some v else None
      end
  end.

Definition FormatInt (z : Z) : string := NilZero.string_of_int (Z.to_int z).

(** ** The canvas

    Modelled from the spec: the canvas types of package [vo] ([Canvas],
    [Node], [Data], [Inputs] and the function-call parameters of an LLM node)
    are declared outside the sources at hand.  Section 3 of the design gives a
    node its [ID], [Type], [Data] and nested [Blocks]; the fields below are
    the ones the service functions read and write.  [Inputs] carries one
    optional configuration block per node family ([SubWorkflow], [LLM],
    [DatabaseNode], [Knowledge], [PluginAPIParam]); the service tests these
    blocks against nil before it touches their fields, and reading a field
    of an absent block is a nil dereference. *)

Record WorkflowFCItem : Type := mkWorkflowFCItem {
  wfc_WorkflowID : string;
  wfc_WorkflowVersion : string;
  wfc_IsDraft : bool
}.

Record PluginFCItem : Type := mkPluginFCItem {
  pfc_PluginID : string;
  pfc_ApiId : string;
  pfc_PluginVersion : string;
  pfc_IsDraft : bool
}.

Record KnowledgeFCItem : Type := mkKnowledgeFCItem {
  kfc_ID : string
}.

Record FCParam : Type := mkFCParam {
  WorkflowFCParam : option (list WorkflowFCItem);
  PluginFCParam : option (list PluginFCItem);
  KnowledgeFCParam : option (list KnowledgeFCItem)
}.

(** The dynamically typed [Input.Value.Content] of a parameter. *)
Inductive content : Type :=
  | CString (s : string)
  | CList (l : list content)
  | CNil.

Record Param : Type := mkParam {
  param_Name : string;
  param_Content : content
}.

Record DatabaseInfo : Type := mkDatabaseInfo {
  DatabaseInfoID : string
}.

Record SubWorkflowCfg : Type := mkSubWorkflowCfg {
  WorkflowID : string;
  WorkflowVersion : string
}.

Record LLMCfg : Type := mkLLMCfg {
  llm_FCParam : option FCParam
}.

Record Inputs : Type := mkInputs {
  SubWorkflow : option SubWorkflowCfg;
  LLM : option LLMCfg;
  DatabaseNode : option (list DatabaseInfo);
  Knowledge : option (list Param);
  PluginAPIParam : option (list Param)
}.

Record Data : Type := mkData {
  data_Inputs : option Inputs
}.

Inductive Node : Type := mkNode {
  node_ID : string;
  node_Type : string;
  node_Data : option Data;
  node_Blocks : list Node
}.

Record Canvas : Type := mkCanvas {
  Nodes : list Node
}.

(** A stored canvas string either fails to decode or decodes to a canvas;
    [sonic.MarshalString] of a canvas decodes back to it (section 6: the
    format round-trips). *)
Inductive CanvasDoc : Type :=
  | BadJSON (raw : string)
  | Doc (c : Canvas).

Definition UnmarshalCanvas (s : CanvasDoc) : result Canvas :=
  match s with
  | BadJSON _ => Err ErrSerializationDeserializationFail
  | Doc c => Ok c
  end.

Definition MarshalCanvas (c : Canvas) : CanvasDoc := Doc c.

(** node.Data.Inputs *)
Definition inputsOf (n : Node) : result Inputs :=
  match node_Data n with
  | Some d => match data_Inputs d with Some i => Ok i | None => Panic end
  | None => Panic
  end.

(** node.Data.Inputs.WorkflowID and .WorkflowVersion *)
Definition subWorkflowOf (n : Node) : result SubWorkflowCfg :=
  rbind (inputsOf n) (fun i =>
    match SubWorkflow i with Some sw => Ok sw | None => Panic end).

(** Induction over a node and, through [Blocks], its descendants. *)
Section NodeInd.
Variable P : Node -> Prop.
Hypothesis Hnode : forall id ty d bs, Forall P bs -> P (mkNode id ty d bs).

Fixpoint Node_ind' (n : Node) : P n :=
  match n with
  | mkNode id ty d bs =>
      Hnode id ty d bs
        ((fix go (l : list Node) : Forall P l :=
            match l with
            | [] => Forall_nil_2 P
            | b :: l' => Forall_cons_2 P b l' (Node_ind' b) (go l')
            end) bs)
  end.
End NodeInd.

(** Every node of a list together with all nodes nested in Blocks, at any
    depth, in document order. *)
Fixpoint flattenNode (n : Node) : list Node :=
  n :: (fix go (l : list Node) : list Node :=
          match l with
          | [] => []
          | b :: l' => flattenNode b ++ go l'
          end) (node_Blocks n).

Definition allNodes (l : list Node) : list Node :=
  concat (map flattenNode l).

(** ** Node types and reference edges *)

Inductive NodeType : Type :=
  | NodeTypeEntry
  | NodeTypeExit
  | NodeTypeLLM
  | NodeTypeSubWorkflow
  | NodeTypeQuestionAnswer
  | NodeTypeLambda
  | NodeTypeCreateConversation
  | NodeTypeConversationUpdate
  | NodeTypeConversationDelete
  | NodeTypeConversationList
  | NodeTypeOther (key : string).

#[global] Instance NodeType_eq_dec : EqDecision NodeType.
Proof. solve_decision. Defined.

Record NodeTypeMeta : Type := mkNodeTypeMeta {
  UseDatabase : bool;
  UseKnowledge : bool;
  UsePlugin : bool
}.

Inductive ReferType : Type := ReferTypeSubWorkflow | ReferTypeTool.
Inductive ReferringBizType : Type := ReferringBizTypeWorkflow | ReferringBizTypeAgent.

#[global] Instance ReferType_eq_dec : EqDecision ReferType.
Proof. solve_decision. Defined.
#[global] Instance ReferringBizType_eq_dec : EqDecision ReferringBizType.
Proof. solve_decision. Defined.

Record WorkflowReferenceKey : Type := mkRefKey {
  ReferredID : Z;
  ReferringID : Z;
  ReferType_ : ReferType;
  ReferringBizType_ : ReferringBizType
}.

#[global] Instance WorkflowReferenceKey_eq_dec : EqDecision WorkflowReferenceKey.
Proof. solve_decision. Defined.

#[global] Instance ReferType_countable : Countable ReferType.
Proof.
  refine (inj_countable' (fun t => match t with ReferTypeSubWorkflow => true | ReferTypeTool => false end)
            (fun b : bool => if b then ReferTypeSubWorkflow else ReferTypeTool) _).
  by intros [].
Defined.

#[global] Instance ReferringBizType_countable : Countable ReferringBizType.
Proof.
  refine (inj_countable' (fun t => match t with ReferringBizTypeWorkflow => true | ReferringBizTypeAgent => false end)
            (fun b : bool => if b then ReferringBizTypeWorkflow else ReferringBizTypeAgent) _).
  by intros [].
Defined.

#[global] Instance WorkflowReferenceKey_countable : Countable WorkflowReferenceKey.
Proof.
  refine (inj_countable'
            (fun k => (ReferredID k, ReferringID k, ReferType_ k, ReferringBizType_ k))
            (fun t => match t with (a, b, c, d) => mkRefKey a b c d end) _).
  by intros [].
Defined.

(** The node-type registry of package [entity]: the tag a canvas node
    carries for each type, its inverse, and the capability flags of a type.
    The table itself is not part of the sources at hand, so the service is
    stated over any registry. *)
Class Registry : Type := {
  IDStr : NodeType -> string;
  IDStrToNodeType : string -> NodeType;
  NodeMetaByNodeType : NodeType -> NodeTypeMeta
}.

(** ** canvasToRefs *)

Definition subWorkflowRef (referringID referredID : Z) : WorkflowReferenceKey :=
  mkRefKey referredID referringID ReferTypeSubWorkflow ReferringBizTypeWorkflow.

Definition toolRef (referringID referredID : Z) : WorkflowReferenceKey :=
  mkRefKey referredID referringID ReferTypeTool ReferringBizTypeWorkflow.

(** One iteration of the loop over [WorkflowFCParam.WorkflowList]. *)
Definition addToolRef (referringID : Z) (w : WorkflowFCItem)
    (wfRefs : gset WorkflowReferenceKey) : result (gset WorkflowReferenceKey) :=
  match ParseInt (wfc_WorkflowID w) with
  | None => Err ErrSchemaConversionFail
  | Some referredID => Ok ({[ toolRef referringID referredID ]} ∪ wfRefs)
  end.

(** The workflows-as-tools list of an LLM node, empty when the node has no
    LLM block, no function-call parameters or no workflow parameter. *)
Definition workflowListOf (i : Inputs) : list WorkflowFCItem :=
  match LLM i with
  | Some llm =>
      match llm_FCParam llm with
      | Some fc => match WorkflowFCParam fc with Some l => l | None => [] end
      | None => []
      end
  | None => []
  end.

(** The body of the loop of [getRefFn] for one node. *)
Fixpoint getRefNode `{Reg : Registry} (referringID : Z) (node : Node)
    (wfRefs : gset WorkflowReferenceKey) : result (gset WorkflowReferenceKey) :=
  if decide (node_Type node = IDStr NodeTypeSubWorkflow) then
    rbind (subWorkflowOf node) (fun sw =>
      match ParseInt (WorkflowID sw) with
      | None => Err ErrSchemaConversionFail
      | Some referredID => Ok ({[ subWorkflowRef referringID referredID ]} ∪ wfRefs)
      end)
  else if decide (node_Type node = IDStr NodeTypeLLM) then
    rbind (inputsOf node) (fun i =>
      foldR (addToolRef referringID) (workflowListOf i) wfRefs)
  else
    foldR (getRefNode referringID) (node_Blocks node) wfRefs.

Definition getRefFn `{Reg : Registry} (referringID : Z) (nodes : list Node)
    (wfRefs : gset WorkflowReferenceKey) : result (gset WorkflowReferenceKey) :=
  foldR (getRefNode referringID) nodes wfRefs.

Definition canvasToRefs `{Reg : Registry} (referringID : Z) (canvasStr : CanvasDoc)
    : result (gset WorkflowReferenceKey) :=
  rbind (UnmarshalCanvas canvasStr) (fun canvas =>
    getRefFn referringID (Nodes canvas) ∅).

(** *** What the design says [Build] returns

    A sub-workflow node contributes the sub-workflow edge to its target; an
    LLM node contributes a tool edge per workflow of its workflows-as-tools
    list. *)
Inductive contributes `{Reg : Registry} (referringID : Z) (n : Node)
    : WorkflowReferenceKey -> Prop :=
  | contributes_sub sw id :
      node_Type n = IDStr NodeTypeSubWorkflow ->
      subWorkflowOf n = Ok sw ->
      ParseInt (WorkflowID sw) = Some id ->
      contributes referringID n (subWorkflowRef referringID id)
  | contributes_tool i w id :
      node_Type n = IDStr NodeTypeLLM ->
      inputsOf n = Ok i ->
      w ∈ workflowListOf i ->
      ParseInt (wfc_WorkflowID w) = Some id ->
      contributes referringID n (toolRef referringID id).

(** Sub-workflow and LLM nodes that carry their inputs and no Blocks of
    their own. *)
Definition refNodeShape `{Reg : Registry} (n : Node) : bool :=
  if decide (node_Type n = IDStr NodeTypeSubWorkflow) then
    is_ok (subWorkflowOf n) && bool_decide (node_Blocks n = [])
  else if decide (node_Type n = IDStr NodeTypeLLM) then
    is_ok (inputsOf n) && bool_decide (node_Blocks n = [])
  else true.

(** Every workflow ID a node refers to is a decimal int64. *)
Definition refIDsParse `{Reg : Registry} (n : Node) : bool :=
  if decide (node_Type n = IDStr NodeTypeSubWorkflow) then
    match subWorkflowOf n with
    | Ok sw => bool_decide (is_Some (ParseInt (WorkflowID sw)))
    | _ => true
    end
  else if decide (node_Type n = IDStr NodeTypeLLM) then
    match inputsOf n with
    | Ok i => forallb (fun w => bool_decide (is_Some (ParseInt (wfc_WorkflowID w)))) (workflowListOf i)
    | _ => true
    end
  else true.

(** ** Persisted workflow content

    Modelled from the spec: the value objects of packages [vo] and [entity]
    ([Meta], [DraftInfo], [VersionInfo], [PublishPolicy], [Workflow], ...)
    are declared outside the sources at hand.  Section 3 of the design
    describes a draft (canvas, commit ID, test-run flag) and a version (a
    named snapshot with its parameter schema); the fields below are the ones
    the service functions read and write. *)

Inductive WorkflowMode : Type := WorkflowMode_Workflow | WorkflowMode_ChatFlow.

#[global] Instance WorkflowMode_eq_dec : EqDecision WorkflowMode.
Proof. solve_decision. Defined.

Record Meta : Type := mkMeta {
  meta_Name : string;
  meta_AppID : option Z;
  meta_CreatorID : Z;
  meta_Mode : WorkflowMode;
  LatestPublishedVersion : option string
}.

Record DraftInfo : Type := mkDraftInfo {
  TestRunSuccess : bool;
  Modified : bool;
  draft_Canvas : CanvasDoc;
  draft_InputParamsStr : string;
  draft_OutputParamsStr : string;
  draft_CommitID : string
}.

Record VersionInfo : Type := mkVersionInfo {
  Version : string;
  VersionDescription : string;
  VersionCreatorID : Z;
  ver_Canvas : CanvasDoc;
  ver_InputParamsStr : string;
  ver_OutputParamsStr : string;
  ver_CommitID : string
}.

Record PublishPolicy : Type := mkPublishPolicy {
  pp_ID : Z;
  pp_Version : string;
  pp_VersionDescription : string;
  pp_CreatorID : Z;
  pp_CommitID : string;
  pp_Force : bool
}.

Record CopyWorkflowPolicy : Type := mkCopyWorkflowPolicy {
  TargetAppID : option Z;
  ModifiedCanvasSchema : option CanvasDoc
}.

Record Workflow : Type := mkWorkflow {
  wf_ID : Z;
  wf_Name : string;
  wf_AppID : option Z;
  wf_CreatorID : Z;
  wf_Mode : WorkflowMode;
  wf_Canvas : CanvasDoc;
  wf_InputParams : string;
  wf_OutputParams : string;
  wf_CommitID : string
}.

Inductive QType : Type := FromDraft | FromSpecificVersion | FromLatestVersion.

Record GetPolicy : Type := mkGetPolicy {
  gp_ID : Z;
  gp_QType : QType;
  gp_Version : string;
  gp_MetaOnly : bool
}.

Record MGetPolicy : Type := mkMGetPolicy {
  mq_AppID : option Z;
  mq_IDs : list Z;
  mq_QType : QType
}.

Record ChatFlowRole : Type := mkChatFlowRole {
  role_Name : string;
  role_Description : string;
  role_WorkflowID : Z;
  role_CreatorID : Z;
  role_Config : string;
  role_Version : string
}.

Record IDVersionPair : Type := mkIDVersionPair {
  pair_ID : Z;
  pair_Version : string
}.

Record PluginEntity : Type := mkPluginEntity {
  PluginID : Z;
  PluginVersion : option string
}.

Record ExternalResourceRelated : Type := mkExternalResourceRelated {
  PluginMap : gmap Z PluginEntity;
  PluginToolMap : gmap Z Z;
  KnowledgeMap : gmap Z Z;
  DatabaseMap : gmap Z Z
}.

Record ValidateTreeConfig : Type := mkValidateTreeConfig {
  CanvasSchema : CanvasDoc;
  vt_AppID : option Z
}.

(** An issue found by the canvas validator, kept as its message. *)
Definition Issue : Type := string.

Record ValidateIssue : Type := mkValidateIssue {
  vi_WorkflowID : Z;
  vi_WorkflowName : string;
  vi_IssueMessages : list Issue
}.

Definition toValidateIssue (id : Z) (name : string) (issues : list Issue) : ValidateIssue :=
  mkValidateIssue id name issues.

(** ** The repository

    What a collaborator answers: a value or an error. *)
Inductive reply (A : Type) : Type :=
  | Reply (a : A)
  | Fail (e : error).

Arguments Reply {A} a.
Arguments Fail {A} e.

#[global] Instance reply_fmap : FMap reply :=
  fun A B f r => match r with Reply a => Reply (f a) | Fail e => Fail e end.

Definition replied {A} (r : reply A) : bool :=
  match r with Reply _ => true | Fail _ => false end.

(** The methods of [workflow.Repository] the service functions below call,
    over an arbitrary store [S]. *)
Class Repository (S : Type) : Type := {
  repo_GetMeta : Z -> S -> reply Meta * S;
  repo_DraftV2 : Z -> string -> S -> reply DraftInfo * S;
  repo_CreateVersion : Z -> VersionInfo -> gset WorkflowReferenceKey -> S -> reply unit * S;
  repo_CreateOrUpdateDraft : Z -> DraftInfo -> S -> reply unit * S;
  repo_GetVersion : Z -> string -> S -> reply (option VersionInfo) * S;
  repo_GetEntity : GetPolicy -> S -> reply Workflow * S;
  repo_MGetDrafts : MGetPolicy -> S -> reply (list Workflow) * S;
  repo_CopyWorkflow : Z -> CopyWorkflowPolicy -> S -> reply Workflow * S;
  repo_GetDraftWorkflowsByAppID : Z -> S -> reply (gmap Z DraftInfo * gmap Z string) * S;
  repo_GetChatFlowRoleConfig : Z -> string -> S -> (option ChatFlowRole * option error * bool) * S;
  repo_CreateChatFlowRoleConfig : ChatFlowRole -> S -> reply Z * S;
  repo_BatchCreateConnectorWorkflowVersion : Z -> Z -> list Z -> string -> S -> reply unit * S;
  repo_CopyTemplateConversationByAppID : Z -> Z -> S -> reply unit * S;
  repo_GenID : S -> reply Z * S
}.

(** The calls a service function makes on the repository, in order. *)
Inductive Call : Type :=
  | CallGetMeta (id : Z)
  | CallDraftV2 (id : Z) (commitID : string)
  | CallCreateVersion (id : Z) (info : VersionInfo) (newRefs : gset WorkflowReferenceKey)
  | CallCreateOrUpdateDraft (id : Z) (draft : DraftInfo)
  | CallGetVersion (id : Z) (version : string)
  | CallGetEntity (policy : GetPolicy)
  | CallMGetDrafts (policy : MGetPolicy)
  | CallCopyWorkflow (id : Z) (policy : CopyWorkflowPolicy)
  | CallGetDraftWorkflowsByAppID (appID : Z)
  | CallGetChatFlowRoleConfig (id : Z) (version : string)
  | CallCreateChatFlowRoleConfig (role : ChatFlowRole)
  | CallBatchCreateConnectorWorkflowVersion (appID connectorID : Z) (ids : list Z) (version : string)
  | CallCopyTemplateConversationByAppID (source target : Z)
  | CallGenID
  | CallReleaseConversationTemplate (appID : Z) (version : string).

Definition isCreateVersion (c : Call) : bool :=
  match c with CallCreateVersion _ _ _ => true | _ => false end.

Definition isCopyWorkflow (c : Call) : bool :=
  match c with CallCopyWorkflow _ _ => true | _ => false end.

(** The calls that write to the repository. *)
Definition isWrite (c : Call) : bool :=
  match c with
  | CallCreateVersion _ _ _ | CallCreateOrUpdateDraft _ _ | CallCopyWorkflow _ _
  | CallCreateChatFlowRoleConfig _ | CallBatchCreateConnectorWorkflowVersion _ _ _ _
  | CallCopyTemplateConversationByAppID _ _ | CallReleaseConversationTemplate _ _ => true
  | _ => false
  end.

(** The functions of this repository the service calls and whose code is
    outside the sources at hand: version parsing and comparison, canvas
    compilation and schema equality, the canvas validator, the user of the
    calling context and the release of conversation templates. *)
Class Collaborators (S : Type) : Type := {
  version : Type;
  parseVersion : string -> reply version;
  isIncremental : version -> version -> bool;
  WorkflowSchema : Type;
  CanvasToWorkflowSchema : Canvas -> reply WorkflowSchema;
  IsEqual : WorkflowSchema -> WorkflowSchema -> bool;
  validateWorkflowTree : ValidateTreeConfig -> S -> reply (list Issue);
  ctxUID : option Z;
  ReleaseConversationTemplate : Z -> string -> S -> reply unit * S
}.

(** ** Service code as state passing

    A service function runs on the store and on the log of repository calls
    made so far; it ends with a value, an error or a panic. *)
Record World (S : Type) : Type := mkWorld {
  store : S;
  calls : list Call
}.

Arguments mkWorld {S} store calls.
Arguments store {S} w.
Arguments calls {S} w.

Definition M (S A : Type) : Type := World S -> result A * World S.

Definition ret {S A} (a : A) : M S A := fun w => (Ok a, w).

Definition fail {S A} (e : error) : M S A := fun w => (Err e, w).

Definition panic {S A} : M S A := fun w => (Panic, w).

Definition bind {S A B} (m : M S A) (k : A -> M S B) : M S B :=
  fun w =>
    match m w with
    | (Ok a, w') => k a w'
    | (Err e, w') => (Err e, w')
    | (Panic, w') => (Panic, w')
    end.

Notation "x <- m ;; k" := (bind m (fun x => k))
  (at level 100, m at next level, right associativity).
Notation "m ;;; k" := (bind m (fun _ => k))
  (at level 100, right associativity).

Definition lift {S A} (r : result A) : M S A := fun w => (r, w).

Definition liftReply {S A} (r : reply A) : M S A :=
  fun w => match r with Reply a => (Ok a, w) | Fail e => (Err e, w) end.

(** A repository call: run it on the store, log it, fail on its error. *)
Definition call {S A} (c : Call) (f : S -> reply A * S) : M S A :=
  fun w =>
    let '(r, s') := f (store w) in
    let w' := mkWorld s' (calls w ++ [c]) in
    match r with Reply a => (Ok a, w') | Fail e => (Err e, w') end.

(** for _, x := range l { if err := f(x); err != nil { return err } } *)
Section ForEach.
Context {S A : Type}.
Variable f : A -> M S unit.

Fixpoint forEach (l : list A) : M S unit :=
  match l with
  | [] => ret tt
  | x :: l' => f x ;;; forEach l'
  end.
End ForEach.

Section Service.
Context `{Reg : Registry} {S : Type} `{Repo : Repository S} `{Col : Collaborators S}.

Definition GetMeta (id : Z) : M S Meta :=
  call (CallGetMeta id) (repo_GetMeta id).

Definition DraftV2 (id : Z) (commitID : string) : M S DraftInfo :=
  call (CallDraftV2 id commitID) (repo_DraftV2 id commitID).

Definition CreateVersion (id : Z) (info : VersionInfo)
    (newRefs : gset WorkflowReferenceKey) : M S unit :=
  call (CallCreateVersion id info newRefs) (repo_CreateVersion id info newRefs).

Definition GetVersion (id : Z) (v : string) : M S (option VersionInfo) :=
  call (CallGetVersion id v) (repo_GetVersion id v).

Definition GetEntity (policy : GetPolicy) : M S Workflow :=
  call (CallGetEntity policy) (repo_GetEntity policy).

Definition GetDraftWorkflowsByAppID (appID : Z)
    : M S (gmap Z DraftInfo * gmap Z string) :=
  call (CallGetDraftWorkflowsByAppID appID) (repo_GetDraftWorkflowsByAppID appID).

(** *** Publish *)

(** The version check at the head of [Publish]. *)
Definition checkVersion (meta : Meta) (policy : PublishPolicy) : M S unit :=
  match LatestPublishedVersion meta with
  | Some latest =>
      latestVersion <- liftReply (parseVersion latest) ;;
      currentVersion <- liftReply (parseVersion (pp_Version policy)) ;;
      if negb (isIncremental latestVersion currentVersion)
      then fail (ErrMsg "the version number is not self-incrementing")
      else ret tt
  | None => ret tt
  end.

(** [Publish] from the fetch of the draft on. *)
Definition publishDraft (policy : PublishPolicy) : M S unit :=
  draft <- DraftV2 (pp_ID policy) (pp_CommitID policy) ;;
  if negb (pp_Force policy) && negb (TestRunSuccess draft)
  then fail (ErrMsg "current draft needs to pass the test run before publishing")
  else
    wfRefs <- lift (canvasToRefs (pp_ID policy) (draft_Canvas draft)) ;;
    CreateVersion (pp_ID policy)
      {| Version := pp_Version policy;
         VersionDescription := pp_VersionDescription policy;
         VersionCreatorID := pp_CreatorID policy;
         ver_Canvas := draft_Canvas draft;
         ver_InputParamsStr := draft_InputParamsStr draft;
         ver_OutputParamsStr := draft_OutputParamsStr draft;
         ver_CommitID := draft_CommitID draft |}
      wfRefs.

Definition Publish (policy : PublishPolicy) : M S unit :=
  meta <- GetMeta (pp_ID policy) ;;
  checkVersion meta policy ;;;
  publishDraft policy.

(** *** calculateTestRunSuccess *)

(** [sonic.UnmarshalString] into a zero [vo.Canvas] whose error is
    dropped: a string that does not decode leaves the zero canvas. *)
Definition decodeOrZero (s : CanvasDoc) : Canvas :=
  match s with
  | Doc c => c
  | BadJSON _ => mkCanvas []
  end.

(** The Go function returns a pair [(bool, error)]; the pair is kept. *)
Definition calculateTestRunSuccess (c : Canvas) (wid : Z)
    : World S -> (bool * option error) * World S :=
  fun w =>
    match CanvasToWorkflowSchema c with
    | Fail _ => ((false, None), w)
    | Reply sc =>
        let '(r, s') := repo_DraftV2 wid "" (store w) in
        let w' := mkWorld s' (calls w ++ [CallDraftV2 wid ""]) in
        match r with
        | Fail ErrRecordNotFound => ((false, None), w')
        | Fail e => ((false, Some e), w')
        | Reply existedDraft =>
            let existedDraftCanvas := decodeOrZero (draft_Canvas existedDraft) in
            match CanvasToWorkflowSchema existedDraftCanvas with
            | Reply existedSc =>
                if negb (IsEqual existedSc sc)
                then ((false, None), w')
                else ((TestRunSuccess existedDraft, None), w')
            | Fail _ => ((false, None), w')
            end
        end
    end.

(** The carry-over as the design words it: the flag of the previous
    draft when the new canvas compiles, a previous draft exists, the canvas
    of that draft compiles and the two schemas are equal; false otherwise. *)
Definition carriedFlag (c : Canvas) (previous : reply DraftInfo) : bool :=
  match CanvasToWorkflowSchema c, previous with
  | Reply sc, Reply d =>
      match draft_Canvas d with
      | Doc pc =>
          match CanvasToWorkflowSchema pc with
          | Reply existedSc => IsEqual existedSc sc && TestRunSuccess d
          | Fail _ => false
          end
      | BadJSON _ => false
      end
  | _, _ => false
  end.
End Service.

(** ** replaceRelatedWorkflowOrExternalResourceInWorkflowNodes

    The Go function rewrites the nodes in place; here it returns the
    rewritten nodes.  (The elements of [DatabaseInfoList] and of the
    knowledge list of an LLM node are taken to be pointers, so that the
    assignments to their ID fields reach the canvas.) *)

(** Apply [f] to every element, stopping at the first error. *)
Section MapR.
Context {A B : Type}.
Variable f : A -> result B.

Fixpoint mapR (l : list A) : result (list B) :=
  match l with
  | [] => Ok []
  | x :: l' => rbind (f x) (fun y => rbind (mapR l') (fun ys => Ok (y :: ys)))
  end.
End MapR.

(** strconv.ParseInt with the error returned as it is *)
Definition parseID (s : string) : result Z :=
  match ParseInt s with
  | Some z => Ok z
  | None => Err (ErrSyntax s)
  end.

(** x.(string) *)
Definition asString (c : content) : result string :=
  match c with
  | CString s => Ok s
  | _ => Panic
  end.

(** slices.ToMap(params, by name)[name]: the last parameter of that name *)
Fixpoint lookupParam (name : string) (ps : list Param) : option Param :=
  match ps with
  | [] => None
  | p :: ps' =>
      match lookupParam name ps' with
      | Some q => Some q
      | None => if decide (param_Name p = name) then Some p else None
      end
  end.

(** Assignment to [Input.Value.Content] of that parameter. *)
Fixpoint setParam (name : string) (c : content) (ps : list Param) : list Param :=
  match ps with
  | [] => []
  | p :: ps' =>
      match lookupParam name ps' with
      | Some _ => p :: setParam name c ps'
      | None =>
          if decide (param_Name p = name) then mkParam name c :: ps' else p :: ps'
      end
  end.

Definition replaceDatabaseInfo (related : ExternalResourceRelated) (d : DatabaseInfo)
    : result DatabaseInfo :=
  rbind (parseID (DatabaseInfoID d)) (fun did =>
    match DatabaseMap related !! did with
    | Some refDatabaseID => Ok (mkDatabaseInfo (FormatInt refDatabaseID))
    | None => Ok d
    end).

Definition replaceKnowledgeID (related : ExternalResourceRelated) (c : content)
    : result content :=
  rbind (asString c) (fun s =>
  rbind (parseID s) (fun kid =>
    match KnowledgeMap related !! kid with
    | Some refKnowledgeID => Ok (CString (FormatInt refKnowledgeID))
    | None => Ok c
    end)).

(** DatasetParam[0].Input.Value.Content.([]any), rewritten element-wise *)
Definition replaceDatasetParam (related : ExternalResourceRelated) (ps : list Param)
    : result (list Param) :=
  match ps with
  | [] => Panic
  | p :: rest =>
      match param_Content p with
      | CList knowledgeIDs =>
          rbind (mapR (replaceKnowledgeID related) knowledgeIDs) (fun ids =>
            Ok (mkParam (param_Name p) (CList ids) :: rest))
      | _ => Panic
      end
  end.

Definition replaceAPIParams (related : ExternalResourceRelated) (ps : list Param)
    : result (list Param) :=
  match lookupParam "pluginID" ps with
  | None => Err (ErrMsg "plugin id param is not found")
  | Some pluginIDParam =>
      rbind (asString (param_Content pluginIDParam)) (fun s =>
      rbind (parseID s) (fun pID =>
        match lookupParam "pluginVersion" ps with
        | None => Err (ErrMsg "plugin version param is not found")
        | Some _ =>
            let ps1 :=
              match PluginMap related !! pID with
              | Some refPlugin =>
                  let ps' := setParam "pluginID" (CString (FormatInt (PluginID refPlugin))) ps in
                  match PluginVersion refPlugin with
                  | Some v => setParam "pluginVersion" (CString v) ps'
                  | None => ps'
                  end
              | None => ps
              end in
            match lookupParam "apiID" ps1 with
            | None => Err (ErrMsg "apiID param is not found")
            | Some apiIDParam =>
                rbind (asString (param_Content apiIDParam)) (fun s' =>
                rbind (parseID s') (fun apiID =>
                  match PluginToolMap related !! apiID with
                  | Some refApiID => Ok (setParam "apiID" (CString (FormatInt refApiID)) ps1)
                  | None => Ok ps1
                  end))
            end
        end))
  end.

Definition replaceWorkflowFC (relatedWorkflows : gmap Z IDVersionPair) (wf : WorkflowFCItem)
    : result WorkflowFCItem :=
  rbind (parseID (wfc_WorkflowID wf)) (fun workflowID =>
    match relatedWorkflows !! workflowID with
    | Some refWf =>
        Ok (mkWorkflowFCItem (FormatInt (pair_ID refWf)) (pair_Version refWf) (wfc_IsDraft wf))
    | None => Ok wf
    end).

Definition replacePluginFC (related : ExternalResourceRelated) (pl : PluginFCItem)
    : result PluginFCItem :=
  rbind (parseID (pfc_PluginID pl)) (fun pluginID =>
  rbind (parseID (pfc_ApiId pl)) (fun toolID =>
    match PluginMap related !! pluginID with
    | Some refPlugin =>
        let apiId := match PluginToolMap related !! toolID with
                     | Some tID => FormatInt tID
                     | None => pfc_ApiId pl
                     end in
        match PluginVersion refPlugin with
        | Some v => Ok (mkPluginFCItem (FormatInt (PluginID refPlugin)) apiId v false)
        | None => Ok (mkPluginFCItem (FormatInt (PluginID refPlugin)) apiId
                        (pfc_PluginVersion pl) (pfc_IsDraft pl))
        end
    | None => Ok pl
    end)).

Definition replaceKnowledgeFC (related : ExternalResourceRelated) (kn : KnowledgeFCItem)
    : result KnowledgeFCItem :=
  rbind (parseID (kfc_ID kn)) (fun kid =>
    match KnowledgeMap related !! kid with
    | Some refKnowledgeID => Ok (mkKnowledgeFCItem (FormatInt refKnowledgeID))
    | None => Ok kn
    end).

(** len(m) > 0 *)
Definition nonEmpty {A} (m : gmap Z A) : bool := negb (bool_decide (m = ∅)).

(** The three loops over the function-call parameters of an LLM node. *)
Definition replaceFCParam (relatedWorkflows : gmap Z IDVersionPair)
    (related : ExternalResourceRelated) (fc : FCParam) : result FCParam :=
  rbind (match WorkflowFCParam fc with
         | Some l => if nonEmpty relatedWorkflows
                     then rbind (mapR (replaceWorkflowFC relatedWorkflows) l) (fun l' => Ok (Some l'))
                     else Ok (Some l)
         | None => Ok None
         end) (fun wl =>
  rbind (match PluginFCParam fc with
         | Some l => if nonEmpty (PluginMap related)
                     then rbind (mapR (replacePluginFC related) l) (fun l' => Ok (Some l'))
                     else Ok (Some l)
         | None => Ok None
         end) (fun pl =>
  rbind (match KnowledgeFCParam fc with
         | Some l => if nonEmpty (KnowledgeMap related)
                     then rbind (mapR (replaceKnowledgeFC related) l) (fun l' => Ok (Some l'))
                     else Ok (Some l)
         | None => Ok None
         end) (fun kl =>
  Ok (mkFCParam wl pl kl)))).

Definition withInputs (n : Node) (i : Inputs) (blocks : list Node) : Node :=
  mkNode (node_ID n) (node_Type n) (Some (mkData (Some i))) blocks.

Definition withBlocks (n : Node) (blocks : list Node) : Node :=
  mkNode (node_ID n) (node_Type n) (node_Data n) blocks.

(** The body of the loop for one node; [continue] leaves the Blocks of the
    node as they are. *)
Fixpoint replaceNode `{Reg : Registry} (relatedWorkflows : gmap Z IDVersionPair)
    (related : ExternalResourceRelated) (node : Node) : result Node :=
  let nType := IDStrToNodeType (node_Type node) in
  let meta := NodeMetaByNodeType nType in
  let blocks (n : Node) : result Node :=
    rbind (mapR (replaceNode relatedWorkflows related) (node_Blocks node)) (fun bs =>
      Ok (withBlocks n bs)) in
  if UseDatabase meta then
    if negb (nonEmpty (DatabaseMap related)) then Ok node
    else
      rbind (inputsOf node) (fun i =>
        match DatabaseNode i with
        | None => Ok node
        | Some dsList =>
            rbind (mapR (replaceDatabaseInfo related) dsList) (fun ds =>
              Ok (withInputs node
                    (mkInputs (SubWorkflow i) (LLM i) (Some ds) (Knowledge i) (PluginAPIParam i))
                    (node_Blocks node)))
        end)
  else if UseKnowledge meta then
    if negb (nonEmpty (KnowledgeMap related)) then Ok node
    else
      rbind (inputsOf node) (fun i =>
        match Knowledge i with
        | None => Ok node
        | Some datasetParam =>
            rbind (replaceDatasetParam related datasetParam) (fun ps =>
              Ok (withInputs node
                    (mkInputs (SubWorkflow i) (LLM i) (DatabaseNode i) (Some ps) (PluginAPIParam i))
                    (node_Blocks node)))
        end)
  else if UsePlugin meta then
    if negb (nonEmpty (PluginMap related)) then Ok node
    else
      rbind (inputsOf node) (fun i =>
        match PluginAPIParam i with
        | None => Ok node
        | Some apiParams =>
            rbind (replaceAPIParams related apiParams) (fun ps =>
              Ok (withInputs node
                    (mkInputs (SubWorkflow i) (LLM i) (DatabaseNode i) (Knowledge i) (Some ps))
                    (node_Blocks node)))
        end)
  else if decide (nType = NodeTypeSubWorkflow) then
    if negb (nonEmpty relatedWorkflows) then Ok node
    else
      rbind (inputsOf node) (fun i =>
        match SubWorkflow i with
        | None => Ok node
        | Some sw =>
            rbind (parseID (WorkflowID sw)) (fun workflowID =>
              match relatedWorkflows !! workflowID with
              | Some wf =>
                  blocks (withInputs node
                            (mkInputs (Some (mkSubWorkflowCfg (FormatInt (pair_ID wf)) (pair_Version wf)))
                               (LLM i) (DatabaseNode i) (Knowledge i) (PluginAPIParam i))
                            (node_Blocks node))
              | None => blocks node
              end)
        end)
  else if decide (nType = NodeTypeLLM) then
    rbind (inputsOf node) (fun i =>
      match LLM i with
      | None => Ok node
      | Some llm =>
          match llm_FCParam llm with
          | None => blocks node
          | Some fc =>
              rbind (replaceFCParam relatedWorkflows related fc) (fun fc' =>
                blocks (withInputs node
                          (mkInputs (SubWorkflow i) (Some (mkLLMCfg (Some fc')))
                             (DatabaseNode i) (Knowledge i) (PluginAPIParam i))
                          (node_Blocks node)))
          end
      end)
  else blocks node.

Definition replaceRelatedWorkflowOrExternalResourceInWorkflowNodes `{Reg : Registry}
    (nodes : list Node) (relatedWorkflows : gmap Z IDVersionPair)
    (related : ExternalResourceRelated) : result (list Node) :=
  mapR (replaceNode relatedWorkflows related) nodes.

Definition noRelated : ExternalResourceRelated :=
  mkExternalResourceRelated ∅ ∅ ∅ ∅.

(** ** Copying a workflow and what it references

    [copiedWorkflow] is the reference tree of [CopyWorkflowFromAppToLibrary]
    and [DuplicateWorkflowsByAppID].  [refWfs] is a Go map keyed by workflow
    ID; it is kept as the list of its values in insertion order, and a key is
    looked up by the [id] of the values.  Go ranges over a map in an
    unspecified order: the order of the list stands for it, and the
    properties of the walk over the tree are proved for every tree. *)
Inductive copiedWorkflow : Type := mkCopied {
  cw_id : Z;
  cw_draftInfo : DraftInfo;
  cw_refWfs : list copiedWorkflow
}.

(** _, ok = wf.refWfs[wfID] *)
Definition inRefWfs (wfID : Z) (refWfs : list copiedWorkflow) : bool :=
  existsb (fun c => bool_decide (cw_id c = wfID)) refWfs.

Definition orbind {A B} (m : option (result A)) (k : A -> option (result B))
    : option (result B) :=
  match m with
  | None => None
  | Some (Ok a) => k a
  | Some (Err e) => Some (Err e)
  | Some Panic => Some Panic
  end.

(** What the body of the loop does after a branch: go on with the rest of
    the body, or [continue] with the next node. *)
Inductive flow (A : Type) : Type :=
  | Through (a : A)
  | Continue (a : A).

Arguments Through {A} a.
Arguments Continue {A} a.

Section BuildReference.
Context `{Reg : Registry} {St : Type}.
Variable draftWorkflows : gmap Z DraftInfo.

(** The validation block of [validateAndBuildWorkflowReference], run when a
    referenced draft is met; [buildWorkflowReference] has none. *)
Variable verify : Z -> DraftInfo -> St -> result St.

(** The two closures [validateAndBuildWorkflowReference] and
    [buildWorkflowReference] share this body.  They recurse into the canvas of
    every referenced draft, which need not end when drafts refer to each other
    in a cycle: the recursion is bounded by [fuel], and [None] is the run that
    exhausts it. *)
Fixpoint buildReference (fuel : nat) (nodes : list Node)
    (refWfs : list copiedWorkflow) (st : St) {struct fuel}
    : option (result (list copiedWorkflow * St)) :=
  match fuel with
  | O => None
  | Datatypes.S fuel' =>
      (** A reference to [wfID]: skipped when it is no draft of the
          application or already a key of [refWfs]. *)
      let reference (wfID : Z) (refWfs : list copiedWorkflow) (st : St)
          : option (result (flow (list copiedWorkflow * St))) :=
        match draftWorkflows !! wfID with
        | None => Some (Ok (Continue (refWfs, st)))
        | Some v =>
            if inRefWfs wfID refWfs then Some (Ok (Continue (refWfs, st)))
            else
              orbind (Some (verify wfID v st)) (fun st1 =>
              orbind (Some (UnmarshalCanvas (draft_Canvas v))) (fun subCanvas =>
              orbind (buildReference fuel' (Nodes subCanvas) [] st1) (fun '(sub, st2) =>
                Some (Ok (Through (refWfs ++ [mkCopied wfID v sub], st2))))))
        end in
      let tools :=
        fix tools (l : list WorkflowFCItem) (refWfs : list copiedWorkflow) (st : St)
            : option (result (list copiedWorkflow * St)) :=
          match l with
          | [] => Some (Ok (refWfs, st))
          | w :: l' =>
              orbind (Some (parseID (wfc_WorkflowID w))) (fun wfID =>
              orbind (reference wfID refWfs st) (fun f =>
                match f with
                | Through (r, s) | Continue (r, s) => tools l' r s
                end))
          end in
      (fix loop (nodes : list Node) (refWfs : list copiedWorkflow) (st : St)
           : option (result (list copiedWorkflow * St)) :=
         match nodes with
         | [] => Some (Ok (refWfs, st))
         | node :: rest =>
             orbind
               (if decide (node_Type node = IDStr NodeTypeSubWorkflow) then
                  orbind (Some (subWorkflowOf node)) (fun sw =>
                  orbind (Some (parseID (WorkflowID sw))) (fun wfID =>
                    reference wfID refWfs st))
                else Some (Ok (Through (refWfs, st))))
               (fun f =>
                  match f with
                  | Continue (r, s) => loop rest r s
                  | Through (r, s) =>
                      orbind
                        (if decide (node_Type node = IDStr NodeTypeLLM) then
                           orbind (Some (inputsOf node)) (fun i =>
                             tools (workflowListOf i) r s)
                         else Some (Ok (r, s)))
                        (fun '(r1, s1) =>
                           orbind
                             (match node_Blocks node with
                              | [] => Some (Ok (r1, s1))
                              | blocks => buildReference fuel' blocks r1 s1
                              end)
                             (fun '(r2, s2) => loop rest r2 s2))
                  end)
         end) nodes refWfs st
  end.
End BuildReference.

(** The body of [buildReference], with the calls of the closure on itself
    as the parameter [rec]. *)
Section BuildStep.
Context `{Reg : Registry} {St : Type}.
Variable draftWorkflows : gmap Z DraftInfo.
Variable verify : Z -> DraftInfo -> St -> result St.
Variable rec : list Node -> list copiedWorkflow -> St
               -> option (result (list copiedWorkflow * St)).

Definition referenceStep (wfID : Z) (refWfs : list copiedWorkflow) (st : St)
    : option (result (flow (list copiedWorkflow * St))) :=
  match draftWorkflows !! wfID with
  | None => Some (Ok (Continue (refWfs, st)))
  | Some v =>
      if inRefWfs wfID refWfs then Some (Ok (Continue (refWfs, st)))
      else
        orbind (Some (verify wfID v st)) (fun st1 =>
        orbind (Some (UnmarshalCanvas (draft_Canvas v))) (fun subCanvas =>
        orbind (rec (Nodes subCanvas) [] st1) (fun '(sub, st2) =>
          Some (Ok (Through (refWfs ++ [mkCopied wfID v sub], st2))))))
  end.

Fixpoint toolsStep (l : list WorkflowFCItem) (refWfs : list copiedWorkflow) (st : St)
    : option (result (list copiedWorkflow * St)) :=
  match l with
  | [] => Some (Ok (refWfs, st))
  | w :: l' =>
      orbind (Some (parseID (wfc_WorkflowID w))) (fun wfID =>
      orbind (referenceStep wfID refWfs st) (fun f =>
        match f with
        | Through (r, s) | Continue (r, s) => toolsStep l' r s
        end))
  end.

Fixpoint nodesStep (nodes : list Node) (refWfs : list copiedWorkflow) (st : St)
    : option (result (list copiedWorkflow * St)) :=
  match nodes with
  | [] => Some (Ok (refWfs, st))
  | node :: rest =>
      orbind
        (if decide (node_Type node = IDStr NodeTypeSubWorkflow) then
           orbind (Some (subWorkflowOf node)) (fun sw =>
           orbind (Some (parseID (WorkflowID sw))) (fun wfID =>
             referenceStep wfID refWfs st))
         else Some (Ok (Through (refWfs, st))))
        (fun f =>
           match f with
           | Continue (r, s) => nodesStep rest r s
           | Through (r, s) =>
               orbind
                 (if decide (node_Type node = IDStr NodeTypeLLM) then
                    orbind (Some (inputsOf node)) (fun i =>
                      toolsStep (workflowListOf i) r s)
                  else Some (Ok (r, s)))
                 (fun '(r1, s1) =>
                    orbind
                      (match node_Blocks node with
                       | [] => Some (Ok (r1, s1))
                       | blocks => rec blocks r1 s1
                       end)
                      (fun '(r2, s2) => nodesStep rest r2 s2))
           end)
  end.
End BuildStep.

(** [buildWorkflowReference] of [DuplicateWorkflowsByAppID]. *)
Definition buildWorkflowReference `{Reg : Registry} (draftWorkflows : gmap Z DraftInfo)
    (fuel : nat) (nodes : list Node) (refWfs : list copiedWorkflow)
    : option (result (list copiedWorkflow)) :=
  orbind (buildReference draftWorkflows (fun _ _ (st : unit) => Ok st) fuel nodes refWfs tt)
         (fun '(r, _) => Some (Ok r)).

(** The state of [validateAndBuildWorkflowReference]: [vIssues] and
    [hasVerifiedWorkflowIDMap]. *)
Definition verifyState : Type := list ValidateIssue * gset Z.

Definition verifyDraft {S} `{Col : Collaborators S} (s : S) (appID : Z)
    (wid2Named : gmap Z string) (wfID : Z) (v : DraftInfo) (st : verifyState)
    : result verifyState :=
  let '(vIssues, hasVerified) := st in
  if decide (wfID ∈ hasVerified) then Ok st
  else
    match validateWorkflowTree (mkValidateTreeConfig (draft_Canvas v) (Some appID)) s with
    | Fail e => Err e
    | Reply issues =>
        Ok (match issues with
            | [] => vIssues
            | _ => vIssues ++ [toValidateIssue wfID (default "" (wid2Named !! wfID)) issues]
            end, {[wfID]} ∪ hasVerified)
    end.

(** [validateAndBuildWorkflowReference] of [CopyWorkflowFromAppToLibrary]. *)
Definition validateAndBuildWorkflowReference `{Reg : Registry} {S} `{Col : Collaborators S}
    (s : S) (appID : Z) (draftWorkflows : gmap Z DraftInfo) (wid2Named : gmap Z string)
    (fuel : nat) (nodes : list Node) (refWfs : list copiedWorkflow) (st : verifyState)
    : option (result (list copiedWorkflow * verifyState)) :=
  buildReference draftWorkflows (verifyDraft s appID wid2Named) fuel nodes refWfs st.

(** for _, x := range l { st, err = f(x, st); if err != nil { return err } } *)
Section FoldM.
Context {S A St : Type}.
Variable f : A -> St -> M S St.

Fixpoint foldM (l : list A) (st : St) : M S St :=
  match l with
  | [] => ret st
  | x :: l' => st' <- f x st ;; foldM l' st'
  end.
End FoldM.

Record CopyWorkflowFromAppToLibraryResult : Type := mkCopyResult {
  WorkflowIDVersionMap : gmap Z IDVersionPair;
  ValidateIssues : list ValidateIssue;
  CopiedWorkflows : list Workflow
}.

Definition workflowPublishVersion : string := "v0.0.1".

Section Copy.
Context `{Reg : Registry} {S : Type} `{Repo : Repository S} `{Col : Collaborators S}.

(** ctxutil.MustGetUIDFromCtx *)
Definition MustGetUIDFromCtx : M S Z :=
  match ctxUID with
  | Some uid => ret uid
  | None => panic
  end.

Definition validate (cfg : ValidateTreeConfig) : M S (list Issue) :=
  fun w => liftReply (validateWorkflowTree cfg (store w)) w.

(** impl.CopyWorkflow *)
Definition CopyWorkflow (workflowID : Z) (policy : CopyWorkflowPolicy) : M S Workflow :=
  wf <- call (CallCopyWorkflow workflowID policy) (repo_CopyWorkflow workflowID policy) ;;
  if decide (wf_Mode wf = WorkflowMode_ChatFlow) then
    fun w =>
      let '((role, err, isExist), s') := repo_GetChatFlowRoleConfig workflowID "" (store w) in
      let w' := mkWorld s' (calls w ++ [CallGetChatFlowRoleConfig workflowID ""]) in
      if negb isExist then (Err (ErrMsg "get draft chat flow role nil"), w')
      else
        match err, role with
        | Some e, _ => (Err e, w')
        | None, None => (Panic, w')
        | None, Some role =>
            let created :=
              {| role_Name := role_Name role; role_Description := role_Description role;
                 role_WorkflowID := wf_ID wf; role_CreatorID := wf_CreatorID wf;
                 role_Config := role_Config role; role_Version := "" |} in
            (call (CallCreateChatFlowRoleConfig created)
                  (repo_CreateChatFlowRoleConfig created) ;;;
             ret wf) w'
        end
  else ret wf.

(** The closure variables [hasPublishedWorkflows] and
    [copiedWorkflowArray]. *)
Definition copyState : Type := gmap Z IDVersionPair * list Workflow.

(** The body of [copyAndPublishWorkflowProcess] after the loop over
    [refWfs]. *)
Definition copyAndPublishOne (related : ExternalResourceRelated) (wf : copiedWorkflow)
    (st : copyState) : M S copyState :=
  let '(hasPublishedWorkflows, copiedWorkflowArray) := st in
  match hasPublishedWorkflows !! cw_id wf with
  | Some _ => ret st
  | None =>
      canvas <- lift (UnmarshalCanvas (draft_Canvas (cw_draftInfo wf))) ;;
      nodes <- lift (replaceRelatedWorkflowOrExternalResourceInWorkflowNodes
                       (Nodes canvas) hasPublishedWorkflows related) ;;
      let modifiedCanvasString := MarshalCanvas (mkCanvas nodes) in
      cwf <- CopyWorkflow (cw_id wf)
               {| TargetAppID := Some 0; ModifiedCanvasSchema := Some modifiedCanvasString |} ;;
      wfRefs <- lift (canvasToRefs (wf_ID cwf) modifiedCanvasString) ;;
      uid <- MustGetUIDFromCtx ;;
      CreateVersion (wf_ID cwf)
        {| Version := workflowPublishVersion; VersionDescription := "";
           VersionCreatorID := uid;
           ver_Canvas := modifiedCanvasString;
           ver_InputParamsStr := draft_InputParamsStr (cw_draftInfo wf);
           ver_OutputParamsStr := draft_OutputParamsStr (cw_draftInfo wf);
           ver_CommitID := wf_CommitID cwf |}
        wfRefs ;;;
      ret (<[cw_id wf := mkIDVersionPair (wf_ID cwf) workflowPublishVersion]> hasPublishedWorkflows,
           copiedWorkflowArray ++ [cwf])
  end.

Fixpoint copyAndPublishWorkflowProcess (related : ExternalResourceRelated)
    (wf : copiedWorkflow) (st : copyState) : M S copyState :=
  st' <- foldM (copyAndPublishWorkflowProcess related) (cw_refWfs wf) st ;;
  copyAndPublishOne related wf st'.

(** The body of [duplicateWorkflow] after the loop over [refWfs]. *)
Definition duplicateOne (targetAppID : Z) (related : ExternalResourceRelated)
    (wf : copiedWorkflow) (st : copyState) : M S copyState :=
  let '(hasCopiedWorkflows, copiedWorkflowArray) := st in
  match hasCopiedWorkflows !! cw_id wf with
  | Some _ => ret st
  | None =>
      canvas <- lift (UnmarshalCanvas (draft_Canvas (cw_draftInfo wf))) ;;
      nodes <- lift (replaceRelatedWorkflowOrExternalResourceInWorkflowNodes
                       (Nodes canvas) hasCopiedWorkflows related) ;;
      let modifiedCanvasString := MarshalCanvas (mkCanvas nodes) in
      cwf <- CopyWorkflow (cw_id wf)
               {| TargetAppID := Some targetAppID;
                  ModifiedCanvasSchema := Some modifiedCanvasString |} ;;
      ret (<[cw_id wf := mkIDVersionPair (wf_ID cwf) ""]> hasCopiedWorkflows,
           copiedWorkflowArray ++ [cwf])
  end.

Fixpoint duplicateWorkflow (targetAppID : Z) (related : ExternalResourceRelated)
    (wf : copiedWorkflow) (st : copyState) : M S copyState :=
  st' <- foldM (duplicateWorkflow targetAppID related) (cw_refWfs wf) st ;;
  duplicateOne targetAppID related wf st'.

(** A run that may exhaust its fuel. *)
Definition bounded (A : Type) : Type := World S -> option (result A * World S).

Definition CopyWorkflowFromAppToLibrary (fuel : nat) (workflowID appID : Z)
    (related : ExternalResourceRelated) : bounded CopyWorkflowFromAppToLibraryResult :=
  fun w =>
    match (draftVersion <- DraftV2 workflowID "" ;;
           issues <- validate (mkValidateTreeConfig (draft_Canvas draftVersion) (Some appID)) ;;
           drafts <- GetDraftWorkflowsByAppID appID ;;
           ret (draftVersion, issues, drafts)) w with
    | (Ok (draftVersion, issues, (draftWorkflows, wid2Named)), w1) =>
        let vIssues :=
          match issues with
          | [] => []
          | _ => [toValidateIssue workflowID (default "" (wid2Named !! workflowID)) issues]
          end in
        match UnmarshalCanvas (draft_Canvas draftVersion) with
        | Ok draftCanvas =>
            match validateAndBuildWorkflowReference (store w1) appID draftWorkflows wid2Named
                    fuel (Nodes draftCanvas) [] (vIssues, ∅) with
            | None => None
            | Some (Ok (refWfs, (vIssues', _))) =>
                match vIssues' with
                | _ :: _ => Some (Ok (mkCopyResult ∅ vIssues' []), w1)
                | [] =>
                    Some ((st <- copyAndPublishWorkflowProcess related
                                   (mkCopied workflowID draftVersion refWfs) (∅, []) ;;
                           ret (mkCopyResult (fst st) [] (snd st))) w1)
                end
            | Some (Err e) => Some (Err e, w1)
            | Some Panic => Some (Panic, w1)
            end
        | Err e => Some (Err e, w1)
        | Panic => Some (Panic, w1)
        end
    | (Err e, w1) => Some (Err e, w1)
    | (Panic, w1) => Some (Panic, w1)
    end.

(** [duplicateWorkflowProcess], and the loop of [DuplicateWorkflowsByAppID]
    over [draftWorkflows] in the order of [todo]. *)
Definition duplicateWorkflowProcess (fuel : nat) (draftWorkflows : gmap Z DraftInfo)
    (targetAppID : Z) (related : ExternalResourceRelated)
    (workflowID : Z) (draftVersion : DraftInfo) (st : copyState)
    : World S -> option (result copyState * World S) :=
  fun w =>
    match UnmarshalCanvas (draft_Canvas draftVersion) with
    | Ok draftCanvas =>
        match buildWorkflowReference draftWorkflows fuel (Nodes draftCanvas) [] with
        | None => None
        | Some (Ok refWfs) =>
            Some (duplicateWorkflow targetAppID related
                    (mkCopied workflowID draftVersion refWfs) st w)
        | Some (Err e) => Some (Err e, w)
        | Some Panic => Some (Panic, w)
        end
    | Err e => Some (Err e, w)
    | Panic => Some (Panic, w)
    end.

Fixpoint duplicateAll (fuel : nat) (draftWorkflows : gmap Z DraftInfo)
    (targetAppID : Z) (related : ExternalResourceRelated)
    (todo : list (Z * DraftInfo)) (st : copyState)
    : World S -> option (result copyState * World S) :=
  fun w =>
    match todo with
    | [] => Some (Ok st, w)
    | (workflowID, draftVersion) :: rest =>
        match fst st !! workflowID with
        | Some _ => duplicateAll fuel draftWorkflows targetAppID related rest st w
        | None =>
            match duplicateWorkflowProcess fuel draftWorkflows targetAppID related
                    workflowID draftVersion st w with
            | None => None
            | Some (Ok st', w') =>
                duplicateAll fuel draftWorkflows targetAppID related rest st' w'
            | Some (Err e, w') => Some (Err e, w')
            | Some (Panic, w') => Some (Panic, w')
            end
        end
    end.

Definition DuplicateWorkflowsByAppID (fuel : nat) (sourceAppID targetAppID : Z)
    (related : ExternalResourceRelated) : bounded (list Workflow) :=
  fun w =>
    match GetDraftWorkflowsByAppID sourceAppID w with
    | (Ok (draftWorkflows, _), w1) =>
        match duplicateAll fuel draftWorkflows targetAppID related
                (map_to_list draftWorkflows) (∅, []) w1 with
        | None => None
        | Some (Ok st, w2) =>
            Some ((call (CallCopyTemplateConversationByAppID sourceAppID targetAppID)
                        (repo_CopyTemplateConversationByAppID sourceAppID targetAppID) ;;;
                   ret (snd st)) w2)
        | Some (Err e, w2) => Some (Err e, w2)
        | Some (Panic, w2) => Some (Panic, w2)
        end
    | (Err e, w1) => Some (Err e, w1)
    | (Panic, w1) => Some (Panic, w1)
    end.
End Copy.

(** ** Releasing the workflows of an application *)

Record ReleaseWorkflowConfig : Type := mkReleaseWorkflowConfig {
  rc_Version : string;
  rc_PluginIDs : list Z;
  rc_ConnectorIDs : list Z;
  rc_WorkflowIDs : list Z
}.

Record PublishRolePolicy : Type := mkPublishRolePolicy {
  prp_WorkflowID : Z;
  prp_CreatorID : Z;
  prp_Version : string
}.

Section Release.
Context `{Reg : Registry} {S : Type} `{Repo : Repository S} `{Col : Collaborators S}.

(** impl.MGet with QType FromDraft *)
Definition MGetDrafts (policy : MGetPolicy) : M S (list Workflow) :=
  call (CallMGetDrafts policy) (repo_MGetDrafts policy).

Definition PublishChatFlowRole (policy : PublishRolePolicy) : M S unit :=
  if bool_decide (prp_WorkflowID policy = 0) || bool_decide (prp_CreatorID policy = 0)
     || bool_decide (prp_Version policy = "")
  then fail (ErrMsg "invalid publish role policy")
  else
    wf <- GetEntity (mkGetPolicy (prp_WorkflowID policy) FromDraft "" true) ;;
    if negb (bool_decide (wf_Mode wf = WorkflowMode_ChatFlow))
    then fail (ErrMsg "workflow is not a chatflow")
    else
      fun w =>
        let '((role, err, isExist), s') :=
          repo_GetChatFlowRoleConfig (prp_WorkflowID policy) "" (store w) in
        let w' := mkWorld s' (calls w ++ [CallGetChatFlowRoleConfig (prp_WorkflowID policy) ""]) in
        if negb isExist then (Err (ErrMsg "get draft chat flow role nil"), w')
        else
          match err, role with
          | Some e, _ => (Err e, w')
          | None, None => (Panic, w')
          | None, Some role =>
              let created :=
                {| role_Name := role_Name role; role_Description := role_Description role;
                   role_WorkflowID := prp_WorkflowID policy;
                   role_CreatorID := prp_CreatorID policy;
                   role_Config := role_Config role; role_Version := prp_Version policy |} in
              (call (CallCreateChatFlowRoleConfig created)
                    (repo_CreateChatFlowRoleConfig created) ;;;
               ret tt) w'
          end.

Definition allInApp (appID : Z) : MGetPolicy := mkMGetPolicy (Some appID) [] FromDraft.

Definition selectedInApp (appID : Z) (ids : list Z) : MGetPolicy :=
  mkMGetPolicy (Some appID) ids FromDraft.

(** [willPublishWorkflows]: every workflow of the application, or the
    selected ones; the error of the second [MGet] is not looked at, and a
    failed [MGet] is taken to return no workflow. *)
Definition selectWorkflows (appID : Z) (config : ReleaseWorkflowConfig)
    (allWorkflowsInApp : list Workflow) : M S (list Workflow) :=
  match rc_WorkflowIDs config with
  | [] => ret allWorkflowsInApp
  | ids =>
      fun w =>
        let '(r, s') := repo_MGetDrafts (selectedInApp appID ids) (store w) in
        (Ok (match r with Reply l => l | Fail _ => [] end),
         mkWorld s' (calls w ++ [CallMGetDrafts (selectedInApp appID ids)]))
  end.

(** The first loop: validate every workflow and collect the issues. *)
Definition validateOne (appID : Z) (wf : Workflow) (vIssues : list ValidateIssue)
    : M S (list ValidateIssue) :=
  issues <- validate (mkValidateTreeConfig (wf_Canvas wf) (Some appID)) ;;
  ret (match issues with
       | [] => vIssues
       | _ => vIssues ++ [toValidateIssue (wf_ID wf) (wf_Name wf) issues]
       end).

Definition withCanvas (wf : Workflow) (c : CanvasDoc) : Workflow :=
  {| wf_ID := wf_ID wf; wf_Name := wf_Name wf; wf_AppID := wf_AppID wf;
     wf_CreatorID := wf_CreatorID wf; wf_Mode := wf_Mode wf; wf_Canvas := c;
     wf_InputParams := wf_InputParams wf; wf_OutputParams := wf_OutputParams wf;
     wf_CommitID := wf_CommitID wf |}.

(** The second loop: point every reference at the released version. *)
Definition releaseCanvas (relatedWorkflow : gmap Z IDVersionPair)
    (relatedPlugins : gmap Z PluginEntity) (wf : Workflow) : result Workflow :=
  rbind (UnmarshalCanvas (wf_Canvas wf)) (fun c =>
  rbind (replaceRelatedWorkflowOrExternalResourceInWorkflowNodes (Nodes c) relatedWorkflow
           (mkExternalResourceRelated relatedPlugins ∅ ∅ ∅)) (fun nodes =>
  Ok (withCanvas wf (MarshalCanvas (mkCanvas nodes))))).

(** The loop over [workflowsToPublish]. *)
Definition publishOne (version : string) (entry : Z * VersionInfo) (workflowIDs : list Z)
    : M S (list Z) :=
  let '(id, vInfo) := entry in
  existed <- GetVersion id version ;;
  match existed with
  | Some _ => ret workflowIDs
  | None =>
      wfRefs <- lift (canvasToRefs id (ver_Canvas vInfo)) ;;
      CreateVersion id vInfo wfRefs ;;;
      ret (workflowIDs ++ [id])
  end.

Definition ReleaseApplicationWorkflows (appID : Z) (config : ReleaseWorkflowConfig)
    : M S (list ValidateIssue) :=
  match rc_ConnectorIDs config with
  | [] => fail (ErrMsg "connector ids is required")
  | _ =>
      allWorkflowsInApp <- MGetDrafts (allInApp appID) ;;
      let relatedPlugins : gmap Z PluginEntity :=
        list_to_map (map (fun id => (id, mkPluginEntity id (Some (rc_Version config))))
                         (rev (rc_PluginIDs config))) in
      let relatedWorkflow : gmap Z IDVersionPair :=
        list_to_map (map (fun wf => (wf_ID wf, mkIDVersionPair (wf_ID wf) (rc_Version config)))
                         (rev allWorkflowsInApp)) in
      willPublishWorkflows <- selectWorkflows appID config allWorkflowsInApp ;;
      vIssues <- foldM (validateOne appID) willPublishWorkflows [] ;;
      match vIssues with
      | _ :: _ => ret vIssues
      | [] =>
          rewritten <- lift (mapR (releaseCanvas relatedWorkflow relatedPlugins)
                                  willPublishWorkflows) ;;
          userID <- MustGetUIDFromCtx ;;
          let workflowsToPublish : gmap Z VersionInfo :=
            list_to_map
              (map (fun wf =>
                      (wf_ID wf,
                       {| Version := rc_Version config; VersionDescription := "";
                          VersionCreatorID := userID;
                          ver_Canvas := wf_Canvas wf;
                          ver_InputParamsStr := wf_InputParams wf;
                          ver_OutputParamsStr := wf_OutputParams wf;
                          ver_CommitID := wf_CommitID wf |}))
                   (rev rewritten)) in
          workflowIDs <- foldM (publishOne (rc_Version config))
                               (map_to_list workflowsToPublish) [] ;;
          call (CallReleaseConversationTemplate appID (rc_Version config))
               (ReleaseConversationTemplate appID (rc_Version config)) ;;;
          forEach (fun wf =>
                     if bool_decide (wf_Mode wf = WorkflowMode_ChatFlow)
                     then PublishChatFlowRole
                            (mkPublishRolePolicy (wf_ID wf) (wf_CreatorID wf) (rc_Version config))
                     else ret tt) rewritten ;;;
          forEach (fun connectorID =>
                     call (CallBatchCreateConnectorWorkflowVersion appID connectorID
                             workflowIDs (rc_Version config))
                          (repo_BatchCreateConnectorWorkflowVersion appID connectorID
                             workflowIDs (rc_Version config)))
                  (rc_ConnectorIDs config) ;;;
          ret []
      end
  end.

(** The issue list the design describes: one entry per validated workflow
    that has issues, in the order of validation. *)
Definition collectedIssues (appID : Z) (s : S) (wfs : list Workflow) : list ValidateIssue :=
  omap (fun wf =>
          match validateWorkflowTree (mkValidateTreeConfig (wf_Canvas wf) (Some appID)) s with
          | Reply (i :: issues) => Some (toValidateIssue (wf_ID wf) (wf_Name wf) (i :: issues))
          | _ => None
          end) wfs.

(** The error of the first validation call that fails, in the order of
    validation. *)
Definition firstValidationError (appID : Z) (s : S) (wfs : list Workflow) : option error :=
  head (omap (fun wf =>
                match validateWorkflowTree (mkValidateTreeConfig (wf_Canvas wf) (Some appID)) s with
                | Fail e => Some e
                | Reply _ => None
                end) wfs).
End Release.

(** What the release reads before it validates: the drafts of the
    application and, when workflows are selected, the selected drafts. *)
Definition releaseReads (appID : Z) (config : ReleaseWorkflowConfig) : list Call :=
  CallMGetDrafts (allInApp appID)
  :: match rc_WorkflowIDs config with
     | [] => []
     | ids => [CallMGetDrafts (selectedInApp appID ids)]
     end.

(** ** GetWorkflowDependenceResource *)

Record DependenceResource : Type := mkDependenceResource {
  PluginIDs : list Z;
  KnowledgeIDs : list Z;
  DatabaseIDs : list Z
}.

(** Runs that may exhaust their fuel, over any store. *)
Definition B (S A : Type) : Type := World S -> option (result A * World S).

Definition bret {S A} (a : A) : B S A := fun w => Some (Ok a, w).

Definition bbind {S A C} (m : B S A) (k : A -> B S C) : B S C :=
  fun w =>
    match m w with
    | None => None
    | Some (Ok a, w') => k a w'
    | Some (Err e, w') => Some (Err e, w')
    | Some (Panic, w') => Some (Panic, w')
    end.

Definition bounded_of {S A} (m : M S A) : B S A := fun w => Some (m w).

(** The database branch of [collectDependence]. *)
Definition collectDatabase (node : Node) (ds : DependenceResource) : result DependenceResource :=
  rbind (inputsOf node) (fun i =>
    match DatabaseNode i with
    | None => Panic
    | Some [] => Err (ErrMsg "database info is requird")
    | Some dsList =>
        rbind (mapR (fun d => parseID (DatabaseInfoID d)) dsList) (fun ids =>
          Ok (mkDependenceResource (PluginIDs ds) (KnowledgeIDs ds) (DatabaseIDs ds ++ ids)))
    end).

(** The knowledge branch. *)
Definition collectKnowledge (node : Node) (ds : DependenceResource) : result DependenceResource :=
  rbind (inputsOf node) (fun i =>
    match Knowledge i with
    | Some (datasetListInfoParam :: _) =>
        match param_Content datasetListInfoParam with
        | CList datasetIDs =>
            rbind (mapR (fun id => rbind (asString id) parseID) datasetIDs) (fun ids =>
              Ok (mkDependenceResource (PluginIDs ds) (KnowledgeIDs ds ++ ids) (DatabaseIDs ds)))
        | _ => Panic
        end
    | _ => Panic
    end).

(** The plugin branch: only version "0", the plug-in of the application. *)
Definition collectPlugin (node : Node) (ds : DependenceResource) : result DependenceResource :=
  rbind (inputsOf node) (fun i =>
    match PluginAPIParam i with
    | None => Panic
    | Some apiParams =>
        match lookupParam "pluginID" apiParams with
        | None => Err (ErrMsg "plugin id param is not found")
        | Some pluginIDParam =>
            rbind (asString (param_Content pluginIDParam)) (fun s =>
            rbind (parseID s) (fun pID =>
              match lookupParam "pluginVersion" apiParams with
              | None => Err (ErrMsg "plugin version param is not found")
              | Some pluginVersionParam =>
                  rbind (asString (param_Content pluginVersionParam)) (fun pVersion =>
                    if decide (pVersion = "0")
                    then Ok (mkDependenceResource (PluginIDs ds ++ [pID]) (KnowledgeIDs ds)
                               (DatabaseIDs ds))
                    else Ok ds)
              end))
        end
    end).

(** The plugin and knowledge lists of an LLM node. *)
Definition collectLLMLists (i : Inputs) (ds : DependenceResource) : result DependenceResource :=
  match LLM i with
  | None => Ok ds
  | Some llm =>
      match llm_FCParam llm with
      | None => Ok ds
      | Some fc =>
          rbind (match PluginFCParam fc with
                 | Some l =>
                     mapR (fun pl => parseID (pfc_PluginID pl)) (List.filter pfc_IsDraft l)
                 | None => Ok []
                 end) (fun pids =>
          rbind (match KnowledgeFCParam fc with
                 | Some l => mapR (fun kn => parseID (kfc_ID kn)) l
                 | None => Ok []
                 end) (fun kids =>
          Ok (mkDependenceResource (PluginIDs ds ++ pids) (KnowledgeIDs ds ++ kids)
                (DatabaseIDs ds))))
      end
  end.

Section Dependence.
Context `{Reg : Registry} {S : Type} `{Repo : Repository S}.

Definition draftPolicy (id : Z) : GetPolicy := mkGetPolicy id FromDraft "" false.

(** [collectDependence]: it follows references into other drafts without
    remembering where it has been, so the recursion is bounded by [fuel]. *)
Fixpoint collectDependence (fuel : nat) (nodes : list Node) (ds : DependenceResource)
    {struct fuel} : B S DependenceResource :=
  match fuel with
  | O => fun _ => None
  | Datatypes.S fuel' =>
      (** the canvas of draft [id], then its nodes *)
      let follow (id : Z) (ds : DependenceResource) : B S DependenceResource :=
        bbind (bounded_of (GetEntity (draftPolicy id))) (fun wfe =>
        bbind (bounded_of (lift (UnmarshalCanvas (wf_Canvas wfe)))) (fun canvas =>
          collectDependence fuel' (Nodes canvas) ds)) in
      let tools :=
        fix tools (l : list WorkflowFCItem) (ds : DependenceResource) : B S DependenceResource :=
          match l with
          | [] => bret ds
          | w :: l' =>
              if wfc_IsDraft w then
                bbind (bounded_of (lift (parseID (wfc_WorkflowID w)))) (fun wID =>
                bbind (follow wID ds) (tools l'))
              else tools l' ds
          end in
      (fix loop (nodes : list Node) (ds : DependenceResource) : B S DependenceResource :=
         match nodes with
         | [] => bret ds
         | node :: rest =>
             let nType := IDStrToNodeType (node_Type node) in
             let meta := NodeMetaByNodeType nType in
             if UseDatabase meta then
               bbind (bounded_of (lift (collectDatabase node ds))) (loop rest)
             else if UseKnowledge meta then
               bbind (bounded_of (lift (collectKnowledge node ds))) (loop rest)
             else
               bbind (if UsePlugin meta
                      then bounded_of (lift (collectPlugin node ds))
                      else bret ds) (fun ds1 =>
               bbind (if decide (nType = NodeTypeLLM) then
                        bbind (bounded_of (lift (inputsOf node))) (fun i =>
                        bbind (bounded_of (lift (collectLLMLists i ds1))) (fun ds2 =>
                          tools (workflowListOf i) ds2))
                      else if decide (nType = NodeTypeSubWorkflow) then
                        bbind (bounded_of (lift (subWorkflowOf node))) (fun sw =>
                          if decide (WorkflowVersion sw = "") then
                            bbind (bounded_of (lift (parseID (WorkflowID sw)))) (fun wfID =>
                              follow wfID ds1)
                          else bret ds1)
                      else bret ds1) (loop rest))
         end) nodes ds
  end.

Definition GetWorkflowDependenceResource (fuel : nat) (workflowID : Z)
    : B S DependenceResource :=
  bbind (bounded_of (GetEntity (draftPolicy workflowID))) (fun wf =>
  bbind (bounded_of (lift (UnmarshalCanvas (wf_Canvas wf)))) (fun canvas =>
    collectDependence fuel (Nodes canvas) (mkDependenceResource [] [] []))).
End Dependence.

(** ** ValidateTree and the recursive node check *)

(** Two helpers whose code is outside the sources at hand: [cast.ToInt64]
    on a string, and the version of a workflow entity. *)
Class Helpers : Type := {
  ToInt64 : string -> Z;
  entityVersion : Workflow -> string
}.

Record workflowIdentity : Type := mkWorkflowIdentity {
  wi_ID : string;
  wi_Version : string
}.

Record ValidateTreeInfo : Type := mkValidateTreeInfo {
  vti_WorkflowID : string;
  vti_Name : string;
  vti_Errors : list Issue
}.

(** [collectSubWorkFlowEntities]: every sub-workflow node, at any depth of
    Blocks, in document order. *)
Fixpoint identitiesOfNode `{Reg : Registry} (n : Node) (acc : list workflowIdentity)
    : result (list workflowIdentity) :=
  rbind (if decide (node_Type n = IDStr NodeTypeSubWorkflow)
         then rbind (subWorkflowOf n) (fun sw =>
                Ok (acc ++ [mkWorkflowIdentity (WorkflowID sw) (WorkflowVersion sw)]))
         else Ok acc)
        (foldR identitiesOfNode (node_Blocks n)).

Definition getAllSubWorkflowIdentities `{Reg : Registry} (c : Canvas)
    : result (list workflowIdentity) :=
  foldR identitiesOfNode (Nodes c) [].

Inductive CheckType : Type := CheckType_BotAgent | CheckType_Other.

Record CheckResult : Type := mkCheckResult {
  IsPass : bool;
  Reason : option error;
  cr_Type : CheckType
}.

Definition checkBotAgentNode `{Reg : Registry} (node : Node) : option error :=
  if bool_decide (node_Type node = IDStr NodeTypeCreateConversation)
     || bool_decide (node_Type node = IDStr NodeTypeConversationDelete)
     || bool_decide (node_Type node = IDStr NodeTypeConversationUpdate)
     || bool_decide (node_Type node = IDStr NodeTypeConversationList)
  then Some (ErrMsg "conversation-related nodes are not supported in chatflow")
  else None.

(** fmt.Sprintf("%d:%s", workflowID, version) *)
Definition visitedKey (workflowID : Z) (version : string) : string :=
  FormatInt workflowID +:+ ":" +:+ version.

Definition entityPolicy (workflowID : Z) (version : string) : GetPolicy :=
  mkGetPolicy workflowID
    (if decide (version = "") then FromDraft else FromSpecificVersion) version false.

Section Validate.
Context `{Reg : Registry} {S : Type} `{Repo : Repository S} `{Col : Collaborators S}
        `{Hlp : Helpers}.

(** impl.ValidateTree *)
Definition ValidateTree (id : Z) (validateConfig : ValidateTreeConfig)
    : M S (list ValidateTreeInfo) :=
  issues <- validate validateConfig ;;
  let wfValidateInfos :=
    match issues with
    | [] => []
    | _ => [mkValidateTreeInfo (FormatInt id) "" issues]
    end in
  c <- lift (UnmarshalCanvas (CanvasSchema validateConfig)) ;;
  subWorkflowIdentities <- lift (getAllSubWorkflowIdentities c) ;;
  match subWorkflowIdentities with
  | [] => ret wfValidateInfos
  | _ =>
      let ids := map (fun e => ToInt64 (wi_ID e))
                     (List.filter (fun e => bool_decide (wi_Version e = ""))
                                  subWorkflowIdentities) in
      match ids with
      | [] => ret wfValidateInfos
      | _ =>
          workflows <- MGetDrafts (mkMGetPolicy None ids FromDraft) ;;
          foldM (fun wf infos =>
                   issues <- validate (mkValidateTreeConfig (wf_Canvas wf) (wf_AppID wf)) ;;
                   ret (match issues with
                        | [] => infos
                        | _ => infos ++ [mkValidateTreeInfo (FormatInt (wf_ID wf))
                                           (wf_Name wf) issues]
                        end))
                workflows wfValidateInfos
      end
  end.

(** One reference met by [validateNodesRecursively]: skipped ([Continue])
    when its key is in [visited] or when the entity is not found (the key is
    then taken out of [visited] again); otherwise the nodes of its canvas are
    to be queued and the key stays in [visited]. *)
Definition visitReference (workflowID : Z) (version : string) (visited : gset string)
    : M S (flow (list Node * gset string)) :=
  let visitedKey := visitedKey workflowID version in
  if decide (visitedKey ∈ visited) then ret (Continue ([], visited))
  else
    fun w =>
      let policy := entityPolicy workflowID version in
      let '(r, s') := repo_GetEntity policy (store w) in
      let w' := mkWorld s' (calls w ++ [CallGetEntity policy]) in
      match r with
      | Fail e =>
          if decide (e = ErrRecordNotFound)
          then (Ok (Continue ([], ({[visitedKey]} ∪ visited) ∖ {[visitedKey]})), w')
          else (Err e, w')
      | Reply subWfEntity =>
          match UnmarshalCanvas (wf_Canvas subWfEntity) with
          | Ok canvas => (Ok (Through (Nodes canvas, {[visitedKey]} ∪ visited)), w')
          | Err e => (Err e, w')
          | Panic => (Panic, w')
          end
      end.

(** The loop over the workflows-as-tools of an LLM node. *)
Fixpoint visitTools (l : list WorkflowFCItem) (queue : list Node) (visited : gset string)
    : M S (list Node * gset string) :=
  match l with
  | [] => ret (queue, visited)
  | subWfInfo :: l' =>
      if decide (wfc_WorkflowID subWfInfo = "") then visitTools l' queue visited
      else
        workflowID <- lift (parseID (wfc_WorkflowID subWfInfo)) ;;
        f <- visitReference workflowID (wfc_WorkflowVersion subWfInfo) visited ;;
        match f with
        | Continue (_, visited') => visitTools l' queue visited'
        | Through (nodes, visited') => visitTools l' (queue ++ nodes) visited'
        end
  end.

(** node.Data != nil && node.Data.Inputs != nil *)
Definition presentInputs (node : Node) : option Inputs :=
  match node_Data node with
  | Some d => data_Inputs d
  | None => None
  end.

(** One turn of the loop of [validateNodesRecursively] after the node has
    been taken off the queue. *)
Definition visitNode (checkType : CheckType) (node : Node) (queue : list Node)
    (visited : gset string) : M S (list Node * gset string) :=
  match (match checkType with
         | CheckType_BotAgent => checkBotAgentNode node
         | CheckType_Other => None
         end) with
  | Some checkErr => fail checkErr
  | None =>
      let queue := queue ++ node_Blocks node in
      f <- match presentInputs node with
           | Some i =>
               if decide (node_Type node = IDStr NodeTypeSubWorkflow) then
                 match SubWorkflow i with
                 | None => panic
                 | Some sw =>
                     if decide (WorkflowID sw = "") then ret (Continue (queue, visited))
                     else
                       workflowID <- lift (parseID (WorkflowID sw)) ;;
                       f <- visitReference workflowID (WorkflowVersion sw) visited ;;
                       match f with
                       | Continue (_, visited') => ret (Continue (queue, visited'))
                       | Through (nodes, visited') => ret (Through (queue ++ nodes, visited'))
                       end
                 end
               else ret (Through (queue, visited))
           | None => ret (Through (queue, visited))
           end ;;
      match f with
      | Continue qv => ret qv
      | Through (queue, visited) =>
          match presentInputs node with
          | Some i =>
              if decide (node_Type node = IDStr NodeTypeLLM)
              then visitTools (workflowListOf i) queue visited
              else ret (queue, visited)
          | None => ret (queue, visited)
          end
      end
  end.

(** [validateNodesRecursively]: the queue is worked off until it is empty;
    [fuel] bounds the number of turns, and the final [visited] is returned
    with the nil error. *)
Fixpoint validateQueue (fuel : nat) (checkType : CheckType) (queue : list Node)
    (visited : gset string) : B S (gset string) :=
  match fuel with
  | O => fun _ => None
  | Datatypes.S fuel' =>
      match queue with
      | [] => bret visited
      | node :: queue' =>
          bbind (bounded_of (visitNode checkType node queue' visited)) (fun '(q, v) =>
            validateQueue fuel' checkType q v)
      end
  end.

Definition validateNodesRecursively (fuel : nat) (nodes : list Node) (checkType : CheckType)
    (visited : gset string) : B S (gset string) :=
  validateQueue fuel checkType nodes visited.

(** impl.WorkflowSchemaCheck *)
Fixpoint schemaChecks (fuel : nat) (wf : Workflow) (canvas : Canvas) (checks : list CheckType)
    : B S (list CheckResult) :=
  match checks with
  | [] => bret []
  | checkType :: rest =>
      fun w =>
        let visited : gset string := {[ visitedKey (wf_ID wf) (entityVersion wf) ]} in
        match validateNodesRecursively fuel (Nodes canvas) checkType visited w with
        | None => None
        | Some (Panic, w') => Some (Panic, w')
        | Some (r, w') =>
            let checkResult :=
              match r with
              | Err e => mkCheckResult false (Some e) checkType
              | _ => mkCheckResult true None checkType
              end in
            bbind (schemaChecks fuel wf canvas rest) (fun results =>
              bret (checkResult :: results)) w'
        end
  end.

Definition WorkflowSchemaCheck (fuel : nat) (wf : Workflow) (checks : list CheckType)
    : B S (list CheckResult) :=
  bbind (bounded_of (lift (UnmarshalCanvas (wf_Canvas wf)))) (fun canvas =>
    schemaChecks fuel wf canvas checks).
End Validate.

Definition exampleHelpers : Helpers :=
  {| ToInt64 := fun s => default 0 (ParseInt s);
     entityVersion := fun _ => "" |}.

(** All nodes of a list, nested ones included. *)
Definition sizeNodes (l : list Node) : nat := length (allNodes l).

(** The keys of the [GetEntity] calls of a log that the store [s] answers
    with an entity. *)
Definition fetchedKeys {S} `{Repo : Repository S} (s : S) (l : list Call) : list string :=
  omap (fun c =>
          match c with
          | CallGetEntity p =>
              if replied (fst (repo_GetEntity p s))
              then Some (visitedKey (gp_ID p) (gp_Version p))
              else None
          | _ => None
          end) l.

(** The weight of the keys of [universe] that are not in [visited]. *)
Definition pendingWeight (universe : list string) (weight : string -> nat)
    (visited : gset string) : nat :=
  list_sum (map weight (List.filter (fun k => bool_decide (k ∉ visited)) universe)).

(** ** Reading the log *)

(** [logs m Q]: from every world, [m] appends some calls [new] to the log
    and ends with a result [r] such that [Q r new]. *)
Definition logs {S A} (m : M S A) (Q : result A -> list Call -> Prop) : Prop :=
  forall w, exists new, calls (snd (m w)) = calls w ++ new /\ Q (fst (m w)) new.

(** The walk shared by [copyAndPublishWorkflowProcess] and
    [duplicateWorkflow]: the referenced workflows first, then the workflow
    itself. *)
Section Materialise.
Context {S : Type}.
Variable step : copiedWorkflow -> copyState -> M S copyState.

Fixpoint materialise (wf : copiedWorkflow) (st : copyState) : M S copyState :=
  st' <- foldM materialise (cw_refWfs wf) st ;;
  step wf st'.
End Materialise.

(** Induction over a reference tree. *)
Section CopiedInd.
Variable P : copiedWorkflow -> Prop.
Hypothesis Hnode : forall id d refs, Forall P refs -> P (mkCopied id d refs).

Fixpoint copiedWorkflow_ind' (wf : copiedWorkflow) : P wf :=
  match wf with
  | mkCopied id d refs =>
      Hnode id d refs
        ((fix go (l : list copiedWorkflow) : Forall P l :=
            match l with
            | [] => Forall_nil_2 P
            | c :: l' => Forall_cons_2 P c l' (copiedWorkflow_ind' c) (go l')
            end) refs)
  end.
End CopiedInd.

(** The IDs of a reference tree. *)
Fixpoint treeIDs (wf : copiedWorkflow) : list Z :=
  cw_id wf :: (fix go (l : list copiedWorkflow) : list Z :=
                 match l with
                 | [] => []
                 | c :: l' => treeIDs c ++ go l'
                 end) (cw_refWfs wf).

(** ** What the design says of the materialised closure *)

(** A reference of a canvas to a workflow: the sub-workflow configuration
    of a sub-workflow node, or an entry of the workflows-as-tools list of an
    LLM node, with the ID of the node that holds it. *)
Inductive reference : Type :=
  | SubWorkflowReference (node : string) (cfg : SubWorkflowCfg)
  | ToolReference (node : string) (item : WorkflowFCItem).

Definition referencesOf `{Reg : Registry} (n : Node) : list reference :=
  if decide (node_Type n = IDStr NodeTypeSubWorkflow) then
    match subWorkflowOf n with
    | Ok sw => [SubWorkflowReference (node_ID n) sw]
    | _ => []
    end
  else if decide (node_Type n = IDStr NodeTypeLLM) then
    match inputsOf n with
    | Ok i => map (ToolReference (node_ID n)) (workflowListOf i)
    | _ => []
    end
  else [].

(** The references of the nodes of a canvas, at any depth of Blocks, in
    document order. *)
Definition references `{Reg : Registry} (nodes : list Node) : list reference :=
  concat (map referencesOf (allNodes nodes)).

Definition referredID (r : reference) : option Z :=
  match r with
  | SubWorkflowReference _ sw => ParseInt (WorkflowID sw)
  | ToolReference _ w => ParseInt (wfc_WorkflowID w)
  end.

(** The reference pointed at the copy [p]. *)
Definition retarget (p : IDVersionPair) (r : reference) : reference :=
  match r with
  | SubWorkflowReference n _ =>
      SubWorkflowReference n (mkSubWorkflowCfg (FormatInt (pair_ID p)) (pair_Version p))
  | ToolReference n w =>
      ToolReference n (mkWorkflowFCItem (FormatInt (pair_ID p)) (pair_Version p) (wfc_IsDraft w))
  end.

(** A reference to a workflow of the memo becomes a reference to its copy;
    any other reference stays as it is. *)
Definition redirect (m : gmap Z IDVersionPair) (r : reference) : reference :=
  match referredID r with
  | Some x =>
      match m !! x with
      | Some p => retarget p r
      | None => r
      end
  | None => r
  end.

(** A node whose type has none of the capability flags. *)
Definition noCapability `{Reg : Registry} (n : Node) : bool :=
  let meta := NodeMetaByNodeType (IDStrToNodeType (node_Type n)) in
  negb (UseDatabase meta) && negb (UseKnowledge meta) && negb (UsePlugin meta).

(** Blocks belong to container nodes: capability nodes, sub-workflow nodes
    and LLM nodes have none. *)
Definition containerOnly `{Reg : Registry} (n : Node) : bool :=
  (noCapability n
   && negb (bool_decide (IDStrToNodeType (node_Type n) = NodeTypeSubWorkflow))
   && negb (bool_decide (IDStrToNodeType (node_Type n) = NodeTypeLLM)))
  || bool_decide (node_Blocks n = []).

Definition containerBlocks `{Reg : Registry} (nodes : list Node) : bool :=
  forallb containerOnly (allNodes nodes).

(** The registry reads the tags of sub-workflow and LLM nodes back as these
    types, and neither type has a capability flag. *)
Definition referenceTags `{Reg : Registry} : Prop :=
  (forall s, IDStrToNodeType s = NodeTypeSubWorkflow <-> s = IDStr NodeTypeSubWorkflow)
  /\ (forall s, IDStrToNodeType s = NodeTypeLLM <-> s = IDStr NodeTypeLLM)
  /\ NodeMetaByNodeType NodeTypeSubWorkflow = mkNodeTypeMeta false false false
  /\ NodeMetaByNodeType NodeTypeLLM = mkNodeTypeMeta false false false.

(** The [CopyWorkflow] calls of a log, in order: the workflow copied and
    the policy of the copy. *)
Definition copies (l : list Call) : list (Z * CopyWorkflowPolicy) :=
  omap (fun c => match c with CallCopyWorkflow id p => Some (id, p) | _ => None end) l.

(** The [CreateVersion] calls of a log, in order: the workflow, the version
    and the canvas published. *)
Definition published (l : list Call) : list (Z * string * CanvasDoc) :=
  omap (fun c => match c with
                 | CallCreateVersion id info _ => Some (id, Version info, ver_Canvas info)
                 | _ => None
                 end) l.

(** The canvas of a draft, when it decodes, has Blocks under container
    nodes only. *)
Definition canvasShape `{Reg : Registry} (d : DraftInfo) : bool :=
  match UnmarshalCanvas (draft_Canvas d) with
  | Ok canvas => containerBlocks (Nodes canvas)
  | _ => true
  end.

(** So has every draft of the application. *)
Definition draftsShape `{Reg : Registry} (drafts : gmap Z DraftInfo) : bool :=
  forallb (fun xd => canvasShape xd.2) (map_to_list drafts).

Section Materialised.
Context `{Reg : Registry}.

(** The drafts of the application, and the workflow the copy starts from
    when it is given with a draft of its own. *)
Variable drafts : gmap Z DraftInfo.
Variable root : option (Z * DraftInfo).

(** The version the memo records for a copy, and the application the
    copies go to. *)
Variable version : string.
Variable target : Z.

Definition draftOf (x : Z) (d : DraftInfo) : Prop :=
  drafts !! x = Some d \/ root = Some (x, d).

(** One copy made with the memo [m]: the workflow is not in the memo,
    every draft of the application its canvas refers to is, and the canvas
    handed to [CopyWorkflow] is the canvas of its draft with every reference
    redirected by the memo. *)
Definition materialised (m : gmap Z IDVersionPair) (c : Z * CopyWorkflowPolicy) : Prop :=
  m !! c.1 = None
  /\ exists d canvas nodes,
       draftOf c.1 d
       /\ UnmarshalCanvas (draft_Canvas d) = Ok canvas
       /\ (forall r y, r ∈ references (Nodes canvas) -> referredID r = Some y ->
             is_Some (drafts !! y) -> is_Some (m !! y))
       /\ c.2 = {| TargetAppID := Some target;
                   ModifiedCanvasSchema := Some (MarshalCanvas (mkCanvas nodes)) |}
       /\ references nodes = map (redirect m) (references (Nodes canvas)).

(** The copies [cs], which returned the workflows [ws], were made one
    after the other from the memo [m], each recorded in the memo under the
    ID of the workflow returned before the next is made. *)
Fixpoint materialisedInOrder (m : gmap Z IDVersionPair)
    (cs : list (Z * CopyWorkflowPolicy)) (ws : list Workflow) : Prop :=
  match cs, ws with
  | [], [] => True
  | c :: cs', cwf :: ws' =>
      materialised m c
      /\ materialisedInOrder (<[c.1 := mkIDVersionPair (wf_ID cwf) version]> m) cs' ws'
  | _, _ => False
  end.

Fixpoint memoAfter (m : gmap Z IDVersionPair)
    (cs : list (Z * CopyWorkflowPolicy)) (ws : list Workflow) : gmap Z IDVersionPair :=
  match cs, ws with
  | c :: cs', cwf :: ws' =>
      memoAfter (<[c.1 := mkIDVersionPair (wf_ID cwf) version]> m) cs' ws'
  | _, _ => m
  end.

(** One version per copy, under the ID of the copy, with the canvas the
    copy was made with. *)
Definition publishedBy (cs : list (Z * CopyWorkflowPolicy)) (ws : list Workflow)
    : list (Z * string * CanvasDoc) :=
  zip_with (fun c cwf => (wf_ID cwf, version, default (BadJSON "") (ModifiedCanvasSchema c.2)))
           cs ws.


(** Every draft of the application the canvas of [d] refers to is among
    [ids]. *)
Definition referencesWithin (d : DraftInfo) (ids : list Z) : Prop :=
  forall canvas, UnmarshalCanvas (draft_Canvas d) = Ok canvas ->
    forall r y, r ∈ references (Nodes canvas) -> referredID r = Some y ->
      is_Some (drafts !! y) -> y ∈ ids.

(** A reference tree of the application: every workflow of the tree comes
    with its draft, and has the drafts its canvas refers to as children. *)
Fixpoint closureTree (wf : copiedWorkflow) : Prop :=
  draftOf (cw_id wf) (cw_draftInfo wf)
  /\ canvasShape (cw_draftInfo wf) = true
  /\ referencesWithin (cw_draftInfo wf) (map cw_id (cw_refWfs wf))
  /\ (fix go (l : list copiedWorkflow) : Prop :=
        match l with
        | [] => True
        | c :: l' => closureTree c /\ go l'
        end) (cw_refWfs wf).
End Materialised.

(** What a run of [CopyWorkflowFromAppToLibrary] from the workflow
    [workflowID], whose draft is [draftVersion], leaves in the log and
    returns, [drafts] being the drafts of the application: no workflow is
    copied twice and no more versions are created than copies made; a run
    that returns no issue has made its copies in order from the empty memo,
    returns the memo these copies give and the workflows copied, has copied
    the workflow itself, and has published each copy once, under its new ID,
    with the canvas it was copied with. *)
Definition copiedToLibrary `{Reg : Registry} (drafts : gmap Z DraftInfo) (workflowID : Z)
    (draftVersion : DraftInfo) (r : result CopyWorkflowFromAppToLibraryResult)
    (new : list Call) : Prop :=
  NoDup (copies new).*1
  /\ (length (published new) <= length (copies new))%nat
  /\ forall res, r = Ok res -> ValidateIssues res = [] ->
       materialisedInOrder drafts (Some (workflowID, draftVersion)) workflowPublishVersion 0
         ∅ (copies new) (CopiedWorkflows res)
       /\ WorkflowIDVersionMap res
          = memoAfter workflowPublishVersion ∅ (copies new) (CopiedWorkflows res)
       /\ is_Some (WorkflowIDVersionMap res !! workflowID)
       /\ published new
          = publishedBy workflowPublishVersion (copies new) (CopiedWorkflows res).

(** What a run of [DuplicateWorkflowsByAppID] leaves in the log and
    returns: no workflow is copied twice; a run that succeeds has made its
    copies in order from the empty memo, every draft of the application
    exactly once, returns the workflows copied, and has published
    nothing. *)
Definition duplicatedToApp `{Reg : Registry} (drafts : gmap Z DraftInfo) (target : Z)
    (r : result (list Workflow)) (new : list Call) : Prop :=
  NoDup (copies new).*1
  /\ (length (published new) <= length (copies new))%nat
  /\ forall copied, r = Ok copied ->
       materialisedInOrder drafts None "" target ∅ (copies new) copied
       /\ (copies new).*1 ≡ₚ (map_to_list drafts).*1
       /\ published new = [].

(** What a reference points at: a workflow ID and a version. *)
Definition referenceTarget (r : reference) : string * string :=
  match r with
  | SubWorkflowReference _ sw => (WorkflowID sw, WorkflowVersion sw)
  | ToolReference _ w => (wfc_WorkflowID w, wfc_WorkflowVersion w)
  end.

(** What one step of the walk must do: nothing when the workflow is in the
    memo; otherwise at most one [CopyWorkflow] call, for this workflow, no
    more [CreateVersion] calls than copies, and on success one copy of the
    canvas of the draft rewritten with the memo, recorded in the memo under
    the ID of the workflow [CopyWorkflow] returned, and published when the
    step publishes. *)
Definition stepSpec `{Reg : Registry} {S} (version : string) (target : Z) (publish : bool)
    (related : ExternalResourceRelated)
    (step : copiedWorkflow -> copyState -> M S copyState) : Prop :=
  forall wf m arr,
    logs (step wf (m, arr)) (fun r new =>
      match m !! cw_id wf with
      | Some _ => new = [] /\ r = Ok (m, arr)
      | None =>
          (length (published new) <= length (copies new))%nat
          /\ (copies new = [] \/ exists p, copies new = [(cw_id wf, p)])
          /\ forall st', r = Ok st' ->
               exists canvas nodes cwf,
                 UnmarshalCanvas (draft_Canvas (cw_draftInfo wf)) = Ok canvas
                 /\ replaceRelatedWorkflowOrExternalResourceInWorkflowNodes
                      (Nodes canvas) m related = Ok nodes
                 /\ copies new
                    = [(cw_id wf,
                        {| TargetAppID := Some target;
                           ModifiedCanvasSchema := Some (MarshalCanvas (mkCanvas nodes)) |})]
                 /\ published new
                    = (if publish
                       then [(wf_ID cwf, version, MarshalCanvas (mkCanvas nodes))]
                       else [])
                 /\ st' = (<[cw_id wf := mkIDVersionPair (wf_ID cwf) version]> m, arr ++ [cwf])
      end).

(** What a walk over workflows with IDs [ids] does from the memo [m] and
    the array [arr]. *)
Definition walkInv `{Reg : Registry} (drafts : gmap Z DraftInfo) (root : option (Z * DraftInfo))
    (version : string) (target : Z) (publish : bool)
    (m : gmap Z IDVersionPair) (arr : list Workflow) (ids : list Z)
    (r : result copyState) (new : list Call) : Prop :=
  NoDup (copies new).*1
  /\ (forall x, x ∈ (copies new).*1 -> m !! x = None)
  /\ (length (published new) <= length (copies new))%nat
  /\ forall st', r = Ok st' ->
       exists cwfs,
         st' = (memoAfter version m (copies new) cwfs, arr ++ cwfs)
         /\ materialisedInOrder drafts root version target m (copies new) cwfs
         /\ (forall x, x ∈ ids -> is_Some (st'.1 !! x))
         /\ published new = (if publish then publishedBy version (copies new) cwfs else []).

(** ** Concrete collaborators, to run the service on given inputs *)

(** A registry with the tags of the node types used in the examples. *)
Definition exampleIDStr (t : NodeType) : string :=
  match t with
  | NodeTypeEntry => "1"
  | NodeTypeExit => "2"
  | NodeTypeLLM => "3"
  | NodeTypeSubWorkflow => "9"
  | NodeTypeQuestionAnswer => "18"
  | NodeTypeLambda => "lambda"
  | NodeTypeCreateConversation => "39"
  | NodeTypeConversationUpdate => "51"
  | NodeTypeConversationDelete => "52"
  | NodeTypeConversationList => "53"
  | NodeTypeOther key => key
  end.

Definition exampleIDStrToNodeType (s : string) : NodeType :=
  if decide (s = "1") then NodeTypeEntry
  else if decide (s = "2") then NodeTypeExit
  else if decide (s = "3") then NodeTypeLLM
  else if decide (s = "9") then NodeTypeSubWorkflow
  else if decide (s = "18") then NodeTypeQuestionAnswer
  else if decide (s = "lambda") then NodeTypeLambda
  else if decide (s = "39") then NodeTypeCreateConversation
  else if decide (s = "51") then NodeTypeConversationUpdate
  else if decide (s = "52") then NodeTypeConversationDelete
  else if decide (s = "53") then NodeTypeConversationList
  else NodeTypeOther s.

(** Tag "4" is the plugin node, "6" a knowledge node, "12" a database
    node, "21" a loop (a container without capabilities). *)
Definition exampleNodeMeta (t : NodeType) : NodeTypeMeta :=
  match t with
  | NodeTypeOther key =>
      mkNodeTypeMeta (bool_decide (key = "12")) (bool_decide (key = "6"))
                     (bool_decide (key = "4"))
  | _ => mkNodeTypeMeta false false false
  end.

Definition exampleRegistry : Registry :=
  {| IDStr := exampleIDStr;
     IDStrToNodeType := exampleIDStrToNodeType;
     NodeMetaByNodeType := exampleNodeMeta |}.

(** Modelled from the spec: the repository implementation (package [repo])
    is outside the sources at hand.  This in-memory store follows section 3
    of the design: a workflow has a meta record and one draft that every save
    overwrites; a version is created once at publish time together with the
    reference edges of its canvas; IDs come from a counter. *)
Record MemStore : Type := mkMemStore {
  mem_metas : gmap Z Meta;
  mem_drafts : gmap Z DraftInfo;
  mem_versions : list (Z * VersionInfo);
  mem_refs : gset WorkflowReferenceKey;
  mem_roles : list ChatFlowRole;
  mem_connectors : list (Z * Z * list Z * string);
  mem_nextID : Z
}.

Definition memWorkflow (id : Z) (m : Meta) (d : DraftInfo) : Workflow :=
  {| wf_ID := id; wf_Name := meta_Name m; wf_AppID := meta_AppID m;
     wf_CreatorID := meta_CreatorID m; wf_Mode := meta_Mode m;
     wf_Canvas := draft_Canvas d;
     wf_InputParams := draft_InputParamsStr d;
     wf_OutputParams := draft_OutputParamsStr d;
     wf_CommitID := draft_CommitID d |}.

Definition memDraftEntities (s : MemStore) : list Workflow :=
  omap (fun '(id, d) =>
          match mem_metas s !! id with
          | Some m => Some (memWorkflow id m d)
          | None => None
          end) (map_to_list (mem_drafts s)).

Definition memSetLatest (v : string) (m : Meta) : Meta :=
  {| meta_Name := meta_Name m; meta_AppID := meta_AppID m;
     meta_CreatorID := meta_CreatorID m; meta_Mode := meta_Mode m;
     LatestPublishedVersion := Some v |}.

Definition memRepository : Repository MemStore :=
  {| repo_GetMeta := fun id s =>
       (match mem_metas s !! id with
        | Some m => Reply m
        | None => Fail ErrRecordNotFound
        end, s);
     repo_DraftV2 := fun id _ s =>
       (match mem_drafts s !! id with
        | Some d => Reply d
        | None => Fail ErrRecordNotFound
        end, s);
     repo_CreateVersion := fun id info refs s =>
       (Reply tt,
        {| mem_metas := alter (memSetLatest (Version info)) id (mem_metas s);
           mem_drafts := mem_drafts s;
           mem_versions := mem_versions s ++ [(id, info)];
           mem_refs := refs ∪ mem_refs s;
           mem_roles := mem_roles s;
           mem_connectors := mem_connectors s;
           mem_nextID := mem_nextID s |});
     repo_CreateOrUpdateDraft := fun id d s =>
       (Reply tt,
        {| mem_metas := mem_metas s;
           mem_drafts := <[id := d]> (mem_drafts s);
           mem_versions := mem_versions s;
           mem_refs := mem_refs s;
           mem_roles := mem_roles s;
           mem_connectors := mem_connectors s;
           mem_nextID := mem_nextID s |});
     repo_GetVersion := fun id v s =>
       (Reply (snd <$> List.find (fun '(i, info) => bool_decide (i = id /\ Version info = v))
                                (mem_versions s)), s);
     repo_GetEntity := fun policy s =>
       (match mem_metas s !! gp_ID policy, mem_drafts s !! gp_ID policy with
        | Some m, Some d => Reply (memWorkflow (gp_ID policy) m d)
        | _, _ => Fail ErrRecordNotFound
        end, s);
     repo_MGetDrafts := fun policy s =>
       (Reply (List.filter
                 (fun wf =>
                    match mq_AppID policy with
                    | Some a => bool_decide (wf_AppID wf = Some a)
                    | None => true
                    end
                    && match mq_IDs policy with
                       | [] => true
                       | ids => bool_decide (wf_ID wf ∈ ids)
                       end)
                 (memDraftEntities s)), s);
     repo_CopyWorkflow := fun id policy s =>
       match mem_metas s !! id, mem_drafts s !! id with
       | Some m, Some d =>
           let newID := mem_nextID s in
           let m' := {| meta_Name := meta_Name m; meta_AppID := TargetAppID policy;
                        meta_CreatorID := meta_CreatorID m; meta_Mode := meta_Mode m;
                        LatestPublishedVersion := None |} in
           let d' := {| TestRunSuccess := TestRunSuccess d; Modified := Modified d;
                        draft_Canvas := default (draft_Canvas d) (ModifiedCanvasSchema policy);
                        draft_InputParamsStr := draft_InputParamsStr d;
                        draft_OutputParamsStr := draft_OutputParamsStr d;
                        draft_CommitID := draft_CommitID d |} in
           (Reply (memWorkflow newID m' d'),
            {| mem_metas := <[newID := m']> (mem_metas s);
               mem_drafts := <[newID := d']> (mem_drafts s);
               mem_versions := mem_versions s;
               mem_refs := mem_refs s;
               mem_roles := mem_roles s;
               mem_connectors := mem_connectors s;
               mem_nextID := newID + 1 |})
       | _, _ => (Fail ErrRecordNotFound, s)
       end;
     repo_GetDraftWorkflowsByAppID := fun appID s =>
       let wfs := List.filter (fun wf => bool_decide (wf_AppID wf = Some appID))
                              (memDraftEntities s) in
       (Reply (list_to_map (omap (fun wf => pair (wf_ID wf) <$> (mem_drafts s !! wf_ID wf)) wfs),
               list_to_map (map (fun wf => (wf_ID wf, wf_Name wf)) wfs)), s);
     repo_GetChatFlowRoleConfig := fun id v s =>
       (match List.find (fun r => bool_decide (role_WorkflowID r = id /\ role_Version r = v))
                        (mem_roles s) with
        | Some r => (Some r, None, true)
        | None => (None, None, false)
        end, s);
     repo_CreateChatFlowRoleConfig := fun r s =>
       (Reply (mem_nextID s),
        {| mem_metas := mem_metas s;
           mem_drafts := mem_drafts s;
           mem_versions := mem_versions s;
           mem_refs := mem_refs s;
           mem_roles := mem_roles s ++ [r];
           mem_connectors := mem_connectors s;
           mem_nextID := mem_nextID s + 1 |});
     repo_BatchCreateConnectorWorkflowVersion := fun appID connectorID ids v s =>
       (Reply tt,
        {| mem_metas := mem_metas s;
           mem_drafts := mem_drafts s;
           mem_versions := mem_versions s;
           mem_refs := mem_refs s;
           mem_roles := mem_roles s;
           mem_connectors := mem_connectors s ++ [(appID, connectorID, ids, v)];
           mem_nextID := mem_nextID s |});
     repo_CopyTemplateConversationByAppID := fun _ _ s => (Reply tt, s);
     repo_GenID := fun s =>
       (Reply (mem_nextID s),
        {| mem_metas := mem_metas s;
           mem_drafts := mem_drafts s;
           mem_versions := mem_versions s;
           mem_refs := mem_refs s;
           mem_roles := mem_roles s;
           mem_connectors := mem_connectors s;
           mem_nextID := mem_nextID s + 1 |}) |}.

(** Modelled from the spec: [parseVersion] and [isIncremental] are outside
    the sources at hand.  Section 6 asks that a version string parse into a
    strictly comparable tuple and section 8 compares such tuples
    lexicographically; here a version is "v" followed by three decimal
    numbers separated by dots. *)
Fixpoint splitDots (cur : string) (s : string) : list string :=
  match s with
  | EmptyString => [cur]
  | String c r =>
      if Ascii.eqb c "."%char then cur :: splitDots "" r
      else splitDots (cur +:+ String c "") r
  end.

Definition parseNat (s : string) : option Z :=
  match s with
  | EmptyString => None
  | _ => digits_val 0 s
  end.

Definition exampleParseVersion (s : string) : reply (Z * Z * Z) :=
  match s with
  | String "v"%char r =>
      match splitDots "" r with
      | [a; b; c] =>
          match parseNat a, parseNat b, parseNat c with
          | Some x, Some y, Some z => Reply (x, y, z)
          | _, _, _ => Fail (ErrSyntax s)
          end
      | _ => Fail (ErrSyntax s)
      end
  | _ => Fail (ErrSyntax s)
  end.

Definition exampleIsIncremental (prev next : Z * Z * Z) : bool :=
  let '(a, b, c) := prev in
  let '(x, y, z) := next in
  (a <? x) || ((a =? x) && ((b <? y) || ((b =? y) && (c <? z)))).

(** Stand-ins for the compiler and the validator: a canvas compiles when it
    has a node, to the list of its node IDs and types; the validator reports
    every top-level node without a type. *)
Definition exampleCompile (c : Canvas) : reply (list (string * string)) :=
  match Nodes c with
  | [] => Fail (ErrMsg "empty canvas")
  | ns => Reply (map (fun n => (node_ID n, node_Type n)) ns)
  end.

Definition exampleValidate (cfg : ValidateTreeConfig) (s : MemStore) : reply (list Issue) :=
  match CanvasSchema cfg with
  | BadJSON _ => Fail ErrSerializationDeserializationFail
  | Doc c =>
      Reply (omap (fun n => if decide (node_Type n = "")
                            then Some ("node " +:+ node_ID n +:+ " has no type")
                            else None) (Nodes c))
  end.

Definition exampleCollaborators : Collaborators MemStore :=
  {| version := Z * Z * Z;
     parseVersion := exampleParseVersion;
     isIncremental := exampleIsIncremental;
     WorkflowSchema := list (string * string);
     CanvasToWorkflowSchema := exampleCompile;
     IsEqual := fun a b => bool_decide (a = b);
     validateWorkflowTree := exampleValidate;
     ctxUID := Some 1001;
     ReleaseConversationTemplate := fun _ _ s => (Reply tt, s) |}.

Definition emptyStore : MemStore :=
  {| mem_metas := ∅; mem_drafts := ∅; mem_versions := []; mem_refs := ∅;
     mem_roles := []; mem_connectors := []; mem_nextID := 9000 |}.

(** A node of the given type with sub-workflow inputs. *)
Definition subWorkflowNode (id wfID wfVersion : string) : Node :=
  mkNode id "9"
    (Some (mkData (Some (mkInputs (Some (mkSubWorkflowCfg wfID wfVersion)) None None None None))))
    [].

Definition plainNode (id ty : string) (blocks : list Node) : Node :=
  mkNode id ty (Some (mkData (Some (mkInputs None None None None None)))) blocks.

Definition llmNode (id : string) (tools : list WorkflowFCItem) : Node :=
  mkNode id "3"
    (Some (mkData (Some (mkInputs None
       (Some (mkLLMCfg (Some (mkFCParam (Some tools) None None)))) None None None))))
    [].

(** A store with workflow 1, published as v0.0.2, whose draft has passed
    its test run, and workflow 2, never published, whose draft has not. *)
Definition exampleMeta (name : string) (latest : option string) : Meta :=
  {| meta_Name := name; meta_AppID := Some 50; meta_CreatorID := 1001;
     meta_Mode := WorkflowMode_Workflow; LatestPublishedVersion := latest |}.

Definition exampleDraft (ok : bool) (c : CanvasDoc) : DraftInfo :=
  {| TestRunSuccess := ok; Modified := true; draft_Canvas := c;
     draft_InputParamsStr := "[]"; draft_OutputParamsStr := "[]";
     draft_CommitID := "c1" |}.

Definition exampleCanvas : Canvas :=
  mkCanvas [ plainNode "100001" "1" []; plainNode "900001" "2" [] ].

Definition publishStore : MemStore :=
  {| mem_metas := {[ 1 := exampleMeta "one" (Some "v0.0.2");
                     2 := exampleMeta "two" None ]};
     mem_drafts := {[ 1 := exampleDraft true (Doc exampleCanvas);
                      2 := exampleDraft false (Doc exampleCanvas) ]};
     mem_versions := []; mem_refs := ∅; mem_roles := []; mem_connectors := [];
     mem_nextID := 9000 |}.

Definition examplePolicy (id : Z) (v : string) (force : bool) : PublishPolicy :=
  {| pp_ID := id; pp_Version := v; pp_VersionDescription := ""; pp_CreatorID := 1001;
     pp_CommitID := ""; pp_Force := force |}.

(** Application 50 holds three drafts: workflow 10 calls workflow 20 from
    two sub-workflow nodes (one inside a loop) and lists it as a tool of an
    LLM node; workflow 20 calls workflow 30; workflow 30 calls nothing. *)
Definition copyStore : MemStore :=
  {| mem_metas := {[ 10 := exampleMeta "root" None;
                     20 := exampleMeta "shared" None;
                     30 := exampleMeta "leaf" None ]};
     mem_drafts :=
       {[ 10 := exampleDraft true
                  (Doc (mkCanvas [ plainNode "100001" "1" [];
                                   subWorkflowNode "a" "20" "";
                                   plainNode "loop" "21" [ subWorkflowNode "b" "20" "" ];
                                   llmNode "l" [ mkWorkflowFCItem "20" "" true ];
                                   plainNode "900001" "2" [] ]));
          20 := exampleDraft true
                  (Doc (mkCanvas [ plainNode "100001" "1" [];
                                   subWorkflowNode "c" "30" "";
                                   plainNode "900001" "2" [] ]));
          30 := exampleDraft true (Doc exampleCanvas) ]};
     mem_versions := []; mem_refs := ∅; mem_roles := []; mem_connectors := [];
     mem_nextID := 9000 |}.

(** Application 50 with two drafts: workflow 10 calls workflow 20 from a
    sub-workflow node at top level and from a sub-workflow node in the Blocks
    of a plugin node; workflow 20 calls nothing. *)
Definition nestedStore : MemStore :=
  {| mem_metas := {[ 10 := exampleMeta "root" None; 20 := exampleMeta "shared" None ]};
     mem_drafts :=
       {[ 10 := exampleDraft true
                  (Doc (mkCanvas [ plainNode "100001" "1" [];
                                   subWorkflowNode "a" "20" "";
                                   plainNode "p" "4" [ subWorkflowNode "b" "20" "" ];
                                   plainNode "900001" "2" [] ]));
          20 := exampleDraft true (Doc exampleCanvas) ]};
     mem_versions := []; mem_refs := ∅; mem_roles := []; mem_connectors := [];
     mem_nextID := 9000 |}.

(** Application 50 with a draft that has an untyped node and a draft whose
    canvas does not decode; application 51 with the first draft and a sound
    one. *)
Definition appMeta (name : string) (app : Z) : Meta :=
  {| meta_Name := name; meta_AppID := Some app; meta_CreatorID := 1001;
     meta_Mode := WorkflowMode_Workflow; LatestPublishedVersion := None |}.

Definition releaseStore : MemStore :=
  {| mem_metas := {[ 1 := appMeta "broken" 50; 2 := appMeta "untyped" 50;
                     3 := appMeta "untyped" 51; 4 := appMeta "sound" 51 ]};
     mem_drafts :=
       {[ 1 := exampleDraft true (BadJSON "{");
          2 := exampleDraft true (Doc (mkCanvas [ plainNode "n1" "" [] ]));
          3 := exampleDraft true (Doc (mkCanvas [ plainNode "n1" "" [] ]));
          4 := exampleDraft true (Doc exampleCanvas) ]};
     mem_versions := []; mem_refs := ∅; mem_roles := []; mem_connectors := [];
     mem_nextID := 9000 |}.

Definition releaseConfig : ReleaseWorkflowConfig :=
  {| rc_Version := "v1.0.0"; rc_PluginIDs := []; rc_ConnectorIDs := [1024];
     rc_WorkflowIDs := [] |}.

(** A plugin node of the application (version "0") for plug-in 7, and two
    drafts of application 50 that use it: workflow 70 at the top level of its
    canvas, workflow 71 inside the Blocks of a loop. *)
Definition pluginNode (id pluginID pluginVersion apiID : string) : Node :=
  mkNode id "4"
    (Some (mkData (Some (mkInputs None None None None
       (Some [ mkParam "apiID" (CString apiID);
               mkParam "pluginID" (CString pluginID);
               mkParam "pluginVersion" (CString pluginVersion) ])))))
    [].

Definition dependenceStore : MemStore :=
  {| mem_metas := {[ 70 := appMeta "flat" 50; 71 := appMeta "nested" 50;
                     72 := appMeta "caller" 50 ]};
     mem_drafts :=
       {[ 70 := exampleDraft true
                  (Doc (mkCanvas [ plainNode "100001" "1" [];
                                   pluginNode "p" "7" "0" "77";
                                   plainNode "900001" "2" [] ]));
          71 := exampleDraft true
                  (Doc (mkCanvas [ plainNode "100001" "1" [];
                                   plainNode "loop" "21" [ pluginNode "p" "7" "0" "77" ];
                                   plainNode "900001" "2" [] ]));
          72 := exampleDraft true
                  (Doc (mkCanvas [ plainNode "100001" "1" [];
                                   subWorkflowNode "s" "70" "";
                                   llmNode "l" [ mkWorkflowFCItem "70" "" true ];
                                   plainNode "900001" "2" [] ])) ]};
     mem_versions := []; mem_refs := ∅; mem_roles := []; mem_connectors := [];
     mem_nextID := 9000 |}.

(* ================================================================== *)
(** ** What the design says of the validated closure *)


(** The entries [ValidateTree] adds for the workflows the repository
    returns: one per workflow with issues, under its ID and name. *)
Definition treeEntries {S} `{Col : Collaborators S} (s : S) (workflows : list Workflow)
    : list ValidateTreeInfo :=
  omap (fun wf =>
          match validateWorkflowTree (mkValidateTreeConfig (wf_Canvas wf) (wf_AppID wf)) s with
          | Reply (i :: issues) =>
              Some (mkValidateTreeInfo (FormatInt (wf_ID wf)) (wf_Name wf) (i :: issues))
          | _ => None
          end) workflows.

(** The IDs [ValidateTree] asks the repository for: those of the
    sub-workflow nodes without a version. *)
Definition draftReferences `{Hlp : Helpers} (subs : list workflowIdentity) : list Z :=
  map (fun e => ToInt64 (wi_ID e))
      (List.filter (fun e => bool_decide (wi_Version e = "")) subs).

(** An in-memory repository whose [GetEntity] tells drafts from versions:
    a draft policy is answered from the draft, a version policy from the
    version of that name, the latest-version policy from the version the meta
    record names.  The other methods are those of [memRepository]. *)
Definition memVersionWorkflow (id : Z) (m : Meta) (info : VersionInfo) : Workflow :=
  {| wf_ID := id; wf_Name := meta_Name m; wf_AppID := meta_AppID m;
     wf_CreatorID := meta_CreatorID m; wf_Mode := meta_Mode m;
     wf_Canvas := ver_Canvas info;
     wf_InputParams := ver_InputParamsStr info;
     wf_OutputParams := ver_OutputParamsStr info;
     wf_CommitID := ver_CommitID info |}.

Definition memVersion (s : MemStore) (id : Z) (v : string) : option VersionInfo :=
  snd <$> List.find (fun '(i, info) => bool_decide (i = id /\ Version info = v))
                    (mem_versions s).

Definition memGetEntity (policy : GetPolicy) (s : MemStore) : reply Workflow :=
  match mem_metas s !! gp_ID policy with
  | None => Fail ErrRecordNotFound
  | Some m =>
      match gp_QType policy with
      | FromDraft =>
          match mem_drafts s !! gp_ID policy with
          | Some d => Reply (memWorkflow (gp_ID policy) m d)
          | None => Fail ErrRecordNotFound
          end
      | FromSpecificVersion =>
          match memVersion s (gp_ID policy) (gp_Version policy) with
          | Some info => Reply (memVersionWorkflow (gp_ID policy) m info)
          | None => Fail ErrRecordNotFound
          end
      | FromLatestVersion =>
          match LatestPublishedVersion m with
          | Some v =>
              match memVersion s (gp_ID policy) v with
              | Some info => Reply (memVersionWorkflow (gp_ID policy) m info)
              | None => Fail ErrRecordNotFound
              end
          | None => Fail ErrRecordNotFound
          end
      end
  end.

Definition versionedRepository : Repository MemStore :=
  {| repo_GetMeta := repo_GetMeta (Repository := memRepository);
     repo_DraftV2 := repo_DraftV2 (Repository := memRepository);
     repo_CreateVersion := repo_CreateVersion (Repository := memRepository);
     repo_CreateOrUpdateDraft := repo_CreateOrUpdateDraft (Repository := memRepository);
     repo_GetVersion := repo_GetVersion (Repository := memRepository);
     repo_GetEntity := fun policy s => (memGetEntity policy s, s);
     repo_MGetDrafts := repo_MGetDrafts (Repository := memRepository);
     repo_CopyWorkflow := repo_CopyWorkflow (Repository := memRepository);
     repo_GetDraftWorkflowsByAppID :=
       repo_GetDraftWorkflowsByAppID (Repository := memRepository);
     repo_GetChatFlowRoleConfig := repo_GetChatFlowRoleConfig (Repository := memRepository);
     repo_CreateChatFlowRoleConfig :=
       repo_CreateChatFlowRoleConfig (Repository := memRepository);
     repo_BatchCreateConnectorWorkflowVersion :=
       repo_BatchCreateConnectorWorkflowVersion (Repository := memRepository);
     repo_CopyTemplateConversationByAppID :=
       repo_CopyTemplateConversationByAppID (Repository := memRepository);
     repo_GenID := repo_GenID (Repository := memRepository) |}.

(** Application 50.  The draft of workflow 80 calls 81 from inside a loop
    and from the top level, and a workflow 99 that does not exist; the draft
    of 81 has an untyped node, calls 82 and has, on an LLM node, the draft of
    80 and its version v1 as tools; the draft of 82 has an untyped node;
    version v1 of 80 calls 81. *)
Definition closureRootCanvas : Canvas :=
  mkCanvas [ plainNode "100001" "1" [];
             plainNode "loop" "21" [ subWorkflowNode "a" "81" "" ];
             subWorkflowNode "b" "81" "";
             subWorkflowNode "missing" "99" "" ].

Definition closureMiddleCanvas : Canvas :=
  mkCanvas [ plainNode "u" "" [];
             subWorkflowNode "c" "82" "";
             llmNode "l" [ mkWorkflowFCItem "80" "" true;
                           mkWorkflowFCItem "80" "v1" false ] ].

Definition closureLeafCanvas : Canvas := mkCanvas [ plainNode "n1" "" [] ].

Definition closureStore : MemStore :=
  {| mem_metas := {[ 80 := appMeta "root" 50; 81 := appMeta "middle" 50;
                     82 := appMeta "leaf" 50 ]};
     mem_drafts :=
       {[ 80 := exampleDraft true (Doc closureRootCanvas);
          81 := exampleDraft true (Doc closureMiddleCanvas);
          82 := exampleDraft true (Doc closureLeafCanvas) ]};
     mem_versions :=
       [ (80, mkVersionInfo "v1" "" 1001
                (Doc (mkCanvas [ subWorkflowNode "d" "81" "" ])) "[]" "[]" "c0") ];
     mem_refs := ∅; mem_roles := []; mem_connectors := [];
     mem_nextID := 9000 |}.

(** The keys of the entities of [closureStore], and a bound on the number
    of nodes of a canvas of it. *)
Definition closureKeys : list string :=
  [ visitedKey 80 ""; visitedKey 81 ""; visitedKey 82 ""; visitedKey 80 "v1" ].

Definition closureWeight (k : string) : nat := 5.

(** The workflows-as-tools of a list that have an ID, each with its
    version. *)
Definition toolRefs (l : list WorkflowFCItem) : list (string * string) :=
  map (fun t => (wfc_WorkflowID t, wfc_WorkflowVersion t))
      (List.filter (fun t => negb (bool_decide (wfc_WorkflowID t = ""))) l).

(** The references [validateNodesRecursively] follows from a node: the
    workflow of a sub-workflow node, or the workflows-as-tools of an LLM
    node, when the node has its inputs and the reference an ID; each with its
    version. *)
Definition followed `{Reg : Registry} (n : Node) : list (string * string) :=
  match presentInputs n with
  | None => []
  | Some i =>
      if decide (node_Type n = IDStr NodeTypeSubWorkflow) then
        match SubWorkflow i with
        | Some sw =>
            if decide (WorkflowID sw = "") then []
            else [(WorkflowID sw, WorkflowVersion sw)]
        | None => []
        end
      else if decide (node_Type n = IDStr NodeTypeLLM) then toolRefs (workflowListOf i)
      else []
  end.

(** A reference is settled by [visited] on the store [s]: its ID is a
    number, and its key is in [visited] or the repository has no such
    entity. *)
Definition settled {S} `{Repo : Repository S} (s : S) (visited : gset string)
    (ref : string * string) : Prop :=
  exists id,
    ParseInt ref.1 = Some id
    /\ (visitedKey id ref.2 ∈ visited
        \/ fst (repo_GetEntity (entityPolicy id ref.2) s) = Fail ErrRecordNotFound).

(** Every reference followed from [nodes], at any depth of Blocks, is
    settled. *)
Definition settledNodes `{Reg : Registry} {S} `{Repo : Repository S} (s : S)
    (visited : gset string) (nodes : list Node) : Prop :=
  forall n ref, n ∈ allNodes nodes -> ref ∈ followed n -> settled s visited ref.

(** Every reference followed from the nodes of a list. *)
Definition followedFrom `{Reg : Registry} (nodes : list Node) : list (string * string) :=
  concat (map followed (allNodes nodes)).

(** What the design says of a finished walk from [nodes] with [visited]
    that fetched the entities of the calls [new] and returned [v]: [v] is
    [visited] and the keys of the entities fetched, and it settles every
    reference followed from [nodes] and from the canvases fetched. *)
Definition closedUnderReferences `{Reg : Registry} {S} `{Repo : Repository S} (s : S)
    (visited : gset string) (nodes : list Node) (new : list Call) (v : gset string) : Prop :=
  (forall k, k ∈ v <-> k ∈ visited \/ k ∈ fetchedKeys s new)
  /\ settledNodes s v nodes
  /\ forall p wf c,
       CallGetEntity p ∈ new ->
       fst (repo_GetEntity p s) = Reply wf ->
       UnmarshalCanvas (wf_Canvas wf) = Ok c ->
       settledNodes s v (Nodes c).

(** * Properties *)
(* ================================================================== *)

Lemma flattenNode_eq n : flattenNode n = n :: allNodes (node_Blocks n).
Proof.
  destruct n as [id ty d bs]. simpl. f_equal.
  unfold allNodes. induction bs as [|b bs IH]; simpl; [done|]. by rewrite IH.
Qed.

Lemma allNodes_cons n l : allNodes (n :: l) = flattenNode n ++ allNodes l.
Proof. reflexivity. Qed.

Lemma forallb_app_eq {A} (p : A -> bool) (l1 l2 : list A) :
  forallb p (l1 ++ l2) = forallb p l1 && forallb p l2.
Proof. induction l1 as [|x l1 IH]; simpl; [done|]. by rewrite IH, andb_assoc. Qed.

Section CanvasToRefs.
Context `{Reg : Registry}.
Variable referringID : Z.

(** What a walk over the nodes [ns] adds to the accumulated edge set. *)
Definition walkAdds (ns : list Node) (step : gset WorkflowReferenceKey -> result (gset WorkflowReferenceKey)) : Prop :=
  forall acc,
    if forallb refIDsParse ns then
      exists refs, step acc = Ok refs /\
        forall k, k ∈ refs <-> k ∈ acc \/ exists m, m ∈ ns /\ contributes referringID m k
    else step acc = Err ErrSchemaConversionFail.

Lemma addToolRef_fold (l : list WorkflowFCItem) acc :
  if forallb (fun w => bool_decide (is_Some (ParseInt (wfc_WorkflowID w)))) l then
    exists refs, foldR (addToolRef referringID) l acc = Ok refs /\
      forall k, k ∈ refs <->
        k ∈ acc \/ exists w id, w ∈ l /\ ParseInt (wfc_WorkflowID w) = Some id
                                /\ k = toolRef referringID id
  else foldR (addToolRef referringID) l acc = Err ErrSchemaConversionFail.
Proof.
  revert acc. induction l as [|w l IH]; intros acc; simpl.
  - exists acc. split; [done|]. intros k. split; [by left|].
    intros [?|(w & id & Hw & _)]; [done|]. by apply elem_of_nil in Hw.
  - unfold addToolRef at 1 3.
    destruct (ParseInt (wfc_WorkflowID w)) as [id|] eqn:Hp; simpl.
    + specialize (IH ({[toolRef referringID id]} ∪ acc)).
      destruct (forallb _ l).
      * destruct IH as (refs & -> & Hrefs). exists refs. split; [done|].
        intros k. rewrite Hrefs, elem_of_union, elem_of_singleton. split.
        -- intros [[->|?]|(w' & id' & Hw' & Hp' & ->)]; [|by left|].
           ++ right. exists w, id. by rewrite elem_of_cons; auto.
           ++ right. exists w', id'. by rewrite elem_of_cons; auto.
        -- intros [?|(w' & id' & Hw' & Hp' & ->)]; [by left; right|].
           apply elem_of_cons in Hw' as [->|Hw'].
           ++ left; left. congruence.
           ++ right. eauto.
      * done.
    + done.
Qed.

Lemma walkAdds_nil : walkAdds [] Ok.
Proof.
  intros acc. simpl. exists acc. split; [done|]. intros k. split; [by left|].
  intros [?|(m & Hm & _)]; [done|]. by apply elem_of_nil in Hm.
Qed.

Lemma walkAdds_seq ns1 ns2 f g :
  walkAdds ns1 f -> walkAdds ns2 g -> walkAdds (ns1 ++ ns2) (fun acc => rbind (f acc) g).
Proof.
  intros Hf Hg acc. rewrite forallb_app_eq.
  specialize (Hf acc). destruct (forallb refIDsParse ns1); simpl.
  - destruct Hf as (r1 & -> & H1). simpl. specialize (Hg r1).
    destruct (forallb refIDsParse ns2).
    + destruct Hg as (r2 & -> & H2). exists r2. split; [done|].
      intros k. rewrite H2, H1. setoid_rewrite elem_of_app. clear. naive_solver.
    + done.
  - by rewrite Hf.
Qed.

Lemma getRefFn_walk (l : list Node) :
  Forall (fun b => walkAdds (flattenNode b) (getRefNode referringID b)) l ->
  walkAdds (allNodes l) (foldR (getRefNode referringID) l).
Proof.
  induction 1 as [|b l Hb _ IH]; [apply walkAdds_nil|].
  rewrite allNodes_cons. simpl. by apply walkAdds_seq.
Qed.

Hypothesis tags_differ : IDStr NodeTypeSubWorkflow <> IDStr NodeTypeLLM.

Lemma getRefNode_walk (n : Node) :
  forallb refNodeShape (flattenNode n) = true ->
  walkAdds (flattenNode n) (getRefNode referringID n).
Proof.
  induction n as [id ty d bs IH] using Node_ind'. intros Hshape.
  rewrite flattenNode_eq in *. cbn [node_Blocks] in *.
  simpl in Hshape. apply andb_prop in Hshape as [Hn Hbs].
  unfold refNodeShape in Hn. cbn [node_Type node_Blocks] in Hn.
  intros acc. cbn [forallb]. unfold refIDsParse at 1.
  cbn [getRefNode node_Type node_Blocks].
  destruct (decide (ty = IDStr NodeTypeSubWorkflow)) as [Hsw|Hsw].
  - apply andb_prop in Hn as [Hok Hnil]. apply bool_decide_eq_true in Hnil as ->.
    simpl. rewrite andb_true_r.
    destruct (subWorkflowOf _) as [sw| |] eqn:Hsub; try done. simpl.
    destruct (ParseInt (WorkflowID sw)) as [rid|] eqn:Hp.
    + rewrite bool_decide_eq_true_2 by eauto.
      eexists. split; [done|]. intros k.
      rewrite elem_of_union, elem_of_singleton. split.
      * intros [->|?]; [|by left]. right. eexists. split; [by apply list_elem_of_singleton|].
        by eapply contributes_sub.
      * intros [?|(m & Hm & Hc)]; [by right|]. apply list_elem_of_singleton in Hm as ->.
        left. destruct Hc as [sw' id' _ Hsub' Hp'|i w id' Hty]; simpl in *.
        -- congruence.
        -- congruence.
    + rewrite bool_decide_eq_false_2 by (intros [? ?]; done). done.
  - destruct (decide (ty = IDStr NodeTypeLLM)) as [Hllm|Hllm].
    + apply andb_prop in Hn as [Hok Hnil]. apply bool_decide_eq_true in Hnil as ->.
      simpl. rewrite andb_true_r.
      destruct (inputsOf _) as [i| |] eqn:Hin; try done. simpl.
      pose proof (addToolRef_fold (workflowListOf i) acc) as Hfold.
      destruct (forallb _ (workflowListOf i)); [|done].
      destruct Hfold as (refs & -> & Hrefs). exists refs. split; [done|].
      intros k. rewrite Hrefs. split.
      * intros [?|(w & rid & Hw & Hp & ->)]; [by left|]. right.
        eexists. split; [by apply list_elem_of_singleton|].
        by eapply contributes_tool.
      * intros [?|(m & Hm & Hc)]; [by left|]. apply list_elem_of_singleton in Hm as ->.
        right. destruct Hc as [sw' id' Hty|i' w id' _ Hin' Hw Hp']; simpl in *.
        -- congruence.
        -- exists w, id'. split_and!; [congruence|done|done].
    + assert (Hwalk : walkAdds (allNodes bs) (foldR (getRefNode referringID) bs)).
      { apply getRefFn_walk. clear -IH Hbs. induction IH as [|b bs Hb _ IHbs]; [done|].
        rewrite allNodes_cons, forallb_app_eq in Hbs. apply andb_prop in Hbs as [? ?].
        constructor; auto. }
      specialize (Hwalk acc). simpl.
      destruct (forallb refIDsParse (allNodes bs)); [|done].
      destruct Hwalk as (refs & -> & Hrefs). exists refs. split; [done|].
      intros k. rewrite Hrefs. split.
      * intros [?|(m & Hm & Hc)]; [by left|]. right. exists m.
        split; [by apply elem_of_cons; right|done].
      * intros [?|(m & Hm & Hc)]; [by left|].
        apply elem_of_cons in Hm as [->|Hm]; [|right; eauto].
        destruct Hc; simpl in *; congruence.
Qed.

(** C5 (amended).  For a canvas that decodes, whose sub-workflow and LLM
    nodes carry their inputs and have no Blocks of their own,
    [canvasToRefs] fails with a schema-conversion error when some
    referenced workflow ID is not a decimal int64, and otherwise returns
    the set whose members are exactly the edges contributed by the nodes
    of the canvas at any depth of Blocks: the sub-workflow edge of each
    sub-workflow node and one tool edge per workflow listed by an LLM
    node. *)
Theorem canvasToRefs_edges (c : Canvas) :
  forallb refNodeShape (allNodes (Nodes c)) = true ->
  if forallb refIDsParse (allNodes (Nodes c)) then
    exists refs, canvasToRefs referringID (Doc c) = Ok refs /\
      forall k, k ∈ refs <->
        exists n, n ∈ allNodes (Nodes c) /\ contributes referringID n k
  else canvasToRefs referringID (Doc c) = Err ErrSchemaConversionFail.
Proof.
  intros Hshape. unfold canvasToRefs, getRefFn. simpl.
  assert (Hwalk : walkAdds (allNodes (Nodes c)) (foldR (getRefNode referringID) (Nodes c))).
  { apply getRefFn_walk. revert Hshape. generalize (Nodes c) as l.
    induction l as [|b l IHl]; intros Hs; [done|].
    rewrite allNodes_cons, forallb_app_eq in Hs. apply andb_prop in Hs as [? ?].
    constructor; [by apply getRefNode_walk|auto]. }
  specialize (Hwalk ∅). destruct (forallb refIDsParse _); [|done].
  destruct Hwalk as (refs & -> & Hrefs). exists refs. split; [done|].
  intros k. rewrite Hrefs. set_solver.
Qed.
End CanvasToRefs.

(** The canvas of the examples for [canvasToRefs]: a loop whose block holds a
    sub-workflow node, a second sub-workflow node with the same target at top
    level, and an LLM node with two workflows as tools. *)
Example canvasToRefs_example :
  match canvasToRefs (Reg := exampleRegistry) 7
          (Doc (mkCanvas [ plainNode "loop" "21" [ subWorkflowNode "s1" "100" "" ];
                           subWorkflowNode "s2" "100" "v0.0.1";
                           llmNode "l1" [ mkWorkflowFCItem "200" "" true;
                                          mkWorkflowFCItem "100" "" true ] ])) with
  | Ok refs => elements refs = [ subWorkflowRef 7 100; toolRef 7 100; toolRef 7 200 ]
  | _ => False
  end.
Proof. vm_compute. reflexivity. Qed.

Lemma canvasToRefs_edges_witness :
  IDStr (Registry := exampleRegistry) NodeTypeSubWorkflow
    <> IDStr (Registry := exampleRegistry) NodeTypeLLM
  /\ exists refs,
      canvasToRefs (Reg := exampleRegistry) 7
        (Doc (mkCanvas [ plainNode "loop" "21" [ subWorkflowNode "s1" "100" "" ];
                         subWorkflowNode "s2" "100" "v0.0.1";
                         llmNode "l1" [ mkWorkflowFCItem "200" "" true ] ])) = Ok refs
      /\ forall k, k ∈ refs <->
           exists n,
             n ∈ allNodes [ plainNode "loop" "21" [ subWorkflowNode "s1" "100" "" ];
                            subWorkflowNode "s2" "100" "v0.0.1";
                            llmNode "l1" [ mkWorkflowFCItem "200" "" true ] ]
             /\ contributes (Reg := exampleRegistry) 7 n k.
Proof.
  split; [done|].
  apply (canvasToRefs_edges (Reg := exampleRegistry) 7 ltac:(done)
           (mkCanvas [ plainNode "loop" "21" [ subWorkflowNode "s1" "100" "" ];
                       subWorkflowNode "s2" "100" "v0.0.1";
                       llmNode "l1" [ mkWorkflowFCItem "200" "" true ] ])).
  reflexivity.
Defined.

(** A sub-workflow node whose workflow ID is not a number: the canvas
    decodes, and no edge set is returned. *)
Lemma canvasToRefs_bad_id_counterexample :
  ~ exists refs,
      canvasToRefs (Reg := exampleRegistry) 7
        (Doc (mkCanvas [ subWorkflowNode "s1" "abc" "" ])) = Ok refs.
Proof. intros [refs Hrefs]. vm_compute in Hrefs. discriminate. Qed.

(** ** Publish *)

Section PublishProps.
Context `{Reg : Registry} {S : Type} `{Repo : Repository S} `{Col : Collaborators S}.

Lemma call_reply {A} (c : Call) (f : S -> reply A * S) (w : World S) a s' :
  f (store w) = (Reply a, s') ->
  call c f w = (Ok a, mkWorld s' (calls w ++ [c])).
Proof. intros Hf. unfold call. by rewrite Hf. Qed.

Lemma call_fail {A} (c : Call) (f : S -> reply A * S) (w : World S) e s' :
  f (store w) = (Fail e, s') ->
  call c f w = (Err e, mkWorld s' (calls w ++ [c])).
Proof. intros Hf. unfold call. by rewrite Hf. Qed.

Lemma bind_ok {A B} (m : M S A) (k : A -> M S B) w a w' :
  m w = (Ok a, w') -> bind m k w = k a w'.
Proof. intros Hm. unfold bind. by rewrite Hm. Qed.

Lemma bind_err {A B} (m : M S A) (k : A -> M S B) w e w' :
  m w = (Err e, w') -> bind m k w = (Err e, w').
Proof. intros Hm. unfold bind. by rewrite Hm. Qed.

Lemma bind_panic {A B} (m : M S A) (k : A -> M S B) w w' :
  m w = (Panic, w') -> bind m k w = (Panic, w').
Proof. intros Hm. unfold bind. by rewrite Hm. Qed.

(** The version check touches neither the store nor the log. *)
Lemma checkVersion_pure meta policy (w : World S) :
  snd (checkVersion meta policy w) = w.
Proof.
  unfold checkVersion. destruct (LatestPublishedVersion meta) as [latest|]; [|done].
  unfold bind, liftReply.
  destruct (parseVersion latest); [|done].
  destruct (parseVersion (pp_Version policy)); [|done].
  by destruct (isIncremental _ _).
Qed.

Lemma checkVersion_no_panic meta policy (w : World S) :
  fst (checkVersion meta policy w) <> Panic.
Proof.
  unfold checkVersion. destruct (LatestPublishedVersion meta) as [latest|]; [|done].
  unfold bind, liftReply.
  destruct (parseVersion latest); [|done].
  destruct (parseVersion (pp_Version policy)); [|done].
  by destruct (isIncremental _ _).
Qed.

(** C4.  When the workflow has a latest published version, [Publish]
    stops with an error right after reading the meta record (the store and
    the log show no other call, so no version is created) unless both
    versions parse and the requested one is incremental over the latest;
    in that case it goes on with the steps that follow the version check. *)
Theorem Publish_version_order (policy : PublishPolicy) (w : World S) meta s1 latest :
  repo_GetMeta (pp_ID policy) (store w) = (Reply meta, s1) ->
  LatestPublishedVersion meta = Some latest ->
  let w1 := mkWorld s1 (calls w ++ [CallGetMeta (pp_ID policy)]) in
  match parseVersion latest, parseVersion (pp_Version policy) with
  | Reply l, Reply c =>
      if isIncremental l c
      then Publish policy w = publishDraft policy w1
      else exists e, Publish policy w = (Err e, w1)
  | _, _ => exists e, Publish policy w = (Err e, w1)
  end.
Proof.
  intros Hmeta Hlatest w1. unfold Publish.
  rewrite (bind_ok _ _ _ _ _ (call_reply _ _ _ _ _ Hmeta : GetMeta _ _ = _)). fold w1.
  unfold checkVersion. rewrite Hlatest.
  destruct (parseVersion latest) as [l|e];
    [|eexists; by apply bind_err].
  destruct (parseVersion (pp_Version policy)) as [c|e].
  - destruct (isIncremental l c) eqn:Hinc.
    + apply (bind_ok _ (fun _ => publishDraft policy) _ tt).
      cbv [bind liftReply]. by rewrite Hinc.
    + eexists. apply bind_err. cbv [bind liftReply]. by rewrite Hinc.
  - eexists. by apply bind_err.
Qed.

(** At the test-run check the error is the one of the check, whatever the
    canvas of the draft: the reference edges are not computed first. *)
Lemma publishDraft_gate (policy : PublishPolicy) (w : World S) d s2 :
  repo_DraftV2 (pp_ID policy) (pp_CommitID policy) (store w) = (Reply d, s2) ->
  pp_Force policy = false ->
  TestRunSuccess d = false ->
  publishDraft policy w
  = (Err (ErrMsg "current draft needs to pass the test run before publishing"),
     mkWorld s2 (calls w ++ [CallDraftV2 (pp_ID policy) (pp_CommitID policy)])).
Proof.
  intros Hd Hforce Hflag. unfold publishDraft, bind at 1, DraftV2.
  rewrite (call_reply _ _ _ _ _ Hd). by rewrite Hforce, Hflag.
Qed.

(** C9.  With [Force] unset and a stored draft whose test-run flag is
    false, [Publish] returns an error, and the only repository calls it
    makes are the read of the meta record and, when it gets that far, the
    read of the draft: [CreateVersion] is not reached. *)
Theorem Publish_test_run_gate (policy : PublishPolicy) (w : World S) rm s1 :
  pp_Force policy = false ->
  repo_GetMeta (pp_ID policy) (store w) = (rm, s1) ->
  (forall d s2,
      repo_DraftV2 (pp_ID policy) (pp_CommitID policy) s1 = (Reply d, s2) ->
      TestRunSuccess d = false) ->
  exists e w',
    Publish policy w = (Err e, w')
    /\ (calls w' = calls w ++ [CallGetMeta (pp_ID policy)]
        \/ calls w' = calls w ++ [CallGetMeta (pp_ID policy);
                                   CallDraftV2 (pp_ID policy) (pp_CommitID policy)]).
Proof.
  intros Hforce Hmeta Hdraft. unfold Publish, bind at 1, GetMeta, call.
  rewrite Hmeta. destruct rm as [meta|e]; [|eexists _, _; split; [done|]; simpl; auto].
  unfold bind at 1.
  pose proof (checkVersion_pure meta policy
                (mkWorld s1 (calls w ++ [CallGetMeta (pp_ID policy)]))) as Hpure.
  pose proof (checkVersion_no_panic meta policy
                (mkWorld s1 (calls w ++ [CallGetMeta (pp_ID policy)]))) as Hnp.
  destruct (checkVersion meta policy _) as [[[]|e|] w1]; simpl in Hpure, Hnp; subst w1.
  - destruct (repo_DraftV2 (pp_ID policy) (pp_CommitID policy) s1) as [[d|e] s2] eqn:Hd.
    + rewrite (publishDraft_gate policy _ d s2); [|done|done|by eapply Hdraft].
      eexists _, _. split; [done|]. simpl. rewrite <- !app_assoc. by right.
    + unfold publishDraft, bind at 1, DraftV2, call. simpl. rewrite Hd.
      eexists _, _. split; [done|]. simpl. rewrite <- !app_assoc. by right.
  - eexists _, _. split; [done|]. simpl. auto.
  - done.
Qed.
End PublishProps.

Lemma Publish_version_order_witness :
  repo_GetMeta (Repository := memRepository) 1 publishStore
    = (Reply (exampleMeta "one" (Some "v0.0.2")), publishStore)
  /\ LatestPublishedVersion (exampleMeta "one" (Some "v0.0.2")) = Some "v0.0.2"
  /\ Publish (Reg := exampleRegistry) (Repo := memRepository) (Col := exampleCollaborators)
       (examplePolicy 1 "v0.1.0" false) (mkWorld publishStore [])
     = publishDraft (Reg := exampleRegistry) (Repo := memRepository)
         (examplePolicy 1 "v0.1.0" false) (mkWorld publishStore [CallGetMeta 1]).
Proof.
  split; [reflexivity|]. split; [reflexivity|].
  exact (Publish_version_order (Reg := exampleRegistry) (Repo := memRepository)
           (Col := exampleCollaborators)
           (examplePolicy 1 "v0.1.0" false) (mkWorld publishStore [])
           (exampleMeta "one" (Some "v0.0.2")) publishStore "v0.0.2" eq_refl eq_refl).
Defined.

(** Publishing v0.0.2 again, or the smaller v0.0.1, is refused and leaves
    the store as it was; v0.1.0 is accepted and becomes the latest version. *)
Example Publish_same_version_rejected :
  Publish (Reg := exampleRegistry) (Repo := memRepository) (Col := exampleCollaborators)
    (examplePolicy 1 "v0.0.2" false) (mkWorld publishStore [])
  = (Err (ErrMsg "the version number is not self-incrementing"),
     mkWorld publishStore [CallGetMeta 1]).
Proof. vm_compute. reflexivity. Qed.

Example Publish_smaller_version_rejected :
  Publish (Reg := exampleRegistry) (Repo := memRepository) (Col := exampleCollaborators)
    (examplePolicy 1 "v0.0.1" true) (mkWorld publishStore [])
  = (Err (ErrMsg "the version number is not self-incrementing"),
     mkWorld publishStore [CallGetMeta 1]).
Proof. vm_compute. reflexivity. Qed.

Example Publish_greater_version_accepted :
  let r := Publish (Reg := exampleRegistry) (Repo := memRepository)
             (Col := exampleCollaborators)
             (examplePolicy 1 "v0.1.0" false) (mkWorld publishStore []) in
  fst r = Ok tt
  /\ map fst (mem_versions (store (snd r))) = [1]
  /\ (LatestPublishedVersion <$> (mem_metas (store (snd r)) !! 1)) = Some (Some "v0.1.0").
Proof. vm_compute. auto. Qed.

Lemma Publish_test_run_gate_witness :
  pp_Force (examplePolicy 2 "v0.0.1" false) = false
  /\ TestRunSuccess (exampleDraft false (Doc exampleCanvas)) = false
  /\ exists e w',
      Publish (Reg := exampleRegistry) (Repo := memRepository) (Col := exampleCollaborators)
        (examplePolicy 2 "v0.0.1" false) (mkWorld publishStore []) = (Err e, w')
      /\ (calls w' = [] ++ [CallGetMeta 2]
          \/ calls w' = [] ++ [CallGetMeta 2; CallDraftV2 2 ""]).
Proof.
  split; [reflexivity|]. split; [reflexivity|].
  apply (Publish_test_run_gate (Reg := exampleRegistry) (Repo := memRepository)
           (Col := exampleCollaborators)
           (examplePolicy 2 "v0.0.1" false) (mkWorld publishStore [])
           (Reply (exampleMeta "two" None)) publishStore eq_refl eq_refl).
  intros d s2 Hd. vm_compute in Hd. by injection Hd as <- _.
Defined.

Example Publish_untested_draft_rejected :
  Publish (Reg := exampleRegistry) (Repo := memRepository) (Col := exampleCollaborators)
    (examplePolicy 2 "v0.0.1" false) (mkWorld publishStore [])
  = (Err (ErrMsg "current draft needs to pass the test run before publishing"),
     mkWorld publishStore [CallGetMeta 2; CallDraftV2 2 ""]).
Proof. vm_compute. reflexivity. Qed.

(** ** calculateTestRunSuccess *)

Section TestRunProps.
Context `{Reg : Registry} {S : Type} `{Repo : Repository S} `{Col : Collaborators S}.

(** C2.  When the draft stored for the workflow, if there is one, holds a
    canvas that decodes ([Save] stores a canvas only after decoding it), the
    flag returned by [calculateTestRunSuccess] is the carried flag of the
    design: the flag of the previous draft when the new canvas compiles, a
    previous draft is found, its canvas compiles and the two schemas are
    equal, and false in every other case.  An error is returned with it only
    when reading the previous draft fails for another reason than its
    absence.  The one repository call made, if any, is that read. *)
Theorem calculateTestRunSuccess_carry (c : Canvas) (wid : Z) (w : World S) :
  let previous := fst (repo_DraftV2 wid "" (store w)) in
  let out := calculateTestRunSuccess c wid w in
  (forall d, previous = Reply d -> exists pc, draft_Canvas d = Doc pc) ->
  fst (fst out) = carriedFlag c previous
  /\ snd (fst out)
     = match CanvasToWorkflowSchema c, previous with
       | Reply _, Fail e => if decide (e = ErrRecordNotFound) then None else Some e
       | _, _ => None
       end
  /\ calls (snd out)
     = calls w ++ (if replied (CanvasToWorkflowSchema c) then [CallDraftV2 wid ""] else []).
Proof.
  unfold calculateTestRunSuccess, carriedFlag. simpl.
  destruct (CanvasToWorkflowSchema c) as [sc|e]; simpl.
  2:{ intros _. by rewrite app_nil_r. }
  destruct (repo_DraftV2 wid "" (store w)) as [[d|e] s']; simpl; intros Hdec.
  - destruct (Hdec d eq_refl) as [pc ->]. simpl.
    destruct (CanvasToWorkflowSchema pc) as [esc|e]; simpl; [|done].
    by destruct (IsEqual esc sc).
  - by destruct e.
Qed.

(** A stored canvas that does not decode is read as the zero canvas: the
    flag is then the one carried from a draft whose canvas has no node. *)
Lemma calculateTestRunSuccess_undecoded (c : Canvas) (wid : Z) (w : World S) d s' raw :
  repo_DraftV2 wid "" (store w) = (Reply d, s') ->
  draft_Canvas d = BadJSON raw ->
  fst (fst (calculateTestRunSuccess c wid w))
  = carriedFlag c (Reply {| TestRunSuccess := TestRunSuccess d; Modified := Modified d;
                            draft_Canvas := Doc (mkCanvas []);
                            draft_InputParamsStr := draft_InputParamsStr d;
                            draft_OutputParamsStr := draft_OutputParamsStr d;
                            draft_CommitID := draft_CommitID d |}).
Proof.
  intros Hd Hraw. unfold calculateTestRunSuccess, carriedFlag. simpl.
  destruct (CanvasToWorkflowSchema c) as [sc|e]; [|done].
  rewrite Hd, Hraw. simpl.
  destruct (CanvasToWorkflowSchema (mkCanvas [])) as [esc|e]; [|done].
  by destruct (IsEqual esc sc).
Qed.
End TestRunProps.

(** Workflow 1 of the example store has a draft that passed its test run:
    saving the same canvas again carries the flag. *)
Lemma calculateTestRunSuccess_carry_witness :
  fst (fst (calculateTestRunSuccess (Repo := memRepository) (Col := exampleCollaborators)
              exampleCanvas 1 (mkWorld publishStore [])))
  = true.
Proof.
  refine (eq_trans (proj1 (calculateTestRunSuccess_carry (Repo := memRepository)
                             (Col := exampleCollaborators) exampleCanvas 1
                             (mkWorld publishStore []) _)) _).
  - intros d Hd. vm_compute in Hd. injection Hd as <-. by eexists.
  - vm_compute. reflexivity.
Defined.

(** Re-saving the canvas of workflow 1 keeps its passed test run; a canvas
    with one more node resets it; and in both cases the store is left as it
    was. *)
Example calculateTestRunSuccess_same_canvas :
  calculateTestRunSuccess (Repo := memRepository) (Col := exampleCollaborators)
    exampleCanvas 1 (mkWorld publishStore [])
  = ((true, None), mkWorld publishStore [CallDraftV2 1 ""]).
Proof. vm_compute. reflexivity. Qed.

Example calculateTestRunSuccess_changed_canvas :
  calculateTestRunSuccess (Repo := memRepository) (Col := exampleCollaborators)
    (mkCanvas (Nodes exampleCanvas ++ [plainNode "7" "21" []])) 1 (mkWorld publishStore [])
  = ((false, None), mkWorld publishStore [CallDraftV2 1 ""]).
Proof. vm_compute. reflexivity. Qed.

Example calculateTestRunSuccess_no_previous_draft :
  calculateTestRunSuccess (Repo := memRepository) (Col := exampleCollaborators)
    exampleCanvas 3 (mkWorld publishStore [])
  = ((false, None), mkWorld publishStore [CallDraftV2 3 ""]).
Proof. vm_compute. reflexivity. Qed.

(** ** Copying a workflow and what it references *)

Section LogRules.
Context {S : Type}.

Lemma logs_ret {A} (a : A) (Q : result A -> list Call -> Prop) :
  Q (Ok a) [] -> logs (S := S) (ret a) Q.
Proof. intros HQ w. exists []. by rewrite app_nil_r. Qed.

Lemma logs_lift {A} (r : result A) (Q : result A -> list Call -> Prop) :
  Q r [] -> logs (S := S) (lift r) Q.
Proof. intros HQ w. exists []. by rewrite app_nil_r. Qed.

Lemma logs_panic {A} (Q : result A -> list Call -> Prop) :
  Q Panic [] -> logs (S := S) panic Q.
Proof. intros HQ w. exists []. by rewrite app_nil_r. Qed.

Lemma logs_call {A} (c : Call) (f : S -> reply A * S) (Q : result A -> list Call -> Prop) :
  (forall a, Q (Ok a) [c]) -> (forall e, Q (Err e) [c]) -> logs (call c f) Q.
Proof.
  intros Hok Herr w. exists [c]. unfold call.
  destruct (f (store w)) as [[a|e] s']; simpl; auto.
Qed.

Lemma logs_bind {A B} (m : M S A) (k : A -> M S B)
    (P : result A -> list Call -> Prop) (Q : result B -> list Call -> Prop) :
  logs m P ->
  (forall a n1, P (Ok a) n1 -> logs (k a) (fun r n2 => Q r (n1 ++ n2))) ->
  (forall e n, P (Err e) n -> Q (Err e) n) ->
  (forall n, P Panic n -> Q Panic n) ->
  logs (bind m k) Q.
Proof.
  intros Hm Hk Herr Hpanic w. unfold bind.
  destruct (Hm w) as (n1 & Hn1 & HP).
  destruct (m w) as [[a|e|] w1]; simpl in *.
  - destruct (Hk a n1 HP w1) as (n2 & Hn2 & HQ).
    exists (n1 ++ n2). rewrite Hn2, Hn1, app_assoc. done.
  - exists n1. auto.
  - exists n1. auto.
Qed.

Lemma logs_weaken {A} (m : M S A) (P Q : result A -> list Call -> Prop) :
  logs m P -> (forall r n, P r n -> Q r n) -> logs m Q.
Proof. intros Hm HPQ w. destruct (Hm w) as (n & ? & ?). eauto. Qed.
End LogRules.

Lemma mapR_Forall2 {A B} (f : A -> result B) (l : list A) (l' : list B) :
  mapR f l = Ok l' -> Forall2 (fun x y => f x = Ok y) l l'.
Proof.
  revert l'. induction l as [|x l IH]; intros l' Hl; simpl in Hl.
  - injection Hl as <-. constructor.
  - destruct (f x) as [y| |] eqn:Hx; try done. simpl in Hl.
    destruct (mapR f l) as [ys| |]; try done. simpl in Hl. injection Hl as <-.
    constructor; auto.
Qed.

Section RewriteProps.
Context `{Reg : Registry}.
Variable m : gmap Z IDVersionPair.
Variable related : ExternalResourceRelated.
Hypothesis tags : referenceTags.

Lemma nonEmpty_false : nonEmpty m = false -> m = ∅.
Proof. unfold nonEmpty. intros Hm%negb_false_iff. by apply bool_decide_eq_true in Hm. Qed.

Lemma redirect_empty (l : list reference) : m = ∅ -> map (redirect m) l = l.
Proof.
  intros ->. rewrite <- (map_id l) at 2. apply map_ext. intros r.
  unfold redirect. destruct (referredID r); [|done]. by rewrite lookup_empty.
Qed.

Lemma references_cons n l : references (n :: l) = references [n] ++ references l.
Proof.
  unfold references. rewrite !allNodes_cons. unfold allNodes at 2. simpl.
  by rewrite app_nil_r, map_app, concat_app.
Qed.

Lemma references_node n :
  references [n] = referencesOf n ++ references (node_Blocks n).
Proof.
  unfold references. rewrite allNodes_cons. unfold allNodes at 2. simpl.
  by rewrite app_nil_r, flattenNode_eq.
Qed.

Lemma references_leaf n : node_Blocks n = [] -> references [n] = referencesOf n.
Proof. intros Hn. rewrite references_node, Hn. unfold references. simpl. by rewrite app_nil_r. Qed.

(** The type of a node decides what it refers to. *)
Lemma referencesOf_other n :
  IDStrToNodeType (node_Type n) <> NodeTypeSubWorkflow ->
  IDStrToNodeType (node_Type n) <> NodeTypeLLM ->
  referencesOf n = [].
Proof.
  destruct tags as (Hsub & Hllm & _). intros H1 H2. unfold referencesOf.
  destruct (decide _) as [E|_]; [by apply Hsub in E|].
  destruct (decide _) as [E|_]; [by apply Hllm in E|]. done.
Qed.

Lemma referencesOf_capability n :
  noCapability n = false -> referencesOf n = [].
Proof.
  destruct tags as (Hsub & Hllm & Msub & Mllm). intros Hcap.
  apply referencesOf_other; intros E; unfold noCapability in Hcap; rewrite E in Hcap;
    [rewrite Msub in Hcap|rewrite Mllm in Hcap]; done.
Qed.

Lemma replaceWorkflowFC_redirect node (l l' : list WorkflowFCItem) :
  mapR (replaceWorkflowFC m) l = Ok l' ->
  map (ToolReference node) l' = map (redirect m) (map (ToolReference node) l).
Proof.
  intros H%mapR_Forall2. induction H as [|w w' l l' Hw _ IH]; [done|].
  simpl. rewrite IH. f_equal.
  unfold replaceWorkflowFC, parseID in Hw. unfold redirect. simpl.
  destruct (ParseInt (wfc_WorkflowID w)) as [x|]; [|done]. simpl in Hw.
  destruct (m !! x) as [p|]; by injection Hw as <-.
Qed.

Lemma replaceFCParam_redirect node (fc fc' : FCParam) :
  replaceFCParam m related fc = Ok fc' ->
  map (ToolReference node) (match WorkflowFCParam fc' with Some l => l | None => [] end)
  = map (redirect m)
      (map (ToolReference node) (match WorkflowFCParam fc with Some l => l | None => [] end)).
Proof.
  unfold replaceFCParam. intros H.
  destruct (WorkflowFCParam fc) as [l|].
  - destruct (nonEmpty m) eqn:Hne.
    + destruct (mapR (replaceWorkflowFC m) l) as [l'| |] eqn:Hl; try done. simpl in H.
      destruct (match PluginFCParam fc with Some _ => _ | None => _ end); try done. simpl in H.
      destruct (match KnowledgeFCParam fc with Some _ => _ | None => _ end); try done. simpl in H.
      injection H as <-. simpl. by apply replaceWorkflowFC_redirect.
    + simpl in H.
      destruct (match PluginFCParam fc with Some _ => _ | None => _ end); try done. simpl in H.
      destruct (match KnowledgeFCParam fc with Some _ => _ | None => _ end); try done. simpl in H.
      injection H as <-. simpl. by rewrite redirect_empty by (by apply nonEmpty_false).
  - simpl in H.
    destruct (match PluginFCParam fc with Some _ => _ | None => _ end); try done. simpl in H.
    destruct (match KnowledgeFCParam fc with Some _ => _ | None => _ end); try done. simpl in H.
    by injection H as <-.
Qed.

Lemma replaceBlocks_references (bs bs' : list Node) :
  Forall (fun b => forall b', replaceNode m related b = Ok b' ->
            references [b'] = map (redirect m) (references [b])) bs ->
  mapR (replaceNode m related) bs = Ok bs' ->
  references bs' = map (redirect m) (references bs).
Proof.
  intros HF Hmap%mapR_Forall2.
  induction Hmap as [|b b' bs bs' Hb _ IH]; [done|].
  apply Forall_cons in HF as [Hb' HF].
  rewrite (references_cons b), (references_cons b'), map_app, (Hb' _ Hb), IH; done.
Qed.

Lemma containerBlocks_cons n l :
  containerBlocks (n :: l) = containerBlocks [n] && containerBlocks l.
Proof.
  unfold containerBlocks. rewrite !allNodes_cons, forallb_app_eq. unfold allNodes at 2.
  simpl. by rewrite app_nil_r.
Qed.

Lemma containerBlocks_node n :
  containerBlocks [n] = containerOnly n && containerBlocks (node_Blocks n).
Proof.
  unfold containerBlocks. rewrite allNodes_cons. unfold allNodes at 2. simpl.
  by rewrite app_nil_r, flattenNode_eq.
Qed.

Lemma replaceNode_references (n : Node) :
  containerBlocks [n] = true ->
  forall n', replaceNode m related n = Ok n' ->
    references [n'] = map (redirect m) (references [n]).
Proof.
  destruct tags as (Hsub & Hllm & Msub & Mllm).
  induction n as [id ty d bs IH] using Node_ind'. intros Hshape n' Hn'.
  rewrite containerBlocks_node in Hshape. cbn [node_Blocks] in Hshape.
  apply andb_prop in Hshape as [Hn Hbs].
  assert (IHbs : Forall (fun b => forall b', replaceNode m related b = Ok b' ->
                     references [b'] = map (redirect m) (references [b])) bs).
  { clear -IH Hbs. induction IH as [|b bs Hb _ IHbs]; [done|].
    rewrite containerBlocks_cons in Hbs. apply andb_prop in Hbs as [Hb1 Hb2].
    constructor; auto. }
  clear IH.
  cbn [replaceNode node_Type node_Blocks] in Hn'.
  unfold containerOnly, noCapability in Hn. cbn [node_Type node_Blocks] in Hn.
  set (meta := NodeMetaByNodeType (IDStrToNodeType ty)) in *.
  (* a capability node has no Blocks and refers to no workflow *)
  assert (Hcap : UseDatabase meta = true \/ UseKnowledge meta = true \/ UsePlugin meta = true ->
            bs = [] /\ forall n1, node_Type n1 = ty -> node_Blocks n1 = [] -> references [n1] = []).
  { intros Hc. split.
    - apply orb_prop in Hn as [Hn|Hn]; [|by apply bool_decide_eq_true in Hn].
      destruct Hc as [Hc | [Hc | Hc]]; rewrite Hc in Hn; simpl in Hn;
        by rewrite ?andb_false_r in Hn.
    - intros n1 Hty Hnil. rewrite references_leaf by done. apply referencesOf_capability.
      unfold noCapability. rewrite Hty. fold meta.
      destruct Hc as [-> | [-> | ->]]; simpl; by rewrite ?andb_false_r. }
  destruct (UseDatabase meta) eqn:Hdb.
  { destruct (Hcap ltac:(auto)) as [-> Hnone]. rewrite (Hnone (mkNode id ty d [])) by done.
    destruct (negb (nonEmpty (DatabaseMap related))); [injection Hn' as <-; by apply Hnone|].
    destruct (inputsOf _) as [i| |]; try done. simpl in Hn'.
    destruct (DatabaseNode i); [|injection Hn' as <-; by apply Hnone].
    destruct (mapR (replaceDatabaseInfo related) _); try done. simpl in Hn'.
    injection Hn' as <-. by apply Hnone. }
  destruct (UseKnowledge meta) eqn:Hkn.
  { destruct (Hcap ltac:(auto)) as [-> Hnone]. rewrite (Hnone (mkNode id ty d [])) by done.
    destruct (negb (nonEmpty (KnowledgeMap related))); [injection Hn' as <-; by apply Hnone|].
    destruct (inputsOf _) as [i| |]; try done. simpl in Hn'.
    destruct (Knowledge i); [|injection Hn' as <-; by apply Hnone].
    destruct (replaceDatasetParam _ _); try done. simpl in Hn'.
    injection Hn' as <-. by apply Hnone. }
  destruct (UsePlugin meta) eqn:Hpl.
  { destruct (Hcap ltac:(auto)) as [-> Hnone]. rewrite (Hnone (mkNode id ty d [])) by done.
    destruct (negb (nonEmpty (PluginMap related))); [injection Hn' as <-; by apply Hnone|].
    destruct (inputsOf _) as [i| |]; try done. simpl in Hn'.
    destruct (PluginAPIParam i); [|injection Hn' as <-; by apply Hnone].
    destruct (replaceAPIParams _ _); try done. simpl in Hn'.
    injection Hn' as <-. by apply Hnone. }
  clear Hcap. simpl in Hn.
  destruct (decide (IDStrToNodeType ty = NodeTypeSubWorkflow)) as [Hsw|Hsw].
  { rewrite (bool_decide_eq_true_2 _ Hsw) in Hn. simpl in Hn.
    apply bool_decide_eq_true in Hn as ->.
    pose proof (proj1 (Hsub ty) Hsw) as Hty.
    assert (Hrefs : forall n1, node_ID n1 = id -> node_Type n1 = ty -> node_Blocks n1 = [] ->
              references [n1]
              = match subWorkflowOf n1 with
                | Ok sw => [SubWorkflowReference id sw]
                | _ => []
                end).
    { intros n1 Hid Hty1 Hnil. rewrite references_leaf by done. unfold referencesOf.
      rewrite Hty1, Hid. by rewrite decide_True by done. }
    rewrite (Hrefs (mkNode id ty d [])) by done.
    destruct (nonEmpty m) eqn:Hne; simpl in Hn'.
    2:{ injection Hn' as <-. rewrite (Hrefs (mkNode id ty d [])) by done.
        by rewrite redirect_empty by (by apply nonEmpty_false). }
    unfold subWorkflowOf. destruct (inputsOf _) as [i| |] eqn:Hi; try done. simpl in Hn' |- *.
    destruct (SubWorkflow i) as [sw|] eqn:Hcfg.
    2:{ injection Hn' as <-. rewrite (Hrefs (mkNode id ty d [])) by done.
        unfold subWorkflowOf. rewrite Hi. simpl. by rewrite Hcfg. }
    unfold parseID in Hn'. destruct (ParseInt (WorkflowID sw)) as [x|] eqn:Hx; try done.
    simpl in Hn'. unfold redirect. simpl. rewrite Hx.
    destruct (m !! x) as [p|]; injection Hn' as <-; rewrite Hrefs by done.
    - done.
    - unfold subWorkflowOf, withBlocks. simpl. rewrite Hi. simpl. by rewrite Hcfg. }
  rewrite (bool_decide_eq_false_2 _ Hsw) in Hn. simpl in Hn.
  destruct (decide (IDStrToNodeType ty = NodeTypeLLM)) as [Hl|Hl].
  { rewrite (bool_decide_eq_true_2 _ Hl) in Hn. simpl in Hn.
    apply bool_decide_eq_true in Hn as ->.
    pose proof (proj1 (Hllm ty) Hl) as Hty.
    assert (Hnsub : ty <> IDStr NodeTypeSubWorkflow) by (intros E; by apply Hsub in E).
    assert (Hrefs : forall n1, node_ID n1 = id -> node_Type n1 = ty -> node_Blocks n1 = [] ->
              references [n1]
              = match inputsOf n1 with
                | Ok i => map (ToolReference id) (workflowListOf i)
                | _ => []
                end).
    { intros n1 Hid Hty1 Hnil. rewrite references_leaf by done. unfold referencesOf.
      rewrite Hty1, Hid. rewrite decide_False by done. by rewrite decide_True by done. }
    rewrite (Hrefs (mkNode id ty d [])) by done.
    destruct (inputsOf _) as [i| |] eqn:Hi; try done. simpl in Hn'.
    unfold workflowListOf at 1.
    destruct (LLM i) as [llm|] eqn:Hllmi.
    2:{ injection Hn' as <-. rewrite (Hrefs (mkNode id ty d [])) by done.
        rewrite Hi. unfold workflowListOf. by rewrite Hllmi. }
    destruct (llm_FCParam llm) as [fc|] eqn:Hfc.
    - destruct (replaceFCParam m related fc) as [fc'| |] eqn:Hrep; try done.
      simpl in Hn'. injection Hn' as <-. rewrite Hrefs by done.
      simpl. unfold workflowListOf. simpl. by apply replaceFCParam_redirect.
    - simpl in Hn'. injection Hn' as <-. rewrite Hrefs by done.
      unfold withBlocks. simpl. rewrite Hi. unfold workflowListOf. by rewrite Hllmi, Hfc. }
  destruct (mapR (replaceNode m related) bs) as [bs'| |] eqn:Hmap; try done.
  simpl in Hn'. injection Hn' as <-.
  rewrite !references_node. unfold withBlocks. cbn [node_Blocks node_Type node_ID node_Data].
  rewrite !referencesOf_other by done. simpl.
  by eapply replaceBlocks_references.
Qed.

(** Every reference of a canvas, at any depth of container Blocks, is
    redirected by the memo: two references to the same workflow of the memo
    end up with the same ID and version. *)
Lemma replaceRelated_references (nodes nodes' : list Node) :
  containerBlocks nodes = true ->
  replaceRelatedWorkflowOrExternalResourceInWorkflowNodes nodes m related = Ok nodes' ->
  references nodes' = map (redirect m) (references nodes).
Proof.
  intros Hshape Hrun. eapply replaceBlocks_references; [|exact Hrun].
  clear Hrun. induction nodes as [|b bs IH]; [done|].
  rewrite containerBlocks_cons in Hshape. apply andb_prop in Hshape as [? ?].
  constructor; [by apply replaceNode_references|auto].
Qed.
End RewriteProps.

Lemma canvasShape_decoded `{Reg : Registry} d canvas :
  canvasShape d = true -> UnmarshalCanvas (draft_Canvas d) = Ok canvas ->
  containerBlocks (Nodes canvas) = true.
Proof. unfold canvasShape. intros H Hc. by rewrite Hc in H. Qed.

Lemma draftsShape_lookup `{Reg : Registry} drafts x d :
  draftsShape drafts = true -> drafts !! x = Some d -> canvasShape d = true.
Proof.
  unfold draftsShape. intros H Hx.
  apply (proj1 (forallb_forall _ _) H (x, d)).
  apply list_elem_of_In. by apply elem_of_map_to_list.
Qed.

Lemma copies_app l1 l2 : copies (l1 ++ l2) = copies l1 ++ copies l2.
Proof. unfold copies. apply omap_app. Qed.

Lemma published_app l1 l2 : published (l1 ++ l2) = published l1 ++ published l2.
Proof. unfold published. apply omap_app. Qed.

Lemma treeIDs_eq wf : treeIDs wf = cw_id wf :: concat (map treeIDs (cw_refWfs wf)).
Proof.
  destruct wf as [id d refs]. simpl. f_equal.
  induction refs as [|c refs IH]; simpl; [done|]. by rewrite IH.
Qed.

Section ReplayProps.
Context `{Reg : Registry}.
Variable drafts : gmap Z DraftInfo.
Variable root : option (Z * DraftInfo).
Variable version : string.
Variable target : Z.

Local Abbreviation inOrder := (materialisedInOrder drafts root version target).
Local Abbreviation memo := (memoAfter version).

Lemma closureTree_eq wf :
  closureTree drafts root wf
  <-> draftOf drafts root (cw_id wf) (cw_draftInfo wf)
      /\ canvasShape (cw_draftInfo wf) = true
      /\ referencesWithin drafts (cw_draftInfo wf) (map cw_id (cw_refWfs wf))
      /\ Forall (closureTree drafts root) (cw_refWfs wf).
Proof.
  destruct wf as [id d refs]. cbn [closureTree cw_id cw_draftInfo cw_refWfs].
  assert (Hgo : (fix go (l : list copiedWorkflow) : Prop :=
                   match l with
                   | [] => True
                   | c :: l' => closureTree drafts root c /\ go l'
                   end) refs <-> Forall (closureTree drafts root) refs).
  { induction refs as [|c refs IH]; [by split; [constructor|]|].
    rewrite Forall_cons, IH. done. }
  rewrite Hgo. done.
Qed.

Lemma inOrder_length m cs ws : inOrder m cs ws -> length cs = length ws.
Proof.
  revert m ws. induction cs as [|c cs IH]; intros m [|w ws] H; simpl in *; try done.
  destruct H as [_ H]. f_equal. eauto.
Qed.

Lemma inOrder_app m cs1 ws1 cs2 ws2 :
  inOrder m cs1 ws1 -> inOrder (memo m cs1 ws1) cs2 ws2 ->
  inOrder m (cs1 ++ cs2) (ws1 ++ ws2).
Proof.
  revert m ws1. induction cs1 as [|c cs1 IH]; intros m [|w ws1] H1 H2; simpl in *; try done.
  destruct H1 as [Hc H1]. split; [done|]. by apply IH.
Qed.

Lemma memo_app m cs1 ws1 cs2 ws2 :
  length cs1 = length ws1 ->
  memo m (cs1 ++ cs2) (ws1 ++ ws2) = memo (memo m cs1 ws1) cs2 ws2.
Proof.
  revert m ws1. induction cs1 as [|c cs1 IH]; intros m [|w ws1] Hlen; simpl in *; try done.
  apply IH. lia.
Qed.

(** The memo only grows, by the workflows copied, each of them once. *)
Lemma inOrder_memo m cs ws :
  inOrder m cs ws ->
  m ⊆ memo m cs ws
  /\ NoDup cs.*1
  /\ (forall x, x ∈ cs.*1 -> m !! x = None)
  /\ (forall x, is_Some (memo m cs ws !! x) <-> is_Some (m !! x) \/ x ∈ cs.*1).
Proof.
  revert m ws. induction cs as [|c cs IH]; intros m [|w ws] H; simpl in *; try done.
  - split_and!; [done|constructor|by intros x Hx; apply elem_of_nil in Hx|].
    intros x. split; [by left|]. intros [?|Hx]; [done|by apply elem_of_nil in Hx].
  - destruct H as [[Hnone _] H]. destruct (IH _ _ H) as (Hsub & Hnd & Hfresh & Hdom).
    split_and!.
    + etrans; [|exact Hsub]. by apply insert_subseteq.
    + constructor; [|done]. intros Hin. specialize (Hfresh _ Hin).
      by rewrite lookup_insert_eq in Hfresh.
    + intros x [->|Hx]%elem_of_cons; [done|]. specialize (Hfresh _ Hx).
      destruct (decide (x = c.1)) as [->|Hne]; [by rewrite lookup_insert_eq in Hfresh|].
      by rewrite lookup_insert_ne in Hfresh.
    + intros x. rewrite Hdom, elem_of_cons.
      destruct (decide (x = c.1)) as [->|Hne].
      * rewrite lookup_insert_eq. split; [auto|]. intros _. left. by eexists.
      * rewrite lookup_insert_ne by done. naive_solver.
Qed.

Lemma publishedBy_app cs1 ws1 cs2 ws2 :
  length cs1 = length ws1 ->
  publishedBy version (cs1 ++ cs2) (ws1 ++ ws2)
  = publishedBy version cs1 ws1 ++ publishedBy version cs2 ws2.
Proof. intros Hlen. unfold publishedBy. by rewrite zip_with_app. Qed.

Lemma publishedBy_length cs ws :
  length cs = length ws -> length (publishedBy version cs ws) = length cs.
Proof. intros Hlen. unfold publishedBy. rewrite length_zip_with. lia. Qed.

Variable publish : bool.
Local Abbreviation inv := (walkInv drafts root version target publish).

Lemma walkInv_nil m arr : inv m arr [] (Ok (m, arr)) [].
Proof.
  split_and!; [constructor|by intros x Hx; apply elem_of_nil in Hx|done|].
  intros st' [= <-]. exists []. simpl. rewrite app_nil_r.
  split_and!; [done|done|by intros x Hx; apply elem_of_nil in Hx|by destruct publish].
Qed.

Lemma walkInv_fail m arr ids1 ids2 (r : result copyState) new :
  (forall st, r <> Ok st) -> inv m arr ids1 r new -> inv m arr ids2 r new.
Proof.
  intros Hr (Hnd & Hin & Hlen & _). split_and!; [done..|].
  intros st' ->. by destruct (Hr st').
Qed.

Lemma walkInv_ids m arr ids1 ids2 (r : result copyState) new :
  (forall x, x ∈ ids2 -> x ∈ ids1) -> inv m arr ids1 r new -> inv m arr ids2 r new.
Proof.
  intros Hsub (Hnd & Hin & Hlen & Hok). split_and!; [done..|].
  intros st' Hst'. destruct (Hok st' Hst') as (ws & ? & ? & Hids & ?).
  exists ws. split_and!; auto.
Qed.

Lemma walkInv_seq m arr ids1 ids2 st1 n1 r n2 :
  inv m arr ids1 (Ok st1) n1 ->
  inv st1.1 st1.2 ids2 r n2 ->
  inv m arr (ids1 ++ ids2) r (n1 ++ n2).
Proof.
  intros (Hnd1 & Hin1 & Hlen1 & Hok1) (Hnd2 & Hin2 & Hlen2 & Hok2).
  destruct (Hok1 st1 eq_refl) as (ws1 & -> & Hord1 & Hids1 & Hpub1). simpl in *.
  pose proof (inOrder_length _ _ _ Hord1) as Hl1.
  destruct (inOrder_memo _ _ _ Hord1) as (Hsub1 & _ & _ & Hdom1).
  unfold walkInv. rewrite copies_app, published_app, fmap_app, !length_app.
  split_and!.
  - apply NoDup_app. split_and!; [done| |done].
    intros x Hx1 Hx2. pose proof (Hin2 x Hx2) as Hnone.
    assert (is_Some (memo m (copies n1) ws1 !! x)) as [? ?] by (apply Hdom1; by right).
    congruence.
  - intros x [Hx|Hx]%elem_of_app; [by apply Hin1|].
    eapply lookup_weaken_None; [by apply Hin2|done].
  - lia.
  - intros st' ->. destruct (Hok2 st' eq_refl) as (ws2 & -> & Hord2 & Hids2 & Hpub2).
    simpl in *. exists (ws1 ++ ws2). rewrite memo_app by done. split_and!.
    + by rewrite app_assoc.
    + by apply inOrder_app.
    + intros x [Hx|Hx]%elem_of_app; [|by apply Hids2].
      destruct (Hids1 x Hx) as [p Hp]. exists p.
      destruct (inOrder_memo _ _ _ Hord2) as (Hsub2 & _). by eapply lookup_weaken.
    + rewrite Hpub1, Hpub2. destruct publish; [|done]. by rewrite publishedBy_app.
Qed.
End ReplayProps.

Section MaterialiseProps.
Context `{Reg : Registry} {S : Type}.
Variable drafts : gmap Z DraftInfo.
Variable root : option (Z * DraftInfo).
Variable version : string.
Variable target : Z.
Variable publish : bool.
Variable related : ExternalResourceRelated.
Variable step : copiedWorkflow -> copyState -> M S copyState.
Hypothesis tags : referenceTags.
Hypothesis step_ok : stepSpec version target publish related step.

Local Abbreviation inv := (walkInv drafts root version target publish).

Lemma foldM_walk (l : list copiedWorkflow) :
  Forall (fun c => forall m arr, logs (materialise step c (m, arr)) (inv m arr (treeIDs c))) l ->
  forall m arr,
    logs (foldM (materialise step) l (m, arr)) (inv m arr (concat (map treeIDs l))).
Proof.
  induction 1 as [|c l Hc _ IH]; intros m arr.
  - apply logs_ret, walkInv_nil.
  - cbn [foldM map concat]. eapply logs_bind; [apply Hc| | |].
    + intros [m1 arr1] n1 H1. eapply logs_weaken; [apply IH|].
      intros r n2 H2. by eapply walkInv_seq.
    + intros e n He. by eapply walkInv_fail.
    + intros n He. by eapply walkInv_fail.
Qed.

Lemma materialise_walk (wf : copiedWorkflow) :
  closureTree drafts root wf ->
  forall m arr, logs (materialise step wf (m, arr)) (inv m arr (treeIDs wf)).
Proof.
  induction wf as [id d refs IH] using copiedWorkflow_ind'. intros Htree m arr.
  apply closureTree_eq in Htree as (Hdraft & Hshape & Hwithin & Hsub).
  cbn [cw_id cw_draftInfo cw_refWfs] in *.
  rewrite treeIDs_eq. cbn [materialise cw_refWfs cw_id].
  assert (HF : Forall (fun c => forall m arr,
                 logs (materialise step c (m, arr)) (inv m arr (treeIDs c))) refs).
  { clear -IH Hsub. induction IH as [|c l Hc _ IHl]; [done|].
    apply Forall_cons in Hsub as [? ?]. constructor; auto. }
  eapply logs_bind; [by apply foldM_walk| | |].
  - intros [m1 arr1] n1 H1. eapply logs_weaken; [apply step_ok|].
    cbn [cw_id]. intros r n2 H2.
    apply walkInv_ids with (ids1 := concat (map treeIDs refs) ++ [id]).
    { intros x [->|Hx]%elem_of_cons; apply elem_of_app; [right; by left|by left]. }
    eapply walkInv_seq; [exact H1|]. simpl.
    destruct H1 as (_ & _ & _ & Hok1).
    destruct (Hok1 _ eq_refl) as (ws1 & [= -> ->] & Hord1 & Hids1 & _). simpl in Hids1.
    set (m1 := memoAfter version m (copies n1) ws1) in *.
    destruct (m1 !! id) as [p|] eqn:Hid.
    + destruct H2 as [-> ->]. split_and!; [constructor|by intros x Hx; apply elem_of_nil in Hx|done|].
      intros st' [= <-]. exists []. simpl. rewrite app_nil_r. split_and!; [done|done| |by destruct publish].
      intros x ->%list_elem_of_singleton. by eexists.
    + destruct H2 as (Hlen2 & Hcopied & Hok2). split_and!.
      * destruct Hcopied as [->|[p ->]]; [constructor|apply NoDup_singleton].
      * intros x Hx. destruct Hcopied as [Hc|[p Hc]]; rewrite Hc in Hx;
          [by apply elem_of_nil in Hx|].
        by apply list_elem_of_singleton in Hx as ->.
      * done.
      * intros st' ->. destruct (Hok2 _ eq_refl) as (canvas & nodes & cwf & Hcanvas & Hnodes & Hc & Hp & ->).
        exists [cwf]. rewrite Hc, Hp. simpl. split_and!; [done| |done| |by destruct publish].
        -- split; [done|]. exists d, canvas, nodes. simpl.
           split_and!; [done|done| |done|].
           ++ intros r0 y Hr0 Hy Hdy. apply Hids1.
              specialize (Hwithin canvas Hcanvas r0 y Hr0 Hy Hdy).
              apply list_elem_of_In, in_map_iff in Hwithin as (c & <- & Hc').
              apply list_elem_of_In, in_concat. exists (treeIDs c).
              split; [by apply in_map|]. rewrite treeIDs_eq. by left.
           ++ eapply replaceRelated_references; [done| |done].
              by eapply canvasShape_decoded.
        -- intros x ->%list_elem_of_singleton. rewrite lookup_insert_eq. by eexists.
  - intros e n He. by eapply walkInv_fail.
  - intros n He. by eapply walkInv_fail.
Qed.
End MaterialiseProps.

Section CopyProps.
Context `{Reg : Registry} {S : Type} `{Repo : Repository S} `{Col : Collaborators S}.

(** [impl.CopyWorkflow] calls the repository's [CopyWorkflow] once and
    never creates a version. *)
Lemma CopyWorkflow_logs (workflowID : Z) (policy : CopyWorkflowPolicy) :
  logs (CopyWorkflow workflowID policy) (fun _ new =>
    copies new = [(workflowID, policy)] /\ published new = []).
Proof.
  unfold CopyWorkflow.
  eapply logs_bind with (P := fun _ n => n = [CallCopyWorkflow workflowID policy]).
  - by apply logs_call.
  - intros wf n1 ->. destruct (decide (wf_Mode wf = WorkflowMode_ChatFlow)); [|by apply logs_ret].
    intros w.
    destruct (repo_GetChatFlowRoleConfig workflowID "" (store w)) as [[[role err] isExist] s'].
    destruct isExist; simpl; [|by eexists [_]].
    destruct err as [e'|]; [by eexists [_]|].
    destruct role as [role|]; [|by eexists [_]].
    unfold bind, call. simpl.
    destruct (repo_CreateChatFlowRoleConfig _ s') as [[a|e'] s'']; simpl;
      eexists [_; _]; by rewrite <- app_assoc.
  - by intros e n ->.
  - by intros n ->.
Qed.

(** Closes the branches of a step that end without a value. *)
Ltac step_stops :=
  intros; cbv beta in *;
  repeat match goal with
         | H : _ /\ _ |- _ => destruct H
         | H : exists _, _ |- _ => destruct H
         | c : Call |- _ => destruct c; try done; clear c
         end;
  subst; simpl;
  rewrite ?app_nil_r, ?copies_app, ?published_app, ?length_app;
  repeat match goal with
         | H : copies _ = _ |- _ => rewrite H
         | H : published _ = _ |- _ => rewrite H
         end;
  simpl; split_and!; [lia|(by left) || (right; by eexists)|done].

Lemma copyAndPublishOne_spec related :
  stepSpec workflowPublishVersion 0 true related (copyAndPublishOne related).
Proof.
  intros wf m arr. unfold copyAndPublishOne.
  destruct (m !! cw_id wf) as [p|] eqn:Hm; [by apply logs_ret|].
  eapply logs_bind with (P := fun r n => n = [] /\ r = UnmarshalCanvas (draft_Canvas (cw_draftInfo wf)));
    [by apply logs_lift| | |]; [|step_stops..].
  intros canvas ? [-> Hcanvas].
  eapply logs_bind with (P := fun r n => n = []
      /\ r = replaceRelatedWorkflowOrExternalResourceInWorkflowNodes (Nodes canvas) m related);
    [by apply logs_lift| | |]; [|step_stops..].
  intros nodes ? [-> Hnodes].
  eapply logs_bind; [apply CopyWorkflow_logs| | |]; [|step_stops..].
  intros cwf n1 [Hc1 Hv1].
  eapply logs_bind with (P := fun _ n => n = []); [by apply logs_lift| | |]; [|step_stops..].
  intros wfRefs ? ->.
  eapply logs_bind with (P := fun _ n => n = []); [| |step_stops..].
  { unfold MustGetUIDFromCtx. destruct ctxUID; [by apply logs_ret|by apply logs_panic]. }
  intros uid ? ->.
  eapply logs_bind with (P := fun _ n =>
      copies n = [] /\ published n = [(wf_ID cwf, workflowPublishVersion,
                                       MarshalCanvas (mkCanvas nodes))]);
    [| |step_stops..].
  { unfold CreateVersion. apply logs_call; intros; by split. }
  intros [] n2 (Hc2 & Hv2). apply logs_ret. simpl.
  rewrite ?app_nil_r, copies_app, published_app, !length_app, Hc1, Hv1, Hc2, Hv2.
  simpl. split_and!; [lia|right; by eexists|].
  intros st' [= <-]. by exists canvas, nodes, cwf.
Qed.

Lemma duplicateOne_spec targetAppID related :
  stepSpec "" targetAppID false related (duplicateOne targetAppID related).
Proof.
  intros wf m arr. unfold duplicateOne.
  destruct (m !! cw_id wf) as [p|] eqn:Hm; [by apply logs_ret|].
  eapply logs_bind with (P := fun r n => n = [] /\ r = UnmarshalCanvas (draft_Canvas (cw_draftInfo wf)));
    [by apply logs_lift| | |]; [|step_stops..].
  intros canvas ? [-> Hcanvas].
  eapply logs_bind with (P := fun r n => n = []
      /\ r = replaceRelatedWorkflowOrExternalResourceInWorkflowNodes (Nodes canvas) m related);
    [by apply logs_lift| | |]; [|step_stops..].
  intros nodes ? [-> Hnodes].
  eapply logs_bind; [apply CopyWorkflow_logs| | |]; [|step_stops..].
  intros cwf n1 [Hc1 Hv1]. apply logs_ret. simpl.
  rewrite ?app_nil_r, Hc1, Hv1. split_and!; [simpl; lia|right; by eexists|].
  intros st' [= <-]. by exists canvas, nodes, cwf.
Qed.
End CopyProps.

Section WalkProps.
Context `{Reg : Registry} {S : Type} `{Repo : Repository S} `{Col : Collaborators S}.

Lemma foldM_ext {A St} (f g : A -> St -> M S St) (l : list A) :
  Forall (fun x => forall st w, f x st w = g x st w) l ->
  forall st w, foldM f l st w = foldM g l st w.
Proof.
  induction 1 as [|x l Hx _ IH]; intros st w; [done|].
  simpl. unfold bind. rewrite Hx. destruct (g x st w) as [[st'| |] w']; auto.
Qed.

(** [copyAndPublishWorkflowProcess] and [duplicateWorkflow] are the walk
    [materialise] with their own steps. *)
Lemma copyAndPublishWorkflowProcess_materialise related wf :
  forall st w,
    copyAndPublishWorkflowProcess related wf st w
    = materialise (copyAndPublishOne related) wf st w.
Proof.
  induction wf as [id d refs IH] using copiedWorkflow_ind'. intros st w.
  cbn [copyAndPublishWorkflowProcess materialise cw_refWfs]. unfold bind.
  by rewrite (foldM_ext _ _ _ IH).
Qed.

Lemma duplicateWorkflow_materialise targetAppID related wf :
  forall st w,
    duplicateWorkflow targetAppID related wf st w
    = materialise (duplicateOne targetAppID related) wf st w.
Proof.
  induction wf as [id d refs IH] using copiedWorkflow_ind'. intros st w.
  cbn [duplicateWorkflow materialise cw_refWfs]. unfold bind.
  by rewrite (foldM_ext _ _ _ IH).
Qed.
End WalkProps.

Section BuildProps.
Context `{Reg : Registry} {St : Type}.
Variable drafts : gmap Z DraftInfo.
Variable root : option (Z * DraftInfo).
Variable verify : Z -> DraftInfo -> St -> result St.
Hypothesis tags : referenceTags.
Hypothesis shape : draftsShape drafts = true.

Lemma buildReference_S fuel nodes refWfs st :
  buildReference drafts verify (Datatypes.S fuel) nodes refWfs st
  = nodesStep drafts verify (buildReference drafts verify fuel) nodes refWfs st.
Proof. reflexivity. Qed.

(** What a run of the closure over [nodes] adds to [refWfs]: reference
    trees of the application, among them every draft [nodes] refer to. *)
Definition buildPost (nodes : list Node) (refWfs refs' : list copiedWorkflow) : Prop :=
  exists added,
    refs' = refWfs ++ added
    /\ Forall (closureTree drafts root) added
    /\ forall r y, r ∈ references nodes -> referredID r = Some y ->
         is_Some (drafts !! y) -> y ∈ map cw_id refs'.

Definition buildSpec
    (rec : list Node -> list copiedWorkflow -> St
           -> option (result (list copiedWorkflow * St))) : Prop :=
  forall nodes refWfs st refs' st',
    containerBlocks nodes = true ->
    rec nodes refWfs st = Some (Ok (refs', st')) ->
    buildPost nodes refWfs refs'.

Section Step.
Variable rec : list Node -> list copiedWorkflow -> St
               -> option (result (list copiedWorkflow * St)).
Hypothesis rec_ok : buildSpec rec.

Lemma inRefWfs_elem wfID refWfs :
  inRefWfs wfID refWfs = true -> wfID ∈ map cw_id refWfs.
Proof.
  unfold inRefWfs. intros (c & Hc & Hid)%existsb_exists.
  apply bool_decide_eq_true in Hid as <-. apply list_elem_of_In, in_map. done.
Qed.

Lemma referenceStep_post wfID refWfs st f :
  referenceStep drafts verify rec wfID refWfs st = Some (Ok f) ->
  let r := match f with Through (r, _) | Continue (r, _) => r end in
  exists added,
    r = refWfs ++ added
    /\ Forall (closureTree drafts root) added
    /\ (is_Some (drafts !! wfID) -> wfID ∈ map cw_id r).
Proof.
  unfold referenceStep. destruct (drafts !! wfID) as [v|] eqn:Hv.
  2:{ intros [= <-]. exists []. rewrite app_nil_r. split_and!; [done|done|].
      by intros [? ?]. }
  destruct (inRefWfs wfID refWfs) eqn:Hin.
  { intros [= <-]. exists []. rewrite app_nil_r. split_and!; [done|done|].
    intros _. by apply inRefWfs_elem. }
  destruct (verify wfID v st) as [st1| |]; simpl; try done.
  destruct (UnmarshalCanvas (draft_Canvas v)) as [subCanvas| |] eqn:Hcanvas; simpl; try done.
  destruct (rec (Nodes subCanvas) [] st1) as [[[sub st2]| |]|] eqn:Hrec; simpl; try done.
  intros [= <-]. simpl.
  pose proof (draftsShape_lookup _ _ _ shape Hv) as Hvshape.
  destruct (rec_ok _ _ _ _ _ (canvasShape_decoded _ _ Hvshape Hcanvas) Hrec)
    as (added & Hadded & Htrees & Hcomplete).
  simpl in Hadded. subst added.
  exists [mkCopied wfID v sub]. split_and!; [done| |].
  - constructor; [|done]. apply closureTree_eq. cbn [cw_id cw_draftInfo cw_refWfs].
    split_and!; [by left|done| |done].
    intros canvas Hc. rewrite Hcanvas in Hc. injection Hc as <-. done.
  - intros _. rewrite map_app. apply elem_of_app. right. simpl. by left.
Qed.

Lemma toolsStep_post l :
  forall refWfs st r s,
    toolsStep drafts verify rec l refWfs st = Some (Ok (r, s)) ->
    exists added,
      r = refWfs ++ added
      /\ Forall (closureTree drafts root) added
      /\ forall w y, w ∈ l -> ParseInt (wfc_WorkflowID w) = Some y ->
           is_Some (drafts !! y) -> y ∈ map cw_id r.
Proof.
  induction l as [|w l IH]; intros refWfs st r s; simpl.
  - intros [= <- <-]. exists []. rewrite app_nil_r. split_and!; [done|done|].
    intros w y Hw. by apply elem_of_nil in Hw.
  - unfold parseID. destruct (ParseInt (wfc_WorkflowID w)) as [wfID|] eqn:Hp; simpl; [|done].
    destruct (referenceStep drafts verify rec wfID refWfs st) as [[f| |]|] eqn:Hf;
      simpl; try done.
    destruct (referenceStep_post _ _ _ _ Hf) as (a1 & Hr1 & Ht1 & Hc1).
    assert (Hnext : forall r1 s1,
              match f with Through (r, _) | Continue (r, _) => r end = r1 ->
              toolsStep drafts verify rec l r1 s1 = Some (Ok (r, s)) ->
              exists added,
                r = refWfs ++ added
                /\ Forall (closureTree drafts root) added
                /\ forall w' y, w' ∈ w :: l -> ParseInt (wfc_WorkflowID w') = Some y ->
                     is_Some (drafts !! y) -> y ∈ map cw_id r).
    { intros r1 s1 Hr Hrun. rewrite Hr in Hr1, Hc1.
      destruct (IH _ _ _ _ Hrun) as (a2 & -> & Ht2 & Hc2). subst r1.
      exists (a1 ++ a2). rewrite app_assoc. split_and!; [done|by apply Forall_app|].
      intros w' y [->|Hw']%elem_of_cons Hy Hd; [|by eapply Hc2].
      rewrite Hp in Hy. injection Hy as <-. rewrite map_app. apply elem_of_app. left. auto. }
    destruct f as [[r1 s1]|[r1 s1]]; intros Hrun; (eapply Hnext; [reflexivity|exact Hrun]).
Qed.

Lemma tags_differ : IDStr NodeTypeSubWorkflow <> IDStr NodeTypeLLM.
Proof.
  destruct tags as (Hsub & Hllm & _). intros E.
  assert (H1 : IDStrToNodeType (IDStr NodeTypeSubWorkflow) = NodeTypeSubWorkflow) by by apply Hsub.
  assert (H2 : IDStrToNodeType (IDStr NodeTypeSubWorkflow) = NodeTypeLLM) by by apply Hllm.
  congruence.
Qed.

(** Sub-workflow and LLM nodes of a canvas of the shape have no Blocks. *)
Lemma reference_node_leaf node :
  containerOnly node = true ->
  node_Type node = IDStr NodeTypeSubWorkflow \/ node_Type node = IDStr NodeTypeLLM ->
  node_Blocks node = [].
Proof.
  destruct tags as (Hsub & Hllm & _). unfold containerOnly.
  intros [H|H]%orb_prop Hty; [|by apply bool_decide_eq_true in H].
  apply andb_prop in H as [[_ H1]%andb_prop H2].
  apply negb_true_iff, bool_decide_eq_false in H1, H2.
  destruct Hty as [E|E]; [by apply Hsub in E|by apply Hllm in E].
Qed.

Lemma buildPost_nil refWfs : buildPost [] refWfs refWfs.
Proof.
  exists []. rewrite app_nil_r. split_and!; [done|done|].
  intros r y Hr. by apply elem_of_nil in Hr.
Qed.

Lemma nodesStep_post nodes :
  forall refWfs st refs' st',
    containerBlocks nodes = true ->
    nodesStep drafts verify rec nodes refWfs st = Some (Ok (refs', st')) ->
    buildPost nodes refWfs refs'.
Proof.
  induction nodes as [|node rest IH]; intros refWfs st refs' st' Hshape.
  { simpl. intros [= <- <-]. apply buildPost_nil. }
  rewrite containerBlocks_cons, containerBlocks_node in Hshape.
  apply andb_prop in Hshape as [[Hnode Hblocks]%andb_prop Hrest].
  (* what is left to do once the node and its Blocks are done *)
  assert (Hgo : forall r2 s2 a,
            r2 = refWfs ++ a ->
            Forall (closureTree drafts root) a ->
            (forall r y, r ∈ references [node] -> referredID r = Some y ->
               is_Some (drafts !! y) -> y ∈ map cw_id r2) ->
            nodesStep drafts verify rec rest r2 s2 = Some (Ok (refs', st')) ->
            buildPost (node :: rest) refWfs refs').
  { intros r2 s2 a -> Ha Hc Hrun.
    destruct (IH _ _ _ _ Hrest Hrun) as (a' & -> & Ha' & Hc').
    exists (a ++ a'). rewrite app_assoc. split_and!; [done|by apply Forall_app|].
    intros r y Hr Hy Hd. rewrite references_cons in Hr.
    apply elem_of_app in Hr as [Hr|Hr]; [|by eapply Hc'].
    rewrite map_app. apply elem_of_app. left. by eapply Hc. }
  cbn [nodesStep].
  destruct (decide (node_Type node = IDStr NodeTypeSubWorkflow)) as [Hsw|Hsw].
  - pose proof (reference_node_leaf node Hnode ltac:(by left)) as Hnil.
    assert (Hrefs : references [node]
                    = match subWorkflowOf node with
                      | Ok sw => [SubWorkflowReference (node_ID node) sw]
                      | _ => []
                      end).
    { rewrite references_leaf by done. unfold referencesOf. by rewrite decide_True. }
    destruct (subWorkflowOf node) as [sw| |] eqn:Hcfg; simpl; try done.
    unfold parseID. destruct (ParseInt (WorkflowID sw)) as [wfID|] eqn:Hp; simpl; [|done].
    destruct (referenceStep drafts verify rec wfID refWfs st) as [[f| |]|] eqn:Hf;
      simpl; try done.
    destruct (referenceStep_post _ _ _ _ Hf) as (a1 & Hr1 & Ht1 & Hc1).
    assert (Hone : forall r1,
              match f with Through (r, _) | Continue (r, _) => r end = r1 ->
              forall r y, r ∈ references [node] -> referredID r = Some y ->
                is_Some (drafts !! y) -> y ∈ map cw_id r1).
    { intros r1 <- r y Hr Hy Hd. rewrite Hrefs in Hr.
      apply list_elem_of_singleton in Hr as ->. simpl in Hy. rewrite Hp in Hy.
      injection Hy as <-. auto. }
    destruct f as [[r1 s1]|[r1 s1]]; simpl in Hr1.
    + rewrite decide_False by (rewrite Hsw; apply tags_differ). simpl. rewrite Hnil. simpl.
      intros Hrun. eapply Hgo; [exact Hr1|done|by apply Hone|exact Hrun].
    + intros Hrun. eapply Hgo; [exact Hr1|done|by apply Hone|exact Hrun].
  - simpl.
    destruct (decide (node_Type node = IDStr NodeTypeLLM)) as [Hl|Hl].
    + pose proof (reference_node_leaf node Hnode ltac:(by right)) as Hnil.
      assert (Hrefs : references [node]
                      = match inputsOf node with
                        | Ok i => map (ToolReference (node_ID node)) (workflowListOf i)
                        | _ => []
                        end).
      { rewrite references_leaf by done. unfold referencesOf.
        rewrite decide_False by done. by rewrite decide_True. }
      destruct (inputsOf node) as [i| |] eqn:Hi; simpl; try done.
      destruct (toolsStep drafts verify rec (workflowListOf i) refWfs st)
        as [[[r1 s1]| |]|] eqn:Htools; simpl; try done.
      destruct (toolsStep_post _ _ _ _ _ Htools) as (a1 & -> & Ht1 & Hc1).
      rewrite Hnil. simpl. intros Hrun. eapply Hgo; [done|done| |exact Hrun].
      intros r y Hr Hy Hd. rewrite Hrefs in Hr.
      apply list_elem_of_In, in_map_iff in Hr as (w & <- & Hw). simpl in Hy.
      eapply Hc1; [by apply list_elem_of_In|done..].
    + assert (Hrefs : references [node] = references (node_Blocks node)).
      { rewrite references_node. unfold referencesOf.
        rewrite decide_False by done. by rewrite decide_False. }
      destruct (node_Blocks node) as [|b bs] eqn:Hbs; simpl.
      * intros Hrun. eapply (Hgo refWfs st []); [by rewrite app_nil_r|done| |exact Hrun].
        intros r y Hr. rewrite Hrefs in Hr. by apply elem_of_nil in Hr.
      * destruct (rec (b :: bs) refWfs st) as [[[r2 s2]| |]|] eqn:Hrec; simpl; try done.
        destruct (rec_ok _ _ _ _ _ Hblocks Hrec) as (a & -> & Ha & Hc).
        intros Hrun. eapply Hgo; [done|done| |exact Hrun].
        intros r y Hr. rewrite Hrefs in Hr. by apply Hc.
Qed.
End Step.

Lemma buildReference_spec fuel : buildSpec (buildReference drafts verify fuel).
Proof.
  induction fuel as [|fuel IH]; intros nodes refWfs st refs' st' Hshape Hrun; [done|].
  rewrite buildReference_S in Hrun. by eapply nodesStep_post.
Qed.
End BuildProps.

Section ClosureProps.
Context `{Reg : Registry} {S : Type} `{Repo : Repository S} `{Col : Collaborators S}.
Hypothesis tags : referenceTags.

(** The tree [validateAndBuildWorkflowReference] and
    [buildWorkflowReference] build from the canvas of a draft is a reference
    tree of the application. *)
Lemma built_closureTree {St} (verify : Z -> DraftInfo -> St -> result St)
    (drafts : gmap Z DraftInfo) root fuel workflowID draftVersion draftCanvas st refWfs st' :
  draftsShape drafts = true ->
  canvasShape draftVersion = true ->
  draftOf drafts root workflowID draftVersion ->
  UnmarshalCanvas (draft_Canvas draftVersion) = Ok draftCanvas ->
  buildReference drafts verify fuel (Nodes draftCanvas) [] st = Some (Ok (refWfs, st')) ->
  closureTree drafts root (mkCopied workflowID draftVersion refWfs).
Proof.
  intros Hshape Hroot Hdraft Hcanvas Hbuild.
  destruct (buildReference_spec drafts root verify tags Hshape fuel _ _ _ _ _
              (canvasShape_decoded _ _ Hroot Hcanvas) Hbuild)
    as (added & Hadded & Htrees & Hcomplete).
  simpl in Hadded. subst added.
  apply closureTree_eq. cbn [cw_id cw_draftInfo cw_refWfs]. split_and!; [done..| |done].
  intros canvas Hc. rewrite Hcanvas in Hc. by injection Hc as <-.
Qed.

Lemma run_logs {A} (m : M S A) (Q : result A -> list Call -> Prop) (w : World S) r w' :
  logs m Q -> m w = (r, w') -> exists new, calls w' = calls w ++ new /\ Q r new.
Proof. intros Hm Hrun. destruct (Hm w) as (new & Hnew & HQ). rewrite Hrun in *. eauto. Qed.

(** The reads at the head of [CopyWorkflowFromAppToLibrary]. *)
Lemma CopyWorkflowFromAppToLibrary_reads (workflowID appID : Z) (w : World S)
    draftVersion s1 drafts names s2 :
  repo_DraftV2 workflowID "" (store w) = (Reply draftVersion, s1) ->
  repo_GetDraftWorkflowsByAppID appID s1 = (Reply (drafts, names), s2) ->
  (draftVersion <- DraftV2 workflowID "" ;;
   issues <- validate (mkValidateTreeConfig (draft_Canvas draftVersion) (Some appID)) ;;
   drafts <- GetDraftWorkflowsByAppID appID ;;
   ret (draftVersion, issues, drafts)) w
  = match validateWorkflowTree (mkValidateTreeConfig (draft_Canvas draftVersion) (Some appID)) s1 with
    | Reply issues =>
        (Ok (draftVersion, issues, (drafts, names)),
         mkWorld s2 (calls w ++ [CallDraftV2 workflowID ""; CallGetDraftWorkflowsByAppID appID]))
    | Fail e => (Err e, mkWorld s1 (calls w ++ [CallDraftV2 workflowID ""]))
    end.
Proof.
  intros Hd Hds. unfold bind at 1, DraftV2. rewrite (call_reply _ _ _ _ _ Hd).
  unfold bind at 1, validate, liftReply. cbn [store].
  destruct (validateWorkflowTree _ s1) as [issues|e]; [|done].
  unfold bind, GetDraftWorkflowsByAppID, call, ret. cbn [store calls]. rewrite Hds.
  by rewrite <- app_assoc.
Qed.

Lemma CopyWorkflowFromAppToLibrary_closure (fuel : nat) (workflowID appID : Z)
    (related : ExternalResourceRelated) (w : World S)
    draftVersion s1 drafts names s2 r w' :
  repo_DraftV2 workflowID "" (store w) = (Reply draftVersion, s1) ->
  repo_GetDraftWorkflowsByAppID appID s1 = (Reply (drafts, names), s2) ->
  canvasShape draftVersion = true ->
  draftsShape drafts = true ->
  CopyWorkflowFromAppToLibrary fuel workflowID appID related w = Some (r, w') ->
  exists new,
    calls w' = calls w ++ new /\ copiedToLibrary drafts workflowID draftVersion r new.
Proof.
  intros Hd Hds Hroot Hshape. unfold CopyWorkflowFromAppToLibrary.
  rewrite (CopyWorkflowFromAppToLibrary_reads _ _ _ _ _ _ _ _ Hd Hds).
  (* the runs that end before a copy is made *)
  assert (Hnone : forall (r0 : result CopyWorkflowFromAppToLibraryResult) s0 (pre : list Call),
            (forall res, r0 = Ok res -> ValidateIssues res <> []) ->
            copies pre = [] -> published pre = [] ->
            Some (r0, mkWorld s0 (calls w ++ pre)) = Some (r, w') ->
            exists new,
              calls w' = calls w ++ new /\ copiedToLibrary drafts workflowID draftVersion r new).
  { intros r0 s0 pre Hr0 Hc Hp [= <- <-]. exists pre. split; [done|].
    unfold copiedToLibrary. rewrite Hc, Hp. split_and!; [constructor|done|].
    intros res Hres Hno. by destruct (Hr0 res Hres). }
  destruct (validateWorkflowTree _ s1) as [issues|e]; [|by apply Hnone].
  destruct (UnmarshalCanvas (draft_Canvas draftVersion)) as [draftCanvas| |] eqn:Hcanvas;
    [|by apply Hnone..].
  unfold validateAndBuildWorkflowReference. cbn [store].
  destruct (buildReference _ _ _ _ _ _) as [[[refWfs [vIssues' verified]]| |]|] eqn:Hbuild;
    [|by apply Hnone..|done].
  destruct vIssues' as [|i vIssues'].
  2:{ apply Hnone; [|done..]. by intros res [= <-]. }
  pose proof (built_closureTree _ drafts (Some (workflowID, draftVersion)) _ workflowID _ _ _ _ _
                Hshape Hroot ltac:(by right) Hcanvas Hbuild) as Htree.
  set (w2 := mkWorld s2 _).
  destruct (copyAndPublishWorkflowProcess related (mkCopied workflowID draftVersion refWfs)
              (∅, []) w2) as [rw w3] eqn:Hwalk.
  rewrite copyAndPublishWorkflowProcess_materialise in Hwalk.
  destruct (run_logs _ _ _ _ _
              (materialise_walk drafts (Some (workflowID, draftVersion)) workflowPublishVersion 0
                 true related (copyAndPublishOne related) tags (copyAndPublishOne_spec related)
                 _ Htree ∅ []) Hwalk) as (new & Hnew & Hnd & Hfresh & Hlen & Hok).
  unfold bind. rewrite copyAndPublishWorkflowProcess_materialise, Hwalk.
  intros Hrun.
  assert (Hrw : r = match rw with
                    | Ok st => Ok (mkCopyResult st.1 [] st.2)
                    | Err e => Err e
                    | Panic => Panic
                    end /\ w' = w3).
  { destruct rw; by injection Hrun as <- <-. }
  destruct Hrw as [-> ->]. clear Hrun.
  exists ([CallDraftV2 workflowID ""; CallGetDraftWorkflowsByAppID appID] ++ new).
  split; [by rewrite Hnew, app_assoc|].
  unfold copiedToLibrary. rewrite copies_app, published_app. simpl.
  split_and!; [done..|].
  intros res Hres _. destruct rw as [st| |]; try done. injection Hres as <-.
  destruct (Hok st eq_refl) as (cwfs & -> & Hord & Hids & Hpub). simpl in *.
  split_and!; [done|done| |done].
  apply Hids. by left.
Qed.
End ClosureProps.

Section DuplicateProps.
Context `{Reg : Registry} {S : Type} `{Repo : Repository S} `{Col : Collaborators S}.
Hypothesis tags : referenceTags.

Lemma inOrder_drafts drafts root version target m cs ws :
  materialisedInOrder drafts root version target m cs ws ->
  forall x, x ∈ cs.*1 -> exists d, draftOf drafts root x d.
Proof.
  revert m ws. induction cs as [|c cs IH]; intros m [|cwf ws] H x Hx; simpl in *; try done.
  - by apply elem_of_nil in Hx.
  - destruct H as [[_ (d & _ & _ & Hd & _)] H].
    apply elem_of_cons in Hx as [->|Hx]; [by exists d|]. by eapply IH.
Qed.

(** The loop of [DuplicateWorkflowsByAppID] over the drafts [todo]. *)
Lemma duplicateAll_walk (fuel : nat) (drafts : gmap Z DraftInfo) (target : Z)
    (related : ExternalResourceRelated) (todo : list (Z * DraftInfo)) :
  draftsShape drafts = true ->
  (forall x d, (x, d) ∈ todo -> drafts !! x = Some d) ->
  forall m arr (w : World S) r w',
    duplicateAll fuel drafts target related todo (m, arr) w = Some (r, w') ->
    exists new,
      calls w' = calls w ++ new
      /\ walkInv drafts None "" target false m arr todo.*1 r new.
Proof.
  intros Hshape. induction todo as [|[x d] rest IH]; intros Htodo m arr w r w'.
  { simpl. intros [= <- <-]. exists []. rewrite app_nil_r. split; [done|apply walkInv_nil]. }
  assert (Hrest : forall x d, (x, d) ∈ rest -> drafts !! x = Some d).
  { intros x0 d0 H0. apply Htodo. by right. }
  specialize (IH Hrest). cbn [duplicateAll fst].
  destruct (m !! x) as [p|] eqn:Hx.
  { intros Hrun. destruct (IH _ _ _ _ _ Hrun) as (new & Hnew & Hnd & Hfresh & Hlen & Hok).
    exists new. split; [done|]. split_and!; [done..|].
    intros st' Hst'. destruct (Hok st' Hst') as (ws & -> & Hord & Hids & Hpub).
    exists ws. split_and!; [done|done| |done].
    intros y [->|Hy]%elem_of_cons; [|by apply Hids]. simpl.
    destruct (inOrder_memo _ _ _ _ _ _ _ Hord) as (Hsub & _). exists p.
    by eapply lookup_weaken. }
  unfold duplicateWorkflowProcess.
  assert (Hstop : forall r0 : result copyState,
            (forall st, r0 <> Ok st) ->
            Some (r0, w) = Some (r, w') ->
            exists new, calls w' = calls w ++ new
                        /\ walkInv drafts None "" target false m arr ((x, d) :: rest).*1 r new).
  { intros r0 Hr0 [= <- <-]. exists []. rewrite app_nil_r. split; [done|].
    split_and!; [constructor|by intros y Hy; apply elem_of_nil in Hy|done|].
    intros st' ->. by destruct (Hr0 st'). }
  destruct (UnmarshalCanvas (draft_Canvas d)) as [draftCanvas| |] eqn:Hcanvas;
    [|by apply Hstop..].
  unfold buildWorkflowReference.
  destruct (buildReference _ _ _ _ _ _) as [[[refWfs []]| |]|] eqn:Hbuild; cbn [orbind];
    [|by apply Hstop..|done].
  assert (Hd : drafts !! x = Some d) by (apply Htodo; by left).
  pose proof (built_closureTree tags _ drafts None _ x _ _ _ _ _
                Hshape (draftsShape_lookup _ _ _ Hshape Hd) ltac:(by left) Hcanvas Hbuild)
    as Htree.
  destruct (duplicateWorkflow target related (mkCopied x d refWfs) (m, arr) w)
    as [rw w1] eqn:Hwalk.
  rewrite duplicateWorkflow_materialise in Hwalk.
  destruct (run_logs _ _ _ _ _
              (materialise_walk drafts None "" target false related
                 (duplicateOne target related) tags (duplicateOne_spec target related)
                 _ Htree m arr) Hwalk) as (n1 & Hn1 & Hinv1).
  assert (Hinv1' : walkInv drafts None "" target false m arr [x] rw n1).
  { eapply walkInv_ids; [|exact Hinv1]. intros y ->%list_elem_of_singleton. by left. }
  destruct rw as [[m1 arr1]| |].
  - intros Hrun. destruct (IH _ _ _ _ _ Hrun) as (n2 & Hn2 & Hinv2).
    exists (n1 ++ n2). split; [by rewrite Hn2, Hn1, app_assoc|].
    change ((x, d) :: rest).*1 with ([x] ++ rest.*1). by eapply walkInv_seq.
  - intros [= <- <-]. exists n1. split; [done|]. by eapply walkInv_fail.
  - intros [= <- <-]. exists n1. split; [done|]. by eapply walkInv_fail.
Qed.

Lemma DuplicateWorkflowsByAppID_closure (fuel : nat) (sourceAppID targetAppID : Z)
    (related : ExternalResourceRelated) (w : World S) drafts names s1 r w' :
  repo_GetDraftWorkflowsByAppID sourceAppID (store w) = (Reply (drafts, names), s1) ->
  draftsShape drafts = true ->
  DuplicateWorkflowsByAppID fuel sourceAppID targetAppID related w = Some (r, w') ->
  exists new,
    calls w' = calls w ++ new /\ duplicatedToApp drafts targetAppID r new.
Proof.
  intros Hds Hshape. unfold DuplicateWorkflowsByAppID, GetDraftWorkflowsByAppID.
  rewrite (call_reply _ _ _ _ _ Hds).
  destruct (duplicateAll _ _ _ _ _ _ _) as [[rw w2]|] eqn:Hall; [|done].
  destruct (duplicateAll_walk _ _ _ _ _ Hshape
              ltac:(by intros x d Hx%elem_of_map_to_list) _ _ _ _ _ Hall)
    as (new & Hnew & Hnd & Hfresh & Hlen & Hok).
  simpl in Hnew.
  destruct rw as [st| |].
  2,3: intros [= <- <-]; exists (CallGetDraftWorkflowsByAppID sourceAppID :: new);
       (split; [by rewrite Hnew, <- app_assoc|]); by split_and!.
  unfold bind, call, ret.
  destruct (repo_CopyTemplateConversationByAppID _ _ _) as [[[]|e] s3];
    intros [= <- <-]; simpl;
    exists (CallGetDraftWorkflowsByAppID sourceAppID :: new
            ++ [CallCopyTemplateConversationByAppID sourceAppID targetAppID]);
    (split; [by rewrite Hnew, <- !app_assoc|]);
    unfold duplicatedToApp; simpl; rewrite copies_app, published_app; simpl;
    rewrite !app_nil_r; (split_and!; [done..|]); [|done].
  intros copied [= <-].
  destruct (Hok st eq_refl) as (cwfs & -> & Hord & Hids & Hpub). simpl in *.
  split_and!; [done| |done].
  destruct (inOrder_memo _ _ _ _ _ _ _ Hord) as (_ & _ & _ & Hdom).
  apply NoDup_Permutation; [done|apply NoDup_fst_map_to_list|].
  intros x. split.
  - intros Hx. destruct (inOrder_drafts _ _ _ _ _ _ _ Hord x Hx) as [d [Hd|Hd]]; [|done].
    apply list_elem_of_fmap. exists (x, d). split; [done|]. by apply elem_of_map_to_list.
  - intros Hx. specialize (Hids x Hx). apply Hdom in Hids as [[? Hempty]|?]; [|done].
    by rewrite lookup_empty in Hempty.
Qed.
End DuplicateProps.

Lemma redirect_target (m : gmap Z IDVersionPair) (r : reference) y p :
  referredID r = Some y -> m !! y = Some p ->
  referenceTarget (redirect m r) = (FormatInt (pair_ID p), pair_Version p).
Proof. intros Hy Hp. unfold redirect. rewrite Hy, Hp. by destruct r. Qed.

Section ClosureTheorem.
Context `{Reg : Registry} {S : Type} `{Repo : Repository S} `{Col : Collaborators S}.

(** C3 (amended).  When the registry reads the tags of sub-workflow and LLM
    nodes back as these types, neither of which has a capability flag, and
    the canvases of the drafts have Blocks under container nodes only: in
    every run of [CopyWorkflowFromAppToLibrary] that has read the draft of
    the workflow and the drafts of the application, and in every run of
    [DuplicateWorkflowsByAppID] that has read the drafts of the
    application, no workflow is copied twice and no more versions are
    created than copies made.  When the run succeeds (without validation
    issues), the copies were made one after the other, each of a workflow
    that was not in the memo, after every draft of the application its
    canvas refers to was copied and recorded; the canvas handed to
    [CopyWorkflow] is the canvas of the draft in which every reference, of a
    sub-workflow node or of the workflows-as-tools list of an LLM node, to a
    workflow of the memo points at the ID and version the memo records for
    it, every other reference being left as it is; the memo records each
    copy under the ID of the workflow [CopyWorkflow] returned;
    [CopyWorkflowFromAppToLibrary] has copied the workflow it was called for
    and published every copy once under its new ID with the canvas it was
    copied with; [DuplicateWorkflowsByAppID] has copied every draft of the
    application exactly once and published nothing. *)
Theorem materialise_closure_dedup (fuel : nat) (related : ExternalResourceRelated) :
  referenceTags ->
  (forall workflowID appID (w : World S) draftVersion s1 drafts names s2 r w',
     repo_DraftV2 workflowID "" (store w) = (Reply draftVersion, s1) ->
     repo_GetDraftWorkflowsByAppID appID s1 = (Reply (drafts, names), s2) ->
     canvasShape draftVersion = true ->
     draftsShape drafts = true ->
     CopyWorkflowFromAppToLibrary fuel workflowID appID related w = Some (r, w') ->
     exists new,
       calls w' = calls w ++ new /\ copiedToLibrary drafts workflowID draftVersion r new)
  /\ (forall sourceAppID targetAppID (w : World S) drafts names s1 r w',
        repo_GetDraftWorkflowsByAppID sourceAppID (store w) = (Reply (drafts, names), s1) ->
        draftsShape drafts = true ->
        DuplicateWorkflowsByAppID fuel sourceAppID targetAppID related w = Some (r, w') ->
        exists new,
          calls w' = calls w ++ new /\ duplicatedToApp drafts targetAppID r new).
Proof.
  intros tags. split.
  - intros. by eapply CopyWorkflowFromAppToLibrary_closure.
  - intros. by eapply DuplicateWorkflowsByAppID_closure.
Qed.
End ClosureTheorem.

Lemma exampleRegistry_tags : referenceTags (Reg := exampleRegistry).
Proof.
  split_and!; [| |done|done]; intros s; simpl; unfold exampleIDStrToNodeType;
    repeat case_decide; naive_solver.
Qed.

(** [CopyWorkflowFromAppToLibrary] on workflow 10 of the example
    application, whose canvases have the shape. *)
Lemma materialise_closure_dedup_witness :
  match repo_DraftV2 (Repository := memRepository) 10 "" copyStore,
        repo_GetDraftWorkflowsByAppID (Repository := memRepository) 50 copyStore,
        CopyWorkflowFromAppToLibrary (Reg := exampleRegistry) (Repo := memRepository)
          (Col := exampleCollaborators) 10 10 50 noRelated (mkWorld copyStore []) with
  | (Reply draftVersion, _), (Reply (drafts, _), _), Some (r, w') =>
      canvasShape (Reg := exampleRegistry) draftVersion = true
      /\ draftsShape (Reg := exampleRegistry) drafts = true
      /\ exists new,
          calls w' = [] ++ new
          /\ copiedToLibrary (Reg := exampleRegistry) drafts 10 draftVersion r new
  | _, _, _ => False
  end.
Proof.
  destruct (repo_DraftV2 10 "" copyStore) as [[draftVersion|e] s1] eqn:Hd;
    [|by vm_compute in Hd].
  destruct (repo_GetDraftWorkflowsByAppID 50 copyStore) as [[[drafts names]|e] s2] eqn:Hds;
    [|by vm_compute in Hds].
  destruct (CopyWorkflowFromAppToLibrary _ _ _ _ _) as [[r w']|] eqn:Hrun;
    [|by vm_compute in Hrun].
  assert (Hs1 : s1 = copyStore) by (vm_compute in Hd; by injection Hd as _ <-).
  assert (Hshape1 : canvasShape (Reg := exampleRegistry) draftVersion = true).
  { vm_compute in Hd. injection Hd as <- _. reflexivity. }
  assert (Hshape2 : draftsShape (Reg := exampleRegistry) drafts = true).
  { vm_compute in Hds. injection Hds as <- _ _. vm_compute. reflexivity. }
  split_and!; [done..|]. subst s1.
  exact (proj1 (materialise_closure_dedup (Reg := exampleRegistry) (Repo := memRepository)
                  (Col := exampleCollaborators) 10 noRelated exampleRegistry_tags)
           10 50 (mkWorld copyStore []) draftVersion copyStore drafts names s2 r w'
           Hd Hds Hshape1 Hshape2 Hrun).
Defined.

(** In the copy of workflow 10 the sub-workflow node at top level refers to
    the copy of workflow 20; the sub-workflow node in the Blocks of the plugin
    node still refers to workflow 20 itself. *)
Lemma materialise_closure_nested_counterexample :
  match CopyWorkflowFromAppToLibrary (Reg := exampleRegistry) (Repo := memRepository)
          (Col := exampleCollaborators) 10 10 50 noRelated (mkWorld nestedStore []) with
  | Some (Ok res, w) =>
      ValidateIssues res = []
      /\ (copies (calls w)).*1 = [20; 10]
      /\ WorkflowIDVersionMap res !! 20 = Some (mkIDVersionPair 9000 "v0.0.1")
      /\ map (fun v => (v.1.1, v.1.2,
                        match v.2 with
                        | Doc c => references (Reg := exampleRegistry) (Nodes c)
                        | BadJSON _ => []
                        end)) (published (calls w))
         = [ (9000, "v0.0.1", []);
             (9001, "v0.0.1",
              [ SubWorkflowReference "a" (mkSubWorkflowCfg "9000" "v0.0.1");
                SubWorkflowReference "b" (mkSubWorkflowCfg "20" "") ]) ]
  | _ => False
  end.
Proof. vm_compute. split_and!; reflexivity. Qed.

(** [CopyWorkflowFromAppToLibrary] on workflow 10 of the example
    application: the leaf 30, then the shared workflow 20, then the root 10
    are copied, once each, and published; in the published canvas of the root
    both sub-workflow nodes and the tool entry refer to the one copy of 20. *)
Example CopyWorkflowFromAppToLibrary_diamond :
  match CopyWorkflowFromAppToLibrary (Reg := exampleRegistry) (Repo := memRepository)
          (Col := exampleCollaborators) 10 10 50 noRelated (mkWorld copyStore []) with
  | Some (Ok res, w) =>
      (copies (calls w)).*1 = [30; 20; 10]
      /\ map wf_ID (CopiedWorkflows res) = [9000; 9001; 9002]
      /\ map_to_list (WorkflowIDVersionMap res)
         = [ (30, mkIDVersionPair 9000 "v0.0.1");
             (10, mkIDVersionPair 9002 "v0.0.1");
             (20, mkIDVersionPair 9001 "v0.0.1") ]
      /\ map (fun v => (v.1.1,
                        match v.2 with
                        | Doc c => references (Reg := exampleRegistry) (Nodes c)
                        | BadJSON _ => []
                        end)) (published (calls w))
         = [ (9000, []);
             (9001, [ SubWorkflowReference "c" (mkSubWorkflowCfg "9000" "v0.0.1") ]);
             (9002, [ SubWorkflowReference "a" (mkSubWorkflowCfg "9001" "v0.0.1");
                      SubWorkflowReference "b" (mkSubWorkflowCfg "9001" "v0.0.1");
                      ToolReference "l" (mkWorkflowFCItem "9001" "v0.0.1" true) ]) ]
      /\ elements (mem_refs (store w))
         = [ subWorkflowRef 9002 9001; subWorkflowRef 9001 9000; toolRef 9002 9001 ]
  | _ => False
  end.
Proof. vm_compute. split_and!; reflexivity. Qed.

Example DuplicateWorkflowsByAppID_diamond :
  match DuplicateWorkflowsByAppID (Reg := exampleRegistry) (Repo := memRepository)
          10 50 60 noRelated (mkWorld copyStore []) with
  | Some (Ok copied, w) =>
      (copies (calls w)).*1 = [30; 20; 10]
      /\ map (fun wf => (wf_ID wf, wf_AppID wf,
                         match wf_Canvas wf with
                         | Doc c => references (Reg := exampleRegistry) (Nodes c)
                         | BadJSON _ => []
                         end)) copied
         = [ (9000, Some 60, []);
             (9001, Some 60, [ SubWorkflowReference "c" (mkSubWorkflowCfg "9000" "") ]);
             (9002, Some 60, [ SubWorkflowReference "a" (mkSubWorkflowCfg "9001" "");
                               SubWorkflowReference "b" (mkSubWorkflowCfg "9001" "");
                               ToolReference "l" (mkWorkflowFCItem "9001" "" true) ]) ]
  | _ => False
  end.
Proof. vm_compute. split_and!; reflexivity. Qed.

(** ** Releasing the workflows of an application *)

Section ReleaseProps.
Context `{Reg : Registry} {S : Type} `{Repo : Repository S} `{Col : Collaborators S}.

Lemma collectedIssues_cons appID s wf wfs :
  collectedIssues appID s (wf :: wfs)
  = match validateWorkflowTree (mkValidateTreeConfig (wf_Canvas wf) (Some appID)) s with
    | Reply (i :: issues) => [toValidateIssue (wf_ID wf) (wf_Name wf) (i :: issues)]
    | _ => []
    end ++ collectedIssues appID s wfs.
Proof.
  unfold collectedIssues. simpl.
  by destruct (validateWorkflowTree _ s) as [[|i issues]|e].
Qed.

Lemma firstValidationError_cons appID s wf wfs :
  firstValidationError appID s (wf :: wfs)
  = match validateWorkflowTree (mkValidateTreeConfig (wf_Canvas wf) (Some appID)) s with
    | Fail e => Some e
    | Reply _ => firstValidationError appID s wfs
    end.
Proof.
  unfold firstValidationError. simpl. by destruct (validateWorkflowTree _ s).
Qed.

(** The first loop validates the workflows in order: it ends with the
    error of the first validation call that fails, and otherwise with the
    issues of every workflow; the store and the log are left as they were. *)
Lemma validateAll_run appID (wfs : list Workflow) (w : World S) :
  forall acc,
    foldM (validateOne appID) wfs acc w
    = (match firstValidationError appID (store w) wfs with
       | Some e => Err e
       | None => Ok (acc ++ collectedIssues appID (store w) wfs)
       end, w).
Proof.
  induction wfs as [|wf wfs IH]; intros acc.
  - unfold collectedIssues, firstValidationError. simpl. by rewrite app_nil_r.
  - rewrite collectedIssues_cons, firstValidationError_cons. cbn [foldM].
    unfold bind at 1, validateOne, bind, validate, liftReply, ret.
    destruct (validateWorkflowTree _ (store w)) as [issues|e]; [|done].
    rewrite IH. destruct (firstValidationError _ _ _); [done|].
    destruct issues as [|i issues]; [done|]. by rewrite <- app_assoc.
Qed.

Lemma collectedIssues_nonempty appID s (wfs : list Workflow) :
  Exists (fun wf => exists i issues,
            validateWorkflowTree (mkValidateTreeConfig (wf_Canvas wf) (Some appID)) s
            = Reply (i :: issues)) wfs ->
  collectedIssues appID s wfs <> [].
Proof.
  induction 1 as [wf wfs (i & issues & Hv)|wf wfs _ IH];
    rewrite collectedIssues_cons; [by rewrite Hv|].
  intros [_ ?]%app_eq_nil. done.
Qed.

Lemma selectWorkflows_log appID config all (w : World S) :
  calls (snd (selectWorkflows appID config all w))
  = calls w ++ match rc_WorkflowIDs config with
               | [] => []
               | ids => [CallMGetDrafts (selectedInApp appID ids)]
               end.
Proof.
  unfold selectWorkflows. destruct (rc_WorkflowIDs config); [by rewrite app_nil_r|].
  by destruct (repo_MGetDrafts _ _) as [r s'].
Qed.

Lemma releaseReads_read appID config : Forall (fun c => isWrite c = false) (releaseReads appID config).
Proof. unfold releaseReads. destruct (rc_WorkflowIDs config); repeat constructor. Qed.

(** C10 (amended).  When the connector list is not empty, the workflows of
    the application are read and at least one selected workflow has an
    issue, [ReleaseApplicationWorkflows] validates the selected workflows
    in order and returns the issues of all of them with a nil error, unless
    a validation call fails, in which case it returns the error of the
    first such call.  Either way the run ends in the world it was in after
    selecting the workflows, whose log holds the reads of the selection
    and nothing else: no version is created, no canvas rewritten in the
    store, no connector version registered. *)
Theorem Release_stops_on_issues (appID : Z) (config : ReleaseWorkflowConfig)
    (w : World S) (all will : list Workflow) s1 (w2 : World S) :
  rc_ConnectorIDs config <> [] ->
  repo_MGetDrafts (allInApp appID) (store w) = (Reply all, s1) ->
  selectWorkflows appID config all
    (mkWorld s1 (calls w ++ [CallMGetDrafts (allInApp appID)])) = (Ok will, w2) ->
  Exists (fun wf => exists i issues,
            validateWorkflowTree (mkValidateTreeConfig (wf_Canvas wf) (Some appID)) (store w2)
            = Reply (i :: issues)) will ->
  ReleaseApplicationWorkflows appID config w
  = (match firstValidationError appID (store w2) will with
     | Some e => Err e
     | None => Ok (collectedIssues appID (store w2) will)
     end, w2)
  /\ collectedIssues appID (store w2) will <> []
  /\ calls w2 = calls w ++ releaseReads appID config
  /\ Forall (fun c => isWrite c = false) (releaseReads appID config).
Proof.
  intros Hconn Hall Hsel Hissue.
  pose proof (collectedIssues_nonempty _ _ _ Hissue) as Hne.
  split_and!; [|done| |apply releaseReads_read].
  - unfold ReleaseApplicationWorkflows. destruct (rc_ConnectorIDs config); [done|].
    unfold bind at 1, MGetDrafts. rewrite (call_reply _ _ _ _ _ Hall).
    unfold bind at 1. rewrite Hsel.
    unfold bind at 1. rewrite (validateAll_run appID will w2 []). simpl.
    destruct (firstValidationError _ _ _); [done|].
    by destruct (collectedIssues appID (store w2) will).
  - pose proof (selectWorkflows_log appID config all
                  (mkWorld s1 (calls w ++ [CallMGetDrafts (allInApp appID)]))) as Hlog.
    rewrite Hsel in Hlog. simpl in Hlog. rewrite Hlog. unfold releaseReads.
    by rewrite <- app_assoc.
Qed.
End ReleaseProps.

(** Application 51: the draft of workflow 3 has an untyped node, the draft
    of workflow 4 is sound; the release returns the issue of workflow 3 and
    has only read the drafts of the application. *)
Lemma Release_stops_on_issues_witness :
  rc_ConnectorIDs releaseConfig <> []
  /\ ReleaseApplicationWorkflows (Reg := exampleRegistry) (Repo := memRepository)
       (Col := exampleCollaborators) 51 releaseConfig (mkWorld releaseStore [])
     = (Ok [ toValidateIssue 3 "untyped" [ "node n1 has no type" ] ],
        mkWorld releaseStore [ CallMGetDrafts (allInApp 51) ]).
Proof.
  split; [done|].
  refine (proj1 (Release_stops_on_issues (Reg := exampleRegistry) (Repo := memRepository)
                   (Col := exampleCollaborators) 51 releaseConfig (mkWorld releaseStore [])
                   _ _ releaseStore (mkWorld releaseStore [ CallMGetDrafts (allInApp 51) ])
                   ltac:(done) eq_refl eq_refl _)).
  apply Exists_cons_hd. by eexists _, _.
Defined.

(** In application 50 the draft of workflow 2 has an issue and is
    validated first; the validation of workflow 1 then fails: the release
    returns that error, not the issue list. *)
Lemma Release_validation_error_counterexample :
  (map wf_ID <$> fst (repo_MGetDrafts (Repository := memRepository) (allInApp 50) releaseStore))
  = Reply [2; 1]
  /\ validateWorkflowTree (Collaborators := exampleCollaborators)
       (mkValidateTreeConfig (Doc (mkCanvas [ plainNode "n1" "" [] ])) (Some 50)) releaseStore
     = Reply [ "node n1 has no type" ]
  /\ ReleaseApplicationWorkflows (Reg := exampleRegistry) (Repo := memRepository)
       (Col := exampleCollaborators) 50 releaseConfig (mkWorld releaseStore [])
     = (Err ErrSerializationDeserializationFail,
        mkWorld releaseStore [ CallMGetDrafts (allInApp 50) ]).
Proof. vm_compute. split_and!; reflexivity. Qed.

(** ** GetWorkflowDependenceResource *)

(** C7.  The plug-in of a plugin node at the top level of the canvas is
    reported, also through a sub-workflow node and through a draft workflow
    used as a tool; the same node inside the Blocks of a loop is not, although
    the function that rewrites the references of a canvas reaches it there. *)
Theorem GetWorkflowDependenceResource_skips_blocks :
  (fst <$> GetWorkflowDependenceResource (Reg := exampleRegistry) (Repo := memRepository)
             5 70 (mkWorld dependenceStore []))
  = Some (Ok (mkDependenceResource [7] [] []))
  /\ (fst <$> GetWorkflowDependenceResource (Reg := exampleRegistry) (Repo := memRepository)
                5 72 (mkWorld dependenceStore []))
     = Some (Ok (mkDependenceResource [7; 7] [] []))
  /\ (fst <$> GetWorkflowDependenceResource (Reg := exampleRegistry) (Repo := memRepository)
                5 71 (mkWorld dependenceStore []))
     = Some (Ok (mkDependenceResource [] [] []))
  /\ replaceRelatedWorkflowOrExternalResourceInWorkflowNodes (Reg := exampleRegistry)
       [ plainNode "loop" "21" [ pluginNode "p" "7" "0" "77" ] ] ∅
       (mkExternalResourceRelated {[ 7 := mkPluginEntity 8 (Some "v1") ]} ∅ ∅ ∅)
     = Ok [ plainNode "loop" "21" [ pluginNode "p" "8" "v1" "77" ] ].
Proof. vm_compute. split_and!; reflexivity. Qed.

(** ** ValidateTree and the recursive node check *)

Lemma sizeNodes_app l1 l2 : sizeNodes (l1 ++ l2) = (sizeNodes l1 + sizeNodes l2)%nat.
Proof. unfold sizeNodes, allNodes. by rewrite map_app, concat_app, length_app. Qed.

Lemma sizeNodes_cons n l :
  sizeNodes (n :: l) = Datatypes.S (sizeNodes (node_Blocks n) + sizeNodes l).
Proof.
  unfold sizeNodes. rewrite allNodes_cons, length_app, flattenNode_eq. done.
Qed.

Lemma pendingWeight_mono universe weight (v v' : gset string) :
  v ⊆ v' -> (pendingWeight universe weight v' <= pendingWeight universe weight v)%nat.
Proof.
  intros Hsub. unfold pendingWeight. induction universe as [|k u IH]; simpl; [done|].
  destruct (bool_decide (k ∉ v')) eqn:Hk'.
  - apply bool_decide_eq_true in Hk'.
    rewrite bool_decide_eq_true_2 by set_solver. simpl. lia.
  - destruct (bool_decide (k ∉ v)); simpl; lia.
Qed.

Lemma pendingWeight_insert universe weight (v : gset string) k :
  k ∈ universe -> k ∉ v ->
  (pendingWeight universe weight ({[k]} ∪ v) + weight k
   <= pendingWeight universe weight v)%nat.
Proof.
  intros Hin Hk. unfold pendingWeight. induction universe as [|x u IH]; [by apply elem_of_nil in Hin|].
  simpl. apply elem_of_cons in Hin as [<-|Hin].
  - rewrite (bool_decide_eq_true_2 (k ∉ v)) by done.
    rewrite (bool_decide_eq_false_2 (k ∉ {[k]} ∪ v)) by set_solver. simpl.
    pose proof (pendingWeight_mono u weight v ({[k]} ∪ v) ltac:(set_solver)) as Hm.
    unfold pendingWeight in Hm. lia.
  - specialize (IH Hin).
    destruct (bool_decide (x ∉ {[k]} ∪ v)) eqn:Hx.
    + apply bool_decide_eq_true in Hx.
      rewrite (bool_decide_eq_true_2 (x ∉ v)) by set_solver. simpl. lia.
    + destruct (bool_decide (x ∉ v)); simpl; lia.
Qed.

Section ValidateQueueProps.
Context `{Reg : Registry} {S : Type} `{Repo : Repository S}.

(** The store answers [GetEntity] without changing, and the entities it
    knows have their keys in the finite [universe], each with a canvas of at
    most [weight] nodes. *)
Variable s0 : S.
Variable universe : list string.
Variable weight : string -> nat.
Hypothesis stable : forall p, snd (repo_GetEntity p s0) = s0.
Hypothesis finite : forall workflowID version wf c,
  fst (repo_GetEntity (entityPolicy workflowID version) s0) = Reply wf ->
  UnmarshalCanvas (wf_Canvas wf) = Ok c ->
  visitedKey workflowID version ∈ universe
  /\ (sizeNodes (Nodes c) <= weight (visitedKey workflowID version))%nat.

(** What a part of the walk does from the queue size [n] and the set
    [visited]: it stays on the store, fetches distinct keys that were not
    visited, keeps what was visited, and leaves a queue and a visited set
    whose measure is at most [n] plus the pending weight at the start. *)
Definition walkStep (n : nat) (visited : gset string)
    (r : result (list Node * gset string)) (w w' : World S) : Prop :=
  store w' = s0
  /\ exists new,
      calls w' = calls w ++ new
      /\ NoDup (fetchedKeys s0 new)
      /\ (forall k, k ∈ fetchedKeys s0 new -> k ∉ visited)
      /\ forall q v, r = Ok (q, v) ->
           visited ⊆ v
           /\ (forall k, k ∈ fetchedKeys s0 new -> k ∈ v)
           /\ (sizeNodes q + pendingWeight universe weight v
               <= n + pendingWeight universe weight visited)%nat.

Lemma fetchedKeys_app l1 l2 :
  fetchedKeys s0 (l1 ++ l2) = fetchedKeys s0 l1 ++ fetchedKeys s0 l2.
Proof. unfold fetchedKeys. apply omap_app. Qed.

Lemma walkStep_ret n visited q (w : World S) :
  store w = s0 -> (sizeNodes q <= n)%nat -> walkStep n visited (Ok (q, visited)) w w.
Proof.
  intros Hs Hq. split; [done|]. exists []. rewrite app_nil_r.
  split_and!; [done|constructor|by intros k Hk; apply elem_of_nil in Hk|].
  intros q' v' [= <- <-]. split_and!; [done|by intros k Hk; apply elem_of_nil in Hk|lia].
Qed.

Lemma walkStep_stop n visited (r : result (list Node * gset string)) (w : World S) :
  store w = s0 -> (forall q v, r <> Ok (q, v)) -> walkStep n visited r w w.
Proof.
  intros Hs Hr. split; [done|]. exists []. rewrite app_nil_r.
  split_and!; [done|constructor|by intros k Hk; apply elem_of_nil in Hk|].
  intros q v ->. by destruct (Hr q v).
Qed.

Lemma walkStep_seq n1 n2 n visited q1 v1 r (w w1 w2 : World S) :
  walkStep n1 visited (Ok (q1, v1)) w w1 ->
  walkStep n2 v1 r w1 w2 ->
  (n2 + pendingWeight universe weight v1 <= n + pendingWeight universe weight visited)%nat ->
  walkStep n visited r w w2.
Proof.
  intros (Hs1 & new1 & Hc1 & Hnd1 & Hfresh1 & Hok1) (Hs2 & new2 & Hc2 & Hnd2 & Hfresh2 & Hok2) Hn.
  destruct (Hok1 q1 v1 eq_refl) as (Hsub1 & Hin1 & Hm1).
  split; [done|]. exists (new1 ++ new2). rewrite Hc2, Hc1, app_assoc, fetchedKeys_app.
  split_and!; [done| | |].
  - apply NoDup_app. split_and!; [done| |done].
    intros k Hk1 Hk2. apply (Hfresh2 k Hk2). by apply Hin1.
  - intros k [Hk|Hk]%elem_of_app; [by apply Hfresh1|].
    intros Hv. apply (Hfresh2 k Hk). by apply Hsub1.
  - intros q v ->. destruct (Hok2 q v eq_refl) as (Hsub2 & Hin2 & Hm2).
    split_and!; [by etrans| |lia].
    intros k [Hk|Hk]%elem_of_app; [apply Hsub2; by apply Hin1|by apply Hin2].
Qed.

Lemma walkStep_weaken n n' visited r (w w' : World S) :
  walkStep n visited r w w' -> (n <= n')%nat -> walkStep n' visited r w w'.
Proof.
  intros (Hs & new & Hc & Hnd & Hfresh & Hok) Hn. split; [done|]. exists new.
  split_and!; [done..|]. intros q v Hr. destruct (Hok q v Hr) as (? & ? & ?).
  split_and!; [done..|lia].
Qed.

(** A reference: nothing to queue when it is skipped; otherwise the nodes
    of a canvas whose weight was pending. *)
Lemma visitReference_step workflowID version visited (w : World S) :
  store w = s0 ->
  let out := visitReference workflowID version visited w in
  walkStep 0 visited
    (match fst out with
     | Ok (Through a) | Ok (Continue a) => Ok a
     | Err e => Err e
     | Panic => Panic
     end) w (snd out)
  /\ forall ns v, fst out = Ok (Continue (ns, v)) -> ns = [].
Proof.
  intros Hs out. subst out. unfold visitReference.
  destruct (decide (visitedKey workflowID version ∈ visited)) as [Hin|Hout]; simpl.
  { split; [by apply walkStep_ret|]. by intros ns v [= <- _]. }
  pose proof (stable (entityPolicy workflowID version)) as Hst.
  pose proof (finite workflowID version) as Hfin.
  rewrite Hs. destruct (repo_GetEntity _ s0) as [[wf|e] s'] eqn:Hget; simpl in *; subst s'.
  - assert (Hkeys : fetchedKeys s0 [CallGetEntity (entityPolicy workflowID version)]
                    = [visitedKey workflowID version]).
    { unfold fetchedKeys. simpl. by rewrite Hget. }
    destruct (UnmarshalCanvas (wf_Canvas wf)) as [c| |] eqn:Hc; simpl.
    + destruct (Hfin wf c eq_refl Hc) as [Hu Hw].
      split; [|done]. split; [done|]. eexists. split; [done|]. rewrite Hkeys.
      split_and!; [apply NoDup_singleton|by intros k ->%list_elem_of_singleton|].
      intros q v [= <- <-]. split_and!; [set_solver|intros k ->%list_elem_of_singleton; set_solver|].
      pose proof (pendingWeight_insert universe weight visited _ Hu Hout). lia.
    + split; [|done]. split; [done|]. eexists. split; [done|]. rewrite Hkeys.
      split_and!; [apply NoDup_singleton|by intros k ->%list_elem_of_singleton|done].
    + split; [|done]. split; [done|]. eexists. split; [done|]. rewrite Hkeys.
      split_and!; [apply NoDup_singleton|by intros k ->%list_elem_of_singleton|done].
  - assert (Hkeys : fetchedKeys s0 [CallGetEntity (entityPolicy workflowID version)] = []).
    { unfold fetchedKeys. simpl. by rewrite Hget. }
    destruct (decide (e = ErrRecordNotFound)); simpl.
    + split; [|by intros ns v [= <- _]]. split; [done|]. eexists. split; [done|]. rewrite Hkeys.
      split_and!; [constructor|by intros k Hk; apply elem_of_nil in Hk|].
      intros q v [= <- <-].
      assert (({[visitedKey workflowID version]} ∪ visited) ∖ {[visitedKey workflowID version]}
              = visited) as -> by set_solver.
      split_and!; [done|by intros k Hk; apply elem_of_nil in Hk|simpl; lia].
    + split; [|done]. split; [done|]. eexists. split; [done|]. rewrite Hkeys.
      split_and!; [constructor|by intros k Hk; apply elem_of_nil in Hk|done].
Qed.

End ValidateQueueProps.

Section ValidateWalkProps.
Context `{Reg : Registry} {S : Type} `{Repo : Repository S}.
Variable s0 : S.
Variable universe : list string.
Variable weight : string -> nat.
Hypothesis stable : forall p, snd (repo_GetEntity p s0) = s0.
Hypothesis finite : forall workflowID version wf c,
  fst (repo_GetEntity (entityPolicy workflowID version) s0) = Reply wf ->
  UnmarshalCanvas (wf_Canvas wf) = Ok c ->
  visitedKey workflowID version ∈ universe
  /\ (sizeNodes (Nodes c) <= weight (visitedKey workflowID version))%nat.

Lemma visitTools_step (l : list WorkflowFCItem) :
  forall queue visited (w : World S),
    store w = s0 ->
    walkStep s0 universe weight (sizeNodes queue) visited
      (fst (visitTools l queue visited w)) w (snd (visitTools l queue visited w)).
Proof.
  induction l as [|t l IH]; intros queue visited w Hs.
  - simpl. by apply walkStep_ret.
  - cbn [visitTools]. destruct (decide (wfc_WorkflowID t = "")); [by apply IH|].
    unfold bind at 1, lift. destruct (parseID (wfc_WorkflowID t)) as [workflowID| |]; simpl;
      [|by apply walkStep_stop..].
    unfold bind.
    destruct (visitReference_step s0 universe weight stable finite workflowID
                (wfc_WorkflowVersion t) visited w Hs) as [Hstep Hskip].
    destruct (visitReference workflowID (wfc_WorkflowVersion t) visited w) as [[f|e|] w1];
      simpl in *; [| |].
    + assert (Hs1 : store w1 = s0) by (by destruct Hstep).
      destruct f as [[ns v1]|[ns v1]].
      * eapply walkStep_seq; [exact Hstep|by apply IH|].
        destruct Hstep as (_ & new & _ & _ & _ & Hok).
        destruct (Hok ns v1 eq_refl) as (_ & _ & Hm). rewrite sizeNodes_app. lia.
      * rewrite (Hskip ns v1 eq_refl) in Hstep.
        eapply walkStep_seq; [exact Hstep|by apply IH|].
        destruct Hstep as (_ & new & _ & _ & _ & Hok).
        destruct (Hok [] v1 eq_refl) as (_ & _ & Hm). simpl in Hm. lia.
    + destruct Hstep as (Hs1 & new & Hc & Hnd & Hfresh & _). split; [done|].
      exists new. split_and!; done.
    + destruct Hstep as (Hs1 & new & Hc & Hnd & Hfresh & _). split; [done|].
      exists new. split_and!; done.
Qed.

(** One turn of the loop takes a node off the queue and leaves a strictly
    smaller measure. *)
Lemma visitNode_step checkType node queue visited (w : World S) :
  store w = s0 ->
  walkStep s0 universe weight (sizeNodes queue + sizeNodes (node_Blocks node)) visited
    (fst (visitNode checkType node queue visited w)) w
    (snd (visitNode checkType node queue visited w)).
Proof.
  intros Hs. unfold visitNode.
  destruct (match checkType with CheckType_BotAgent => _ | CheckType_Other => _ end);
    [by apply walkStep_stop|].
  set (queue2 := queue ++ node_Blocks node).
  assert (Hq2 : sizeNodes queue2 = (sizeNodes queue + sizeNodes (node_Blocks node))%nat)
    by apply sizeNodes_app.
  rewrite <- Hq2.
  assert (Htail : forall q v (w1 : World S),
            store w1 = s0 ->
            walkStep s0 universe weight (sizeNodes q) v
              (fst (match presentInputs node with
                    | Some i =>
                        if decide (node_Type node = IDStr NodeTypeLLM)
                        then visitTools (workflowListOf i) q v
                        else ret (q, v)
                    | None => ret (q, v)
                    end w1)) w1
              (snd (match presentInputs node with
                    | Some i =>
                        if decide (node_Type node = IDStr NodeTypeLLM)
                        then visitTools (workflowListOf i) q v
                        else ret (q, v)
                    | None => ret (q, v)
                    end w1))).
  { intros q v w1 Hs1. destruct (presentInputs node) as [i|]; [|by apply walkStep_ret].
    destruct (decide _); [by apply visitTools_step|by apply walkStep_ret]. }
  destruct (presentInputs node) as [i|] eqn:Hi.
  2:{ unfold bind, ret. simpl. by apply walkStep_ret. }
  destruct (decide (node_Type node = IDStr NodeTypeSubWorkflow)) as [Hsw|Hsw].
  2:{ unfold bind at 1, ret at 1. simpl. exact (Htail queue2 visited w Hs). }
  destruct (SubWorkflow i) as [sw|]; [|by apply walkStep_stop].
  destruct (decide (WorkflowID sw = "")); [unfold bind, ret; simpl; by apply walkStep_ret|].
  destruct (visitReference_step s0 universe weight stable finite
              (default 0 (ParseInt (WorkflowID sw)))
              (WorkflowVersion sw) visited w Hs) as [Hstep Hskip].
  unfold bind, lift, ret, parseID. unfold ret in Htail.
  destruct (ParseInt (WorkflowID sw)) as [workflowID|]; simpl in *; [|by apply walkStep_stop].
  destruct (visitReference workflowID (WorkflowVersion sw) visited w) as [[f|e|] w1];
    simpl in *.
  - assert (Hs1 : store w1 = s0) by (by destruct Hstep).
    destruct f as [[ns v1]|[ns v1]]; simpl.
    + specialize (Htail (queue2 ++ ns) v1 w1 Hs1).
      eapply walkStep_seq; [exact Hstep|exact Htail|].
      destruct Hstep as (_ & new & _ & _ & _ & Hok).
      destruct (Hok ns v1 eq_refl) as (_ & _ & Hm). rewrite sizeNodes_app. lia.
    + rewrite (Hskip ns v1 eq_refl) in Hstep.
      eapply walkStep_seq; [exact Hstep|by apply walkStep_ret|].
      destruct Hstep as (_ & new & _ & _ & _ & Hok).
      destruct (Hok [] v1 eq_refl) as (_ & _ & Hm). simpl in Hm. lia.
  - destruct Hstep as (Hs1 & new & Hc & Hnd & Hfresh & _). split; [done|].
    exists new. split_and!; done.
  - destruct Hstep as (Hs1 & new & Hc & Hnd & Hfresh & _). split; [done|].
    exists new. split_and!; done.
Qed.
End ValidateWalkProps.

Section ValidateClosureProps.
Context `{Reg : Registry} {S : Type} `{Repo : Repository S} `{Col : Collaborators S}
        `{Hlp : Helpers}.

Lemma treeEntries_cons (s : S) wf wfs :
  treeEntries s (wf :: wfs)
  = match validateWorkflowTree (mkValidateTreeConfig (wf_Canvas wf) (wf_AppID wf)) s with
    | Reply (i :: issues) =>
        [mkValidateTreeInfo (FormatInt (wf_ID wf)) (wf_Name wf) (i :: issues)]
    | _ => []
    end ++ treeEntries s wfs.
Proof.
  unfold treeEntries. simpl. by destruct (validateWorkflowTree _ s) as [[|i issues]|e].
Qed.

Lemma ValidateTree_loop (workflows : list Workflow) (w : World S) :
  Forall (fun wf =>
            replied (validateWorkflowTree
                       (mkValidateTreeConfig (wf_Canvas wf) (wf_AppID wf)) (store w)) = true)
         workflows ->
  forall infos,
    foldM (fun wf infos =>
             issues <- validate (mkValidateTreeConfig (wf_Canvas wf) (wf_AppID wf)) ;;
             ret (match issues with
                  | [] => infos
                  | _ => infos ++ [mkValidateTreeInfo (FormatInt (wf_ID wf)) (wf_Name wf) issues]
                  end))
          workflows infos w
    = (Ok (infos ++ treeEntries (store w) workflows), w).
Proof.
  induction 1 as [|wf wfs Hwf _ IH]; intros infos.
  - unfold treeEntries. simpl. by rewrite app_nil_r.
  - rewrite treeEntries_cons. cbn [foldM]. unfold bind at 1, bind, validate, liftReply, ret.
    destruct (validateWorkflowTree _ (store w)) as [issues|e]; [|done].
    destruct issues as [|i issues]; rewrite IH; [done|]. by rewrite <- app_assoc.
Qed.

(** [ValidateTree] goes one level deep: the root canvas, then the drafts
    the repository returns for the version-less sub-workflow nodes of the root
    canvas, each validated once. *)
Lemma ValidateTree_one_level (id : Z) (cfg : ValidateTreeConfig) (w : World S)
    rootIssues c subs workflows s1 :
  validateWorkflowTree cfg (store w) = Reply rootIssues ->
  UnmarshalCanvas (CanvasSchema cfg) = Ok c ->
  getAllSubWorkflowIdentities c = Ok subs ->
  repo_MGetDrafts (mkMGetPolicy None (draftReferences subs) FromDraft) (store w)
  = (Reply workflows, s1) ->
  Forall (fun wf =>
            replied (validateWorkflowTree
                       (mkValidateTreeConfig (wf_Canvas wf) (wf_AppID wf)) s1) = true)
         workflows ->
  let rootEntry := match rootIssues with
                   | [] => []
                   | _ => [mkValidateTreeInfo (FormatInt id) "" rootIssues]
                   end in
  ValidateTree id cfg w
  = match draftReferences subs with
    | [] => (Ok rootEntry, w)
    | ids => (Ok (rootEntry ++ treeEntries s1 workflows),
              mkWorld s1 (calls w ++ [CallMGetDrafts (mkMGetPolicy None ids FromDraft)]))
    end.
Proof.
  intros Hroot Hc Hsubs Hget Hvalid rootEntry. unfold ValidateTree.
  unfold bind at 1, validate, liftReply. rewrite Hroot.
  unfold bind at 1, lift. rewrite Hc.
  unfold bind at 1, lift. rewrite Hsubs. fold (draftReferences subs) in *.
  destruct subs as [|e subs]; [done|].
  destruct (draftReferences (e :: subs)) as [|i ids] eqn:Hids; [done|].
  unfold bind at 1, MGetDrafts. rewrite (call_reply _ _ _ _ _ Hget).
  by rewrite (ValidateTree_loop workflows
                (mkWorld s1 (calls w ++ [CallMGetDrafts (mkMGetPolicy None (i :: ids) FromDraft)]))
                Hvalid).
Qed.
End ValidateClosureProps.

Section ValidateTermination.
Context `{Reg : Registry} {S : Type} `{Repo : Repository S}.
Variable s0 : S.
Variable universe : list string.
Variable weight : string -> nat.
Hypothesis stable : forall p, snd (repo_GetEntity p s0) = s0.
Hypothesis finite : forall workflowID version wf c,
  fst (repo_GetEntity (entityPolicy workflowID version) s0) = Reply wf ->
  UnmarshalCanvas (wf_Canvas wf) = Ok c ->
  visitedKey workflowID version ∈ universe
  /\ (sizeNodes (Nodes c) <= weight (visitedKey workflowID version))%nat.

(** With enough fuel the queue is worked off: the run ends, on the same
    store; the entities it fetched have distinct keys, none of them visited
    before; and what was visited stays visited. *)
Lemma validateQueue_ends (fuel : nat) :
  forall checkType queue visited (w : World S),
    store w = s0 ->
    (sizeNodes queue + pendingWeight universe weight visited < fuel)%nat ->
    exists r w',
      validateQueue fuel checkType queue visited w = Some (r, w')
      /\ store w' = s0
      /\ exists new,
          calls w' = calls w ++ new
          /\ NoDup (fetchedKeys s0 new)
          /\ (forall k, k ∈ fetchedKeys s0 new -> k ∉ visited)
          /\ forall v, r = Ok v ->
               visited ⊆ v /\ forall k, k ∈ fetchedKeys s0 new -> k ∈ v.
Proof.
  induction fuel as [|fuel IH]; intros checkType queue visited w Hs Hfuel; [lia|].
  destruct queue as [|node queue].
  { exists (Ok visited), w. split; [done|]. split; [done|]. exists [].
    rewrite app_nil_r. split_and!; [done|constructor|by intros k Hk; apply elem_of_nil in Hk|].
    intros v [= <-]. split; [done|]. by intros k Hk; apply elem_of_nil in Hk. }
  cbn [validateQueue]. unfold bbind, bounded_of.
  pose proof (visitNode_step s0 universe weight stable finite checkType node queue visited w Hs)
    as Hstep.
  destruct (visitNode checkType node queue visited w) as [[[q1 v1]|e|] w1]; simpl in Hstep.
  - destruct Hstep as (Hs1 & new1 & Hc1 & Hnd1 & Hfresh1 & Hok1).
    destruct (Hok1 q1 v1 eq_refl) as (Hsub1 & Hin1 & Hm1).
    rewrite sizeNodes_cons in Hfuel.
    destruct (IH checkType q1 v1 w1 Hs1 ltac:(lia))
      as (r & w' & Hrun & Hs' & new2 & Hc2 & Hnd2 & Hfresh2 & Hok2).
    exists r, w'. split; [done|]. split; [done|].
    exists (new1 ++ new2). rewrite Hc2, Hc1, app_assoc, fetchedKeys_app.
    split_and!; [done| | |].
    + apply NoDup_app. split_and!; [done| |done].
      intros k Hk1 Hk2. apply (Hfresh2 k Hk2). by apply Hin1.
    + intros k [Hk|Hk]%elem_of_app; [by apply Hfresh1|].
      intros Hv. apply (Hfresh2 k Hk). by apply Hsub1.
    + intros v Hr. destruct (Hok2 v Hr) as [Hsub2 Hin2]. split; [by etrans|].
      intros k [Hk|Hk]%elem_of_app; [apply Hsub2; by apply Hin1|by apply Hin2].
  - destruct Hstep as (Hs1 & new1 & Hc1 & Hnd1 & Hfresh1 & _).
    exists (Err e), w1. split; [done|]. split; [done|]. exists new1. split_and!; done.
  - destruct Hstep as (Hs1 & new1 & Hc1 & Hnd1 & Hfresh1 & _).
    exists Panic, w1. split; [done|]. split; [done|]. exists new1. split_and!; done.
Qed.
End ValidateTermination.

Section ValidateCoverProps.
Context `{Reg : Registry} {S : Type} `{Repo : Repository S}.
Variable s0 : S.
Hypothesis stable : forall p, snd (repo_GetEntity p s0) = s0.

(** What a part of the walk leaves behind when it succeeds from the queue
    [queue] and the set [visited]: the queue, with [blocks] and the canvases
    of the entities it fetched appended; the references [refs] settled; and a
    visited set grown by the keys of the entities fetched. *)
Definition walkContent (refs : list (string * string)) (queue blocks : list Node)
    (visited : gset string) (r : result (list Node * gset string)) (w w' : World S) : Prop :=
  store w' = s0
  /\ exists new,
      calls w' = calls w ++ new
      /\ forall q v, r = Ok (q, v) ->
           visited ⊆ v
           /\ (forall k, k ∈ v -> k ∈ visited \/ k ∈ fetchedKeys s0 new)
           /\ (forall ref, ref ∈ refs -> settled s0 v ref)
           /\ exists extra,
               q = queue ++ blocks ++ extra
               /\ forall p wf c,
                    CallGetEntity p ∈ new ->
                    fst (repo_GetEntity p s0) = Reply wf ->
                    UnmarshalCanvas (wf_Canvas wf) = Ok c ->
                    forall n, n ∈ allNodes (Nodes c) -> n ∈ allNodes extra.

Lemma settled_mono (v v' : gset string) ref : v ⊆ v' -> settled s0 v ref -> settled s0 v' ref.
Proof. intros Hsub (id & Hid & [Hk|Hk]); exists id; split; auto. Qed.

Lemma allNodes_app l1 l2 : allNodes (l1 ++ l2) = allNodes l1 ++ allNodes l2.
Proof. unfold allNodes. by rewrite map_app, concat_app. Qed.

Lemma walkContent_ret queue visited (w : World S) :
  store w = s0 -> walkContent [] queue [] visited (Ok (queue, visited)) w w.
Proof.
  intros Hs. split; [done|]. exists []. rewrite app_nil_r. split; [done|].
  intros q v [= <- <-]. split_and!; [done|by left|by intros ref Hr; apply elem_of_nil in Hr|].
  exists []. rewrite !app_nil_r. split; [done|]. intros p wf c Hp. by apply elem_of_nil in Hp.
Qed.

Lemma walkContent_stop refs queue blocks visited (r : result (list Node * gset string))
    (w w' : World S) new :
  store w' = s0 -> calls w' = calls w ++ new -> (forall q v, r <> Ok (q, v)) ->
  walkContent refs queue blocks visited r w w'.
Proof.
  intros Hs Hc Hr. split; [done|]. exists new. split; [done|].
  intros q v ->. by destruct (Hr q v).
Qed.

Lemma walkContent_seq refs1 refs2 queue blocks visited q1 v1 r (w w1 w2 : World S) :
  walkContent refs1 queue blocks visited (Ok (q1, v1)) w w1 ->
  walkContent refs2 q1 [] v1 r w1 w2 ->
  walkContent (refs1 ++ refs2) queue blocks visited r w w2.
Proof.
  intros (Hs1 & new1 & Hc1 & Hok1) (Hs2 & new2 & Hc2 & Hok2).
  destruct (Hok1 q1 v1 eq_refl) as (Hsub1 & Hdom1 & Hrefs1 & extra1 & -> & Hx1).
  split; [done|]. exists (new1 ++ new2). rewrite Hc2, Hc1, app_assoc. split; [done|].
  intros q v ->. destruct (Hok2 q v eq_refl) as (Hsub2 & Hdom2 & Hrefs2 & extra2 & -> & Hx2).
  rewrite fetchedKeys_app. split_and!.
  - by etrans.
  - intros k Hk. destruct (Hdom2 k Hk) as [Hk1|Hk2].
    + destruct (Hdom1 k Hk1); [by left|right; apply elem_of_app; by left].
    + right. apply elem_of_app. by right.
  - intros ref [Hr|Hr]%elem_of_app; [|by apply Hrefs2].
    eapply settled_mono; [exact Hsub2|by apply Hrefs1].
  - exists (extra1 ++ extra2). rewrite app_nil_l, <- !app_assoc. split; [done|].
    intros p wf c [Hp|Hp]%elem_of_app Hwf Hc n Hn; rewrite allNodes_app; apply elem_of_app.
    + left. by eapply Hx1.
    + right. by eapply Hx2.
Qed.

(** A reference to workflow [workflowID] at [version]. *)
Lemma visitReference_content idStr workflowID version visited (w : World S) :
  store w = s0 ->
  ParseInt idStr = Some workflowID ->
  let out := visitReference workflowID version visited w in
  walkContent [(idStr, version)] [] [] visited
    (match fst out with
     | Ok (Through a) | Ok (Continue a) => Ok a
     | Err e => Err e
     | Panic => Panic
     end) w (snd out).
Proof.
  intros Hs Hid out. subst out. unfold visitReference.
  destruct (decide (visitedKey workflowID version ∈ visited)) as [Hin|Hout]; simpl.
  { split; [done|]. exists []. rewrite app_nil_r. split; [done|].
    intros q v [= <- <-]. split_and!; [done|by left| |].
    - intros ref ->%list_elem_of_singleton. exists workflowID. split; [done|]. by left.
    - exists []. split; [done|]. intros p wf c Hp. by apply elem_of_nil in Hp. }
  pose proof (stable (entityPolicy workflowID version)) as Hst.
  rewrite Hs. destruct (repo_GetEntity _ s0) as [[wf|e] s'] eqn:Hget; simpl in *; subst s'.
  - assert (Hkeys : fetchedKeys s0 [CallGetEntity (entityPolicy workflowID version)]
                    = [visitedKey workflowID version]).
    { unfold fetchedKeys. simpl. by rewrite Hget. }
    destruct (UnmarshalCanvas (wf_Canvas wf)) as [c| |] eqn:Hc; simpl;
      [|by eapply walkContent_stop..].
    split; [done|]. eexists. split; [done|]. rewrite Hkeys.
    intros q v [= <- <-]. split_and!; [set_solver|set_solver| |].
    + intros ref ->%list_elem_of_singleton. exists workflowID. split; [done|]. left. set_solver.
    + exists (Nodes c). split; [done|].
      intros p wf' c' [= ->]%list_elem_of_singleton Hwf' Hc' n Hn.
      rewrite Hget in Hwf'. simpl in Hwf'. injection Hwf' as <-. rewrite Hc in Hc'.
      by injection Hc' as <-.
  - assert (Hkeys : fetchedKeys s0 [CallGetEntity (entityPolicy workflowID version)] = []).
    { unfold fetchedKeys. simpl. by rewrite Hget. }
    destruct (decide (e = ErrRecordNotFound)) as [->|Hne]; simpl;
      [|by eapply walkContent_stop].
    split; [done|]. eexists. split; [done|]. rewrite Hkeys.
    assert (({[visitedKey workflowID version]} ∪ visited) ∖ {[visitedKey workflowID version]}
            = visited) as -> by set_solver.
    intros q v [= <- <-]. split_and!; [done|by left| |].
    + intros ref ->%list_elem_of_singleton. exists workflowID. split; [done|]. right.
      simpl. by rewrite Hget.
    + exists []. split; [done|].
      intros p wf' c' [= ->]%list_elem_of_singleton Hwf'. by rewrite Hget in Hwf'.
Qed.

Lemma visitReference_skip workflowID version visited (w : World S) ns v :
  fst (visitReference workflowID version visited w) = Ok (Continue (ns, v)) -> ns = [].
Proof.
  unfold visitReference. destruct (decide _); [by intros [= <- _]|].
  destruct (repo_GetEntity _ _) as [[wf|e] s']; simpl.
  - by destruct (UnmarshalCanvas _).
  - destruct (decide _); [by intros [= <- _]|done].
Qed.

Lemma walkContent_frame refs queue visited ns v (w w' : World S) :
  walkContent refs [] [] visited (Ok (ns, v)) w w' ->
  walkContent refs queue [] visited (Ok (queue ++ ns, v)) w w'.
Proof.
  intros (Hs & new & Hc & Hok). split; [done|]. exists new. split; [done|].
  intros q v' [= <- <-]. destruct (Hok ns v eq_refl) as (? & ? & ? & extra & Hq & ?).
  split_and!; [done..|]. exists extra. simpl in Hq. subst ns. by split.
Qed.

Lemma walkContent_refs refs refs' queue blocks visited r (w w' : World S) :
  (forall ref, ref ∈ refs' -> ref ∈ refs) ->
  walkContent refs queue blocks visited r w w' ->
  walkContent refs' queue blocks visited r w w'.
Proof.
  intros Hsub (Hs & new & Hc & Hok). split; [done|]. exists new. split; [done|].
  intros q v Hr. destruct (Hok q v Hr) as (? & ? & ? & ?). split_and!; auto.
Qed.

Lemma walkContent_blocks refs queue blocks visited r (w w' : World S) :
  walkContent refs (queue ++ blocks) [] visited r w w' ->
  walkContent refs queue blocks visited r w w'.
Proof.
  intros (Hs & new & Hc & Hok). split; [done|]. exists new. split; [done|].
  intros q v Hr. destruct (Hok q v Hr) as (? & ? & ? & extra & -> & ?).
  split_and!; [done..|]. exists extra. by rewrite app_nil_l, <- app_assoc.
Qed.

Lemma visitTools_content (l : list WorkflowFCItem) :
  forall queue visited (w : World S),
    store w = s0 ->
    walkContent (toolRefs l) queue [] visited
      (fst (visitTools l queue visited w)) w (snd (visitTools l queue visited w)).
Proof.
  induction l as [|t l IH]; intros queue visited w Hs.
  - simpl. by apply walkContent_ret.
  - cbn [visitTools]. unfold toolRefs. cbn [List.filter].
    destruct (decide (wfc_WorkflowID t = "")) as [He|He].
    { rewrite (bool_decide_eq_true_2 _ He). simpl. by apply IH. }
    rewrite (bool_decide_eq_false_2 _ He). cbn [negb map].
    change (?x :: map ?f ?l') with ([x] ++ map f l'). fold (toolRefs l).
    unfold bind at 1, lift, parseID.
    destruct (ParseInt (wfc_WorkflowID t)) as [workflowID|] eqn:Hid; simpl;
      [|eapply (walkContent_stop _ _ _ _ _ _ _ []); [done|by rewrite app_nil_r|done]].
    unfold bind.
    pose proof (visitReference_content _ workflowID (wfc_WorkflowVersion t) visited w Hs Hid)
      as Hstep.
    pose proof (visitReference_skip workflowID (wfc_WorkflowVersion t) visited w) as Hskip.
    destruct (visitReference workflowID (wfc_WorkflowVersion t) visited w) as [[f|e|] w1];
      simpl in *.
    + assert (Hs1 : store w1 = s0) by (by destruct Hstep).
      destruct f as [[ns v1]|[ns v1]].
      * eapply (walkContent_seq [_] (toolRefs l));
          [by apply walkContent_frame|by apply IH].
      * rewrite (Hskip ns v1 eq_refl) in Hstep.
        eapply (walkContent_seq [_] (toolRefs l));
          [apply (walkContent_frame _ queue) in Hstep; exact Hstep|].
        rewrite app_nil_r. by apply IH.
    + destruct Hstep as (Hs1 & new & Hc & _). by eapply walkContent_stop.
    + destruct Hstep as (Hs1 & new & Hc & _). by eapply walkContent_stop.
Qed.

(** One turn of the loop: the Blocks of the node and the canvases fetched
    are queued, and what the node refers to is settled. *)
Lemma visitNode_content checkType node queue visited (w : World S) :
  store w = s0 ->
  walkContent (followed node) queue (node_Blocks node) visited
    (fst (visitNode checkType node queue visited w)) w
    (snd (visitNode checkType node queue visited w)).
Proof.
  intros Hs. unfold visitNode.
  destruct (match checkType with CheckType_BotAgent => _ | CheckType_Other => _ end);
    [eapply (walkContent_stop _ _ _ _ _ _ _ []); [done|by rewrite app_nil_r|done]|].
  apply walkContent_blocks. set (queue2 := queue ++ node_Blocks node).
  unfold followed.
  assert (Htail : forall q v (w1 : World S),
            store w1 = s0 ->
            walkContent (match presentInputs node with
                         | Some i =>
                             if decide (node_Type node = IDStr NodeTypeLLM)
                             then toolRefs (workflowListOf i) else []
                         | None => []
                         end) q [] v
              (fst (match presentInputs node with
                    | Some i =>
                        if decide (node_Type node = IDStr NodeTypeLLM)
                        then visitTools (workflowListOf i) q v
                        else ret (q, v)
                    | None => ret (q, v)
                    end w1)) w1
              (snd (match presentInputs node with
                    | Some i =>
                        if decide (node_Type node = IDStr NodeTypeLLM)
                        then visitTools (workflowListOf i) q v
                        else ret (q, v)
                    | None => ret (q, v)
                    end w1))).
  { intros q v w1 Hs1. destruct (presentInputs node) as [i|]; [|by apply walkContent_ret].
    destruct (decide _); [by apply visitTools_content|by apply walkContent_ret]. }
  destruct (presentInputs node) as [i|] eqn:Hi.
  2:{ unfold bind, ret. simpl. by apply walkContent_ret. }
  destruct (decide (node_Type node = IDStr NodeTypeSubWorkflow)) as [Hsw|Hsw].
  2:{ unfold bind at 1, ret at 1. simpl. exact (Htail queue2 visited w Hs). }
  destruct (SubWorkflow i) as [sw|];
    [|eapply (walkContent_stop _ _ _ _ _ _ _ []); [done|by rewrite app_nil_r|done]].
  destruct (decide (WorkflowID sw = ""));
    [unfold bind, ret; simpl; by apply walkContent_ret|].
  unfold bind, lift, ret, parseID. unfold ret in Htail.
  destruct (ParseInt (WorkflowID sw)) as [workflowID|] eqn:Hid; simpl in *;
    [|eapply (walkContent_stop _ _ _ _ _ _ _ []); [done|by rewrite app_nil_r|done]].
  pose proof (visitReference_content _ workflowID (WorkflowVersion sw) visited w Hs Hid)
    as Hstep.
  pose proof (visitReference_skip workflowID (WorkflowVersion sw) visited w) as Hskip.
  destruct (visitReference workflowID (WorkflowVersion sw) visited w) as [[f|e|] w1];
    simpl in *.
  - assert (Hs1 : store w1 = s0) by (by destruct Hstep).
    destruct f as [[ns v1]|[ns v1]]; simpl.
    + specialize (Htail (queue2 ++ ns) v1 w1 Hs1).
      eapply walkContent_refs; [|eapply walkContent_seq;
                                  [by apply walkContent_frame|exact Htail]].
      intros ref Hr. apply elem_of_app. by left.
    + rewrite (Hskip ns v1 eq_refl) in Hstep.
      apply (walkContent_frame _ queue2) in Hstep. by rewrite app_nil_r in Hstep.
  - destruct Hstep as (Hs1 & new & Hc & _). by eapply walkContent_stop.
  - destruct Hstep as (Hs1 & new & Hc & _). by eapply walkContent_stop.
Qed.

(** When the queue is worked off, what was visited is closed under the
    references followed: those of the nodes queued and of the canvases
    fetched are all settled, and nothing but the keys of the entities
    fetched was added. *)
Lemma validateQueue_covers (fuel : nat) :
  forall checkType queue visited (w : World S) v w',
    store w = s0 ->
    validateQueue fuel checkType queue visited w = Some (Ok v, w') ->
    exists new,
      calls w' = calls w ++ new
      /\ visited ⊆ v
      /\ (forall k, k ∈ v -> k ∈ visited \/ k ∈ fetchedKeys s0 new)
      /\ settledNodes s0 v queue
      /\ forall p wf c,
           CallGetEntity p ∈ new ->
           fst (repo_GetEntity p s0) = Reply wf ->
           UnmarshalCanvas (wf_Canvas wf) = Ok c ->
           settledNodes s0 v (Nodes c).
Proof.
  induction fuel as [|fuel IH]; intros checkType queue visited w v w' Hs Hrun; [done|].
  destruct queue as [|node queue].
  { injection Hrun as <- <-. exists []. rewrite app_nil_r.
    split_and!; [done|done|by left| |].
    - intros n ref Hn. by apply elem_of_nil in Hn.
    - intros p wf c Hp. by apply elem_of_nil in Hp. }
  cbn [validateQueue] in Hrun. unfold bbind, bounded_of in Hrun.
  pose proof (visitNode_content checkType node queue visited w Hs) as Hstep.
  destruct (visitNode checkType node queue visited w) as [[[q1 v1]|e|] w1]; simpl in *;
    [|done..].
  destruct Hstep as (Hs1 & new1 & Hc1 & Hok1).
  destruct (Hok1 q1 v1 eq_refl) as (Hsub1 & Hdom1 & Hrefs1 & extra & -> & Hx1).
  destruct (IH _ _ _ _ _ _ Hs1 Hrun) as (new2 & Hc2 & Hsub2 & Hdom2 & Hset2 & Hfetched2).
  exists (new1 ++ new2). rewrite Hc2, Hc1, app_assoc, fetchedKeys_app.
  split_and!; [done|by etrans| | |].
  - intros k Hk. destruct (Hdom2 k Hk) as [Hk1|Hk2].
    + destruct (Hdom1 k Hk1); [by left|right; apply elem_of_app; by left].
    + right. apply elem_of_app. by right.
  - intros n ref Hn Href. rewrite allNodes_cons, flattenNode_eq in Hn.
    apply elem_of_app in Hn as [[->|Hn]%elem_of_cons|Hn].
    + eapply settled_mono; [exact Hsub2|by apply Hrefs1].
    + eapply Hset2; [|done]. rewrite !allNodes_app, !elem_of_app. auto.
    + eapply Hset2; [|done]. rewrite !allNodes_app, !elem_of_app. auto.
  - intros p wf c [Hp|Hp]%elem_of_app Hwf Hc; [|by eapply Hfetched2].
    intros n ref Hn Href. eapply Hset2; [|done].
    rewrite !allNodes_app, !elem_of_app. right; right. by eapply Hx1.
Qed.
End ValidateCoverProps.

Section ValidateClosure.
Context `{Reg : Registry} {S : Type} `{Repo : Repository S} `{Col : Collaborators S}
        `{Hlp : Helpers}.

End ValidateClosure.

Lemma closureStore_stable (p : GetPolicy) :
  snd (repo_GetEntity (Repository := versionedRepository) p closureStore) = closureStore.
Proof. reflexivity. Qed.

Lemma closureStore_finite workflowID version wf c :
  fst (repo_GetEntity (Repository := versionedRepository)
         (entityPolicy workflowID version) closureStore) = Reply wf ->
  UnmarshalCanvas (wf_Canvas wf) = Ok c ->
  visitedKey workflowID version ∈ closureKeys
  /\ (sizeNodes (Nodes c) <= closureWeight (visitedKey workflowID version))%nat.
Proof.
  unfold entityPolicy, closureKeys, closureWeight. cbn [repo_GetEntity versionedRepository fst].
  unfold memGetEntity. cbn [gp_ID gp_QType gp_Version].
  destruct (decide (workflowID = 80)) as [->|H80];
    [|destruct (decide (workflowID = 81)) as [->|H81];
      [|destruct (decide (workflowID = 82)) as [->|H82]]].
  4:{ cbn [closureStore mem_metas].
      rewrite !lookup_insert_ne, lookup_singleton_ne by done. done. }
  all: destruct (decide (version = "")) as [->|Hv].
  all: try (intros Hget Hc; vm_compute in Hget; injection Hget as <-;
            vm_compute in Hc; injection Hc as <-; split; [|vm_compute; lia];
            rewrite !elem_of_cons; auto).
  all: unfold memVersion; cbn [closureStore mem_metas mem_versions List.find Version].
  all: try (rewrite (bool_decide_eq_false_2 (_ = _ /\ _)) by (by intros [? _]);
            vm_compute; done).
  destruct (decide ("v1" = version)) as [<-|Hv1].
  - intros Hget Hc. vm_compute in Hget. injection Hget as <-.
    vm_compute in Hc. injection Hc as <-. split; [|vm_compute; lia].
    rewrite !elem_of_cons. auto.
  - rewrite (bool_decide_eq_false_2 (_ = _ /\ _)) by (by intros [_ ?]). vm_compute. done.
Qed.


